(** * Per-station min/mean/max report: [submissions/cpp/solution.cpp]

    A shallow embedding of the C++ program and the properties of its
    report.  The program opens the first readable file of a fixed
    candidate list, reads it line by line, splits each line at the first
    ['='], converts the right-hand side with [std::stod], appends the value
    to the station's [std::vector<double>] inside a
    [std::map<std::string, ...>], and finally prints one line per station
    in key order.

    Modelling choices:
    - [std::string] is [string] (a sequence of 8-bit characters);
    - [double] is IEEE 754 binary64, through [spec_float] with
      [prec = 53] and [emax = 1024] (round to nearest, ties to even);
      the sign and payload of a NaN are not tracked: [-nan] is read
      as the same NaN as [nan] and every NaN is written [nan], where
      the program writes [-nan] for a NaN whose sign bit is set;
    - [std::map] is an association list kept sorted by the byte-wise
      order of [std::string::compare];
    - an uncaught exception ends the run ([std::terminate]);
    - the real numbers ([R]) serve only to measure the rounding error of
      the double sum and quotient behind the printed mean. *)

From Stdlib Require Import ZArith List String Ascii Bool Lia.
From Stdlib Require Import Sorted RelationClasses Permutation.
From Stdlib Require Import DecimalString SpecFloat.
From Stdlib Require Import Reals Lra.
From Stdlib Require DecimalN DecimalPos.
Import ListNotations.

Local Open Scope string_scope.
Local Open Scope Z_scope.

(** ** [double] *)

Module Double.

Definition prec : Z := 53.
Definition emax : Z := 1024.

Definition t : Type := spec_float.

(** The literal [0.0]. *)
Definition zero : t := S754_zero false.

Definition add : t -> t -> t := SFadd prec emax.
Definition div : t -> t -> t := SFdiv prec emax.

(** [operator<] on doubles: false as soon as one side is a NaN. *)
Definition ltb : t -> t -> bool := SFltb.
Definition leb : t -> t -> bool := SFleb.

(** Conversion of a [size_t] to [double]. *)
Definition of_size (n : nat) : t :=
  binary_normalize prec emax (Z.of_nat n) 0 false.

Definition is_nan (x : t) : bool :=
  match x with S754_nan => true | _ => false end.

Definition is_infinite (x : t) : bool :=
  match x with S754_infinity _ => true | _ => false end.

(** Zero, subnormal or normal. *)
Definition is_finite (x : t) : bool :=
  match x with S754_finite _ _ _ | S754_zero _ => true | _ => false end.

(** The double nearest to the rational [(-1)^neg * n / d], in a format
    with 53 significant bits and exponent bound [emx]. *)
Definition round_ratio (emx : Z) (neg : bool) (n d : positive) : t :=
  SFdiv prec emx (S754_finite neg n 0) (S754_finite false d 0).

(** [x] is exactly [n / d] in magnitude. *)
Definition represents (x : t) (n d : positive) : bool :=
  match x with
  | S754_finite _ m e =>
      if 0 <=? e then Zpos n =? Zpos m * 2 ^ e * Zpos d
      else Zpos n * 2 ^ (- e) =? Zpos m * Zpos d
  | _ => false
  end.

(** [DBL_MIN], the least positive normal double, [2^-1022]. *)
Definition min_normal : t := S754_finite false (2 ^ 52) (-1074).

End Double.

Definition double : Type := Double.t.

(** ** [std::stod]

    [std::stod (str)] calls [strtod] on the characters of [str]; it throws
    [std::invalid_argument] when no conversion could be performed and
    [std::out_of_range] when [strtod] reports [ERANGE].  Characters after
    the longest prefix that forms a number are ignored. *)

Inductive exception : Type :=
| invalid_argument
| out_of_range.

Inductive thrown (A : Type) : Type :=
| Returned (a : A)
| Threw (e : exception).
Arguments Returned {A} a.
Arguments Threw {A} e.

Module Stod.

(** What [strtod] recognised: the exact value of the subject sequence. *)
Inductive literal : Type :=
| LNan
| LInf (neg : bool)
| LNum (neg : bool) (m : N) (radix : Z) (e : Z).
    (* [(-1)^neg * m * radix^e], with [radix] 10 or 2 *)

Definition code (c : ascii) : N := N_of_ascii c.

Definition isspace (c : ascii) : bool :=
  let n := code c in ((n =? 32) || ((9 <=? n) && (n <=? 13)))%N.

Definition digit_val (c : ascii) : option N :=
  let n := code c in
  if ((48 <=? n) && (n <=? 57))%N then Some (n - 48)%N else None.

Definition xdigit_val (c : ascii) : option N :=
  let n := code c in
  if ((48 <=? n) && (n <=? 57))%N then Some (n - 48)%N
  else if ((97 <=? n) && (n <=? 102))%N then Some (n - 87)%N
  else if ((65 <=? n) && (n <=? 70))%N then Some (n - 55)%N
  else None.

Definition tolower (c : ascii) : ascii :=
  let n := code c in
  if ((65 <=? n) && (n <=? 90))%N then ascii_of_N (n + 32) else c.

Fixpoint skip_space (s : string) : string :=
  match s with
  | String c s' => if isspace c then skip_space s' else s
  | EmptyString => s
  end.

(** [s] starts with the lower-case word [w], letter case ignored. *)
Fixpoint starts_with (w s : string) : bool :=
  match w, s with
  | EmptyString, _ => true
  | String a w', String c s' =>
      if Ascii.eqb a (tolower c) then starts_with w' s' else false
  | String _ _, EmptyString => false
  end.

(** A run of digits: the number read so far, how many digits were
    read, and what follows them. *)
Fixpoint scan (dv : ascii -> option N) (radix : N) (s : string)
         (acc : N) (cnt : nat) : N * nat * string :=
  match s with
  | String c s' =>
      match dv c with
      | Some d => scan dv radix s' (acc * radix + d)%N (S cnt)
      | None => (acc, cnt, s)
      end
  | EmptyString => (acc, cnt, s)
  end.

(** Digits with at most one radix character and at least one digit:
    the digits read as one integer, the number of digits after the
    point, and the rest. *)
Definition scan_mantissa (dv : ascii -> option N) (radix : N) (s : string)
  : option (N * nat * string) :=
  let '(m1, n1, r1) := scan dv radix s 0%N 0%nat in
  match r1 with
  | String "." r2 =>
      let '(m2, n2, r3) := scan dv radix r2 m1 0%nat in
      if (n1 + n2 =? 0)%nat then None else Some (m2, n2, r3)
  | _ => if (n1 =? 0)%nat then None else Some (m1, 0%nat, r1)
  end.

(** The optional exponent part: the marker ([e] or [p], either case),
    an optional sign and at least one decimal digit; 0 when absent. *)
Definition scan_exponent (marker : ascii) (s : string) : Z :=
  match s with
  | String c r =>
      if Ascii.eqb marker (tolower c) then
        let '(neg, r') :=
          match r with
          | String "-" r' => (true, r')
          | String "+" r' => (false, r')
          | _ => (false, r)
          end in
        let '(v, n, _) := scan digit_val 10 r' 0%N 0%nat in
        if (n =? 0)%nat then 0
        else if neg then - Z.of_N v else Z.of_N v
      else 0
  | EmptyString => 0
  end.

(** After [0x] or [0X]: hexadecimal digits. *)
Definition hex_body (s : string) : option (N * nat * string) :=
  match s with
  | String "0" (String x r) =>
      if Ascii.eqb "x" (tolower x) then scan_mantissa xdigit_val 16 r
      else None
  | _ => None
  end.

Definition strtod (s : string) : option literal :=
  let s1 := skip_space s in
  let '(neg, s2) :=
    match s1 with
    | String "-" r => (true, r)
    | String "+" r => (false, r)
    | _ => (false, s1)
    end in
  if starts_with "inf" s2 then Some (LInf neg)
  else if starts_with "nan" s2 then Some LNan
  else
    match hex_body s2 with
    | Some (m, f, r) =>
        Some (LNum neg m 2 (scan_exponent "p" r - 4 * Z.of_nat f))
    | None =>
        match scan_mantissa digit_val 10 s2 with
        | Some (m, f, r) =>
            Some (LNum neg m 10 (scan_exponent "e" r - Z.of_nat f))
        | None => None
        end
    end.

(** [m * radix^e] as a fraction of two positive integers. *)
Definition ratio_of (m : positive) (radix e : Z) : positive * positive :=
  if 0 <=? e then (Z.to_pos (Zpos m * radix ^ e), 1%positive)
  else (m, Z.to_pos (radix ^ (- e))).

(** An exponent bound wide enough that no double is subnormal in the
    wider format: used to tell whether a result is tiny. *)
Definition wide_emax : Z := 4096.

(** The double returned by [strtod] and whether it sets [ERANGE]: on
    overflow, and when the result is inexact and tiny (below
    [DBL_MIN] once rounded to 53 bits), as glibc does. *)
Definition convert (l : literal) : double * bool :=
  match l with
  | LNan => (S754_nan, false)
  | LInf neg => (S754_infinity neg, false)
  | LNum neg N0 _ _ => (S754_zero neg, false)
  | LNum neg (Npos m) radix e =>
      let '(n, d) := ratio_of m radix e in
      let x := Double.round_ratio Double.emax neg n d in
      let tiny :=
        SFltb (SFabs (Double.round_ratio wide_emax neg n d))
              Double.min_normal in
      (x, Double.is_infinite x || (tiny && negb (Double.represents x n d)))
  end.

Definition stod (str : string) : thrown double :=
  match strtod str with
  | None => Threw invalid_argument
  | Some l =>
      let '(x, erange) := convert l in
      if erange then Threw out_of_range else Returned x
  end.

End Stod.

(** ** Printing a [double] with [std::fixed << std::setprecision(1)]

    The exact binary value is rounded to one decimal, ties to even, as
    [printf ("%.1f")] does. *)

Module Fixed.

(** Nearest integer to [n / d] for [d > 0], ties to even. *)
Definition round_half_even (n d : Z) : Z :=
  let q := n / d in
  match 2 * (n mod d) ?= d with
  | Lt => q
  | Gt => q + 1
  | Eq => if Z.even q then q else q + 1
  end.

(** [m * 2^e] in tenths, rounded. *)
Definition tenths (m : positive) (e : Z) : Z :=
  if 0 <=? e then 10 * Zpos m * 2 ^ e
  else round_half_even (10 * Zpos m) (2 ^ (- e)).

Definition decimal (n : Z) : string :=
  NilZero.string_of_uint (N.to_uint (Z.to_N n)).

Definition sign (s : bool) : string := if s then "-" else "".

Definition print (x : double) : string :=
  match x with
  | S754_nan => "nan"
  | S754_infinity s => sign s ++ "inf"
  | S754_zero s => sign s ++ "0.0"
  | S754_finite s m e =>
      let t := tenths m e in
      sign s ++ decimal (t / 10) ++ "." ++ decimal (t mod 10)
  end.

End Fixed.

(** ** [std::string] operations used by the program *)

Module Str.

(** [s.find (c)]: index of the first [c]; [None] is [npos]. *)
Fixpoint find (c : ascii) (s : string) : option nat :=
  match s with
  | EmptyString => None
  | String a s' =>
      if Ascii.eqb a c then Some 0%nat else option_map S (find c s')
  end.

(** [s.substr (pos, n)]. *)
Definition substr (s : string) (pos n : nat) : string := substring pos n s.

(** [s.substr (pos)], for [pos <= s.size ()]. *)
Definition substr_from (s : string) (pos : nat) : string :=
  substring pos (String.length s - pos) s.

(** [a < b] on [std::string]: lexicographic on unsigned characters. *)
Definition lt (a b : string) : Prop := String.compare a b = Lt.

End Str.

(** ** [std::map<std::string, std::vector<double>>] *)

Module Stations.

Definition t : Type := list (string * list double).

(** [m[k].push_back (v)]: the entry of [k] is created empty when it is
    missing, then [v] is appended to its vector. *)
Fixpoint push_back (k : string) (v : double) (m : t) : t :=
  match m with
  | [] => [(k, [v])]
  | (k', vs) :: m' =>
      match String.compare k k' with
      | Lt => (k, [v]) :: m
      | Eq => (k', (vs ++ [v])%list) :: m'
      | Gt => (k', vs) :: push_back k v m'
      end
  end.

Definition keys (m : t) : list string := map fst m.

(** How many doubles the table holds, over all its vectors. *)
Definition retained (m : t) : nat :=
  fold_right (fun kv n => (List.length (snd kv) + n)%nat) 0%nat m.

End Stations.

(** Keys strictly ascending: the order [std::map] iterates in. *)
Definition ordered (m : Stations.t) : Prop :=
  StronglySorted Str.lt (Stations.keys m).

(** No station has an empty vector. *)
Definition populated (m : Stations.t) : Prop :=
  Forall (fun kv => snd kv <> []) m.

(** The vector stored for [k], empty when [k] has no entry. *)
Fixpoint lookup (k : string) (m : Stations.t) : list double :=
  match m with
  | [] => []
  | (k', vs) :: m' => if String.eqb k' k then vs else lookup k m'
  end.

(** ** The program *)

Definition input_files : list string :=
  [ "data/measurements_1m.txt"; "data/measurements.txt";
    "data/test_measurements.txt" ].

(** The files that can be opened for reading, with their contents. *)
Definition filesystem : Type := string -> option string.

(** The loop over [input_files]: the first file that opens is kept. *)
Fixpoint open_first (fs : filesystem) (names : list string) : option string :=
  match names with
  | [] => None
  | filename :: rest =>
      match fs filename with
      | Some content => Some content
      | None => open_first fs rest
      end
  end.

Definition newline : ascii := "010"%char.
Definition endl : string := String newline "".

(** [std::getline (file, line)] extracts up to the next newline, which it
    consumes; it fails when the stream is at its end. *)
Fixpoint until_newline (s : string) : string * string :=
  match s with
  | EmptyString => ("", "")
  | String c s' =>
      if Ascii.eqb c newline then ("", s')
      else let '(l, r) := until_newline s' in (String c l, r)
  end.

Definition getline (stream : string) : option (string * string) :=
  match stream with
  | EmptyString => None
  | String _ _ => Some (until_newline stream)
  end.

(** The lines that successive calls of [getline] yield. *)
Fixpoint lines (s : string) : list string :=
  match s with
  | EmptyString => []
  | String c s' =>
      if Ascii.eqb c newline then "" :: lines s'
      else
        match lines s' with
        | [] => [String c ""]
        | l :: ls => String c l :: ls
        end
  end.

(** The body of the reading loop. *)
Definition process_line (line : string) (stations : Stations.t)
  : thrown Stations.t :=
  match Str.find "=" line with
  | Some pos =>
      let station := Str.substr line 0 pos in
      match Stod.stod (Str.substr_from line (pos + 1)) with
      | Returned temp => Returned (Stations.push_back station temp stations)
      | Threw e => Threw e
      end
  | None => Returned stations
  end.

Fixpoint read_loop (ls : list string) (stations : Stations.t)
  : thrown Stations.t :=
  match ls with
  | [] => Returned stations
  | line :: rest =>
      match process_line line stations with
      | Returned stations' => read_loop rest stations'
      | Threw e => Threw e
      end
  end.

(** [std::minmax_element]: after the first two elements the range is
    walked two elements at a time; the smaller of a pair is compared with
    the minimum, the other one with the maximum.  The minimum moves on a
    strictly smaller element, the maximum on any element that is not
    smaller. *)
Fixpoint minmax_pairs (l : list double) (mn mx : double) : double * double :=
  match l with
  | [] => (mn, mx)
  | [i] =>
      if Double.ltb i mn then (i, mx)
      else if negb (Double.ltb i mx) then (mn, i)
      else (mn, mx)
  | i :: j :: rest =>
      if Double.ltb j i then
        minmax_pairs rest (if Double.ltb j mn then j else mn)
                          (if negb (Double.ltb i mx) then i else mx)
      else
        minmax_pairs rest (if Double.ltb i mn then i else mn)
                          (if negb (Double.ltb j mx) then j else mx)
  end.

(** The two values the returned iterators point at; [None] on an empty
    range, where both are [end ()]. *)
Definition minmax_element (temps : list double) : option (double * double) :=
  match temps with
  | [] => None
  | [x] => Some (x, x)
  | x :: y :: rest =>
      Some (if Double.ltb y x then minmax_pairs rest y x
            else minmax_pairs rest x y)
  end.

(** [std::accumulate (first, last, 0.0)]. *)
Definition accumulate (temps : list double) : double :=
  fold_left Double.add temps Double.zero.

Definition mean (temps : list double) : double :=
  Double.div (accumulate temps) (Double.of_size (List.length temps)).

(** How a run ends: [return] from [main], [std::terminate] on an
    exception nobody catches, or undefined behaviour. *)
Inductive status : Type :=
| Exited (code : Z)
| Terminated (e : exception)
| Undefined.

(** One turn of the printing loop: the line written to [std::cout];
    [None] when the vector is empty and [end ()] would be dereferenced. *)
Definition print_entry (station : string) (temps : list double)
  : option string :=
  match minmax_element temps with
  | Some (mn, mx) =>
      Some (station ++ "=" ++ Fixed.print mn ++ "/"
              ++ Fixed.print (mean temps) ++ "/" ++ Fixed.print mx ++ endl)
  | None => None
  end.

(** What [main] itself wrote to [std::cout] and [std::cerr], and how the
    run ended. *)
Record outcome : Type := { cout : string; cerr : string; exit : status }.

(** The printing loop: what it writes and how [main] ends after it. *)
Fixpoint print_loop (stations : Stations.t) : string * status :=
  match stations with
  | [] => ("", Exited 0)
  | (station, temps) :: rest =>
      match print_entry station temps with
      | Some l => let '(text, s) := print_loop rest in (l ++ text, s)
      | None => ("", Undefined)
      end
  end.

Definition main (fs : filesystem) : outcome :=
  match open_first fs input_files with
  | None =>
      {| cout := ""; cerr := "Error: Could not open file" ++ endl;
         exit := Exited 1 |}
  | Some content =>
      match read_loop (lines content) [] with
      | Threw e => {| cout := ""; cerr := ""; exit := Terminated e |}
      | Returned stations =>
          let '(text, s) := print_loop stations in
          {| cout := text; cerr := ""; exit := s |}
      end
  end.

(** A file system that holds one readable file. *)
Definition single_file (name content : string) : filesystem :=
  fun f => if String.eqb f name then Some content else None.

(** The text of a file made of the given lines, each ended by a newline. *)
Definition unlines (ls : list string) : string :=
  fold_right (fun l s => l ++ endl ++ s) "" ls.

(** ** Records and reports: the vocabulary of the properties *)

(** A record is a key and a value. *)
Definition record : Type := (string * double)%type.

(** What the loop body makes of a line: a record, nothing (no ['=']), or
    the exception of [std::stod]. *)
Definition parse_line (line : string) : thrown (option record) :=
  match Str.find "=" line with
  | Some pos =>
      match Stod.stod (Str.substr_from line (pos + 1)) with
      | Returned temp => Returned (Some (Str.substr line 0 pos, temp))
      | Threw e => Threw e
      end
  | None => Returned None
  end.

(** A valid record: a line with a delimiter and a value that converts. *)
Definition valid_record (line : string) : option record :=
  match parse_line line with
  | Returned r => r
  | Threw _ => None
  end.

Fixpoint valid_records (ls : list string) : list record :=
  match ls with
  | [] => []
  | line :: rest =>
      match valid_record line with
      | Some r => r :: valid_records rest
      | None => valid_records rest
      end
  end.

(** The values recorded for key [k], in input order. *)
Fixpoint values_of (k : string) (recs : list record) : list double :=
  match recs with
  | [] => []
  | (k', v) :: rest =>
      if String.eqb k' k then v :: values_of k rest else values_of k rest
  end.

(** The table after the records [recs] were pushed one by one. *)
Definition pushed (recs : list record) (m : Stations.t) : Stations.t :=
  fold_left (fun m r => Stations.push_back (fst r) (snd r) m) recs m.

(** The table [main] holds when the reading loop is over. *)
Definition aggregate (fs : filesystem) : option Stations.t :=
  match open_first fs input_files with
  | Some content =>
      match read_loop (lines content) [] with
      | Returned stations => Some stations
      | Threw _ => None
      end
  | None => None
  end.

(** The values recorded for station [k] in the file that [main] reads, in
    input order. *)
Definition recorded (fs : filesystem) (k : string) : list double :=
  match open_first fs input_files with
  | Some content => values_of k (valid_records (lines content))
  | None => []
  end.

(** One entry of the report: what the printing loop computes for a
    station before it formats it. *)
Record entry : Type :=
  { station : string;
    count : nat;
    min_temp : double;
    mean_temp : double;
    max_temp : double }.

Definition summarize (k : string) (temps : list double) : option entry :=
  match minmax_element temps with
  | Some (mn, mx) =>
      Some {| station := k; count := List.length temps;
              min_temp := mn; mean_temp := mean temps; max_temp := mx |}
  | None => None
  end.

Definition format_entry (e : entry) : string :=
  station e ++ "=" ++ Fixed.print (min_temp e) ++ "/"
    ++ Fixed.print (mean_temp e) ++ "/" ++ Fixed.print (max_temp e) ++ endl.

(** A printed line is the station, ['='], the three numbers and a
    newline. *)
Definition numbers (e : entry) : string :=
  Fixed.print (min_temp e) ++ "/" ++ Fixed.print (mean_temp e)
    ++ "/" ++ Fixed.print (max_temp e).

(** The entries behind the printed report, in printing order. *)
Fixpoint entries (stations : Stations.t) : list entry :=
  match stations with
  | [] => []
  | (k, temps) :: rest =>
      match summarize k temps with
      | Some e => e :: entries rest
      | None => entries rest
      end
  end.

Definition report (fs : filesystem) : list entry :=
  match aggregate fs with
  | Some stations => entries stations
  | None => []
  end.

(** The key of an output line: what precedes its first ['=']. *)
Definition key_of (line : string) : string :=
  match Str.find "=" line with
  | Some pos => Str.substr line 0 pos
  | None => line
  end.

Definition output_keys (text : string) : list string :=
  map key_of (lines text).

(** ** The run as a transition system

    One transition per turn of a loop or per test of [main]; the state
    holds the place in the program, the table and what was written. *)

Module Machine.

Inductive control : Type :=
| Opening (names : list string)   (* in the loop over [input_files] *)
| Reading (stream : string)       (* a file is open; what is left of it *)
| Printing (todo : Stations.t)    (* in the loop over [stations] *)
| Halted (s : status).

Record state : Type :=
  { pc : control; table : Stations.t; out : string; err : string }.

Definition initial : state :=
  {| pc := Opening input_files; table := []; out := ""; err := "" |}.

Inductive step (fs : filesystem) : state -> state -> Prop :=
| step_open : forall filename rest content m o e,
    fs filename = Some content ->
    step fs {| pc := Opening (filename :: rest); table := m; out := o; err := e |}
            {| pc := Reading content; table := m; out := o; err := e |}
| step_next_file : forall filename rest m o e,
    fs filename = None ->
    step fs {| pc := Opening (filename :: rest); table := m; out := o; err := e |}
            {| pc := Opening rest; table := m; out := o; err := e |}
| step_no_file : forall m o e,
    step fs {| pc := Opening []; table := m; out := o; err := e |}
            {| pc := Halted (Exited 1); table := m; out := o;
               err := e ++ "Error: Could not open file" ++ endl |}
| step_line : forall stream line stream' m m' o e,
    getline stream = Some (line, stream') ->
    process_line line m = Returned m' ->
    step fs {| pc := Reading stream; table := m; out := o; err := e |}
            {| pc := Reading stream'; table := m'; out := o; err := e |}
| step_throw : forall stream line stream' m x o e,
    getline stream = Some (line, stream') ->
    process_line line m = Threw x ->
    step fs {| pc := Reading stream; table := m; out := o; err := e |}
            {| pc := Halted (Terminated x); table := m; out := o; err := e |}
| step_eof : forall stream m o e,
    getline stream = None ->
    step fs {| pc := Reading stream; table := m; out := o; err := e |}
            {| pc := Printing m; table := m; out := o; err := e |}
| step_print : forall k temps rest l m o e,
    print_entry k temps = Some l ->
    step fs {| pc := Printing ((k, temps) :: rest); table := m; out := o; err := e |}
            {| pc := Printing rest; table := m; out := o ++ l; err := e |}
| step_undefined : forall k temps rest m o e,
    print_entry k temps = None ->
    step fs {| pc := Printing ((k, temps) :: rest); table := m; out := o; err := e |}
            {| pc := Halted Undefined; table := m; out := o; err := e |}
| step_return : forall m o e,
    step fs {| pc := Printing []; table := m; out := o; err := e |}
            {| pc := Halted (Exited 0); table := m; out := o; err := e |}.

(** Zero or more transitions. *)
Inductive steps (fs : filesystem) : state -> state -> Prop :=
| steps_refl : forall s, steps fs s s
| steps_cons : forall s1 s2 s3,
    step fs s1 s2 -> steps fs s2 s3 -> steps fs s1 s3.

(** A complete run: from the initial state to a halted one. *)
Definition runs (fs : filesystem) (o : outcome) : Prop :=
  exists m,
    steps fs initial
      {| pc := Halted (exit o); table := m; out := cout o; err := cerr o |}.

End Machine.

(** ** The order of doubles *)

(** A rank that orders the doubles other than NaN as [SFcompare] does:
    the class first (negative infinity, negative, zero, positive,
    positive infinity), then exponent and mantissa. *)
Definition rank (x : double) : Z * Z * Z :=
  match x with
  | S754_nan => (0, 0, 0)
  | S754_zero _ => (0, 0, 0)
  | S754_infinity s => (if s then -2 else 2, 0, 0)
  | S754_finite s m e =>
      if s then (-1, - e, Zneg m) else (1, e, Zpos m)
  end.

Definition lex_compare (a b : Z * Z * Z) : comparison :=
  let '(a1, a2, a3) := a in
  let '(b1, b2, b3) := b in
  match a1 ?= b1 with
  | Eq => match a2 ?= b2 with Eq => a3 ?= b3 | c => c end
  | c => c
  end.

Definition lex_le (a b : Z * Z * Z) : Prop :=
  let '(a1, a2, a3) := a in
  let '(b1, b2, b3) := b in
  a1 < b1 \/ (a1 = b1 /\ (a2 < b2 \/ (a2 = b2 /\ a3 <= b3))).

(** Not a NaN. *)
Definition number (x : double) : Prop := Double.is_nan x = false.

(** ** Doubles as real numbers *)

(** Zero, or a mantissa and an exponent the format allows. *)
Definition valid64 (x : double) : Prop := valid_binary 53 1024 x = true.

(** The real number a finite double stands for. *)
Definition B2R (x : double) : R :=
  match x with
  | S754_finite s m e => (IZR (cond_Zopp s (Zpos m)) * powerRZ 2 e)%R
  | _ => 0%R
  end.

(** The exact sum of the values of a list of doubles. *)
Definition Rsum (l : list double) : R :=
  fold_right (fun x s => (B2R x + s)%R) 0%R l.

(** A double that stands for a real number between [lo] and [hi]. *)
Definition within (lo hi : R) (t : double) : Prop :=
  valid64 t /\ Double.is_finite t = true /\ (lo <= B2R t <= hi)%R.

(** The tolerance of the mean of [n] doubles of magnitude at most [a]:
    the relative error [(n + 1) * 2^-52] and half the least positive
    double. *)
Definition tolerance (n : nat) (a : R) : R :=
  (INR (S n) * / IZR (2 ^ 52) * a + powerRZ 2 (-1075))%R.

(** ** Rounding, as [SpecFloat] computes it *)

(** [N / D] lies in [[m, m + 1)] where [m] is the mantissa of the record,
    at the place its two bits tell. *)
Definition located (N D : Z) (mrs : shr_record) : Prop :=
  let R := N - shr_m mrs * D in
  0 <= shr_m mrs /\ 0 <= R < D /\
  match shr_r mrs, shr_s mrs with
  | false, false => R = 0
  | false, true => 0 < 2 * R < D
  | true, false => 2 * R = D
  | true, true => D < 2 * R
  end.

(** The exponent of the last place of a double with [e] binary digits
    before the point. *)
Definition fexp64 (e : Z) : Z := fexp 53 1024 e.

(** The double for the integer [m1], between 0 and [2^53], at the
    exponent [e1]. *)
Definition pack (s : bool) (m1 e1 : Z) : spec_float :=
  match m1 with
  | Z0 => S754_zero s
  | Zpos p =>
      if Zpos p <? 2 ^ 53 then
        if e1 <=? 971 then S754_finite s p e1 else S754_infinity s
      else
        if e1 + 1 <=? 971 then S754_finite s (2 ^ 52) (e1 + 1)
        else S754_infinity s
  | Zneg _ => S754_nan
  end.

(** ** Inputs and values of the examples *)

(** The file name used in the examples: the second candidate. *)
Definition measurements : string := "data/measurements.txt".

Definition scenario_A_semicolon : string :=
  unlines ["A;10.0"; "B;20.0"; "A;5.0"].

Definition scenario_A_equals : string :=
  unlines ["A=10.0"; "B=20.0"; "A=5.0"].

Definition scenario_A_report : string :=
  unlines ["A=5.0/7.5/10.0"; "B=20.0/20.0/20.0"].

(** The double 1.5. *)
Definition one_and_a_half : double := S754_finite false 6755399441055744 (-52).

(** The mean of the two records [A=1e308] overflows. *)
Definition overflow_input : string := unlines ["A=1e308"; "A=1e308"].

(** The double nearest to 1e308. *)
Definition ten_to_308 : double := S754_finite false 5010420900022432 971.

(** ** Decimal texts *)

(** The number that the digits [d] continue, [acc] being the number
    read before them. *)
Fixpoint uint_value (d : Decimal.uint) (acc : N) : N :=
  match d with
  | Decimal.Nil => acc
  | Decimal.D0 d' => uint_value d' (acc * 10 + 0)
  | Decimal.D1 d' => uint_value d' (acc * 10 + 1)
  | Decimal.D2 d' => uint_value d' (acc * 10 + 2)
  | Decimal.D3 d' => uint_value d' (acc * 10 + 3)
  | Decimal.D4 d' => uint_value d' (acc * 10 + 4)
  | Decimal.D5 d' => uint_value d' (acc * 10 + 5)
  | Decimal.D6 d' => uint_value d' (acc * 10 + 6)
  | Decimal.D7 d' => uint_value d' (acc * 10 + 7)
  | Decimal.D8 d' => uint_value d' (acc * 10 + 8)
  | Decimal.D9 d' => uint_value d' (acc * 10 + 9)
  end%N.

(** The text of [n] tenths with one digit after the point, as in
    [12.3] and [-0.5]. *)
Definition one_decimal (neg : bool) (n : Z) : string :=
  Fixed.sign neg ++ Fixed.decimal (n / 10) ++ "." ++ Fixed.decimal (n mod 10).

(** [pack] for a format of 53 bits with exponent bound [emx]. *)
Definition pack_in (emx : Z) (s : bool) (m1 e1 : Z) : spec_float :=
  match m1 with
  | Z0 => S754_zero s
  | Zpos p =>
      if Zpos p <? 2 ^ 53 then
        if e1 <=? emx - 53 then S754_finite s p e1 else S754_infinity s
      else
        if e1 + 1 <=? emx - 53 then S754_finite s (2 ^ 52) (e1 + 1)
        else S754_infinity s
  | Zneg _ => S754_nan
  end.

(** The two fields of a line that has a ['=']: the station, and the
    text given to [std::stod]. *)
Definition split_line (line : string) : option (string * string) :=
  match Str.find "=" line with
  | Some pos => Some (Str.substr line 0 pos, Str.substr_from line (pos + 1))
  | None => None
  end.

(** The value texts of the lines of station [k], in input order. *)
Fixpoint texts_of (k : string) (ls : list string) : list string :=
  match ls with
  | [] => []
  | line :: rest =>
      match split_line line with
      | Some (k', text) =>
          if String.eqb k' k then text :: texts_of k rest
          else texts_of k rest
      | None => texts_of k rest
      end
  end.

(** * Properties *)

(** ** Strings *)

Section StringFacts.

Lemma append_assoc (a b c : string) : (a ++ b) ++ c = a ++ b ++ c.
Proof. induction a as [|x a IH]; simpl; [reflexivity | now rewrite IH]. Qed.

Lemma append_nil_r (a : string) : a ++ "" = a.
Proof. induction a as [|x a IH]; simpl; [reflexivity | now rewrite IH]. Qed.

Lemma ascii_compare_refl (c : ascii) : Ascii.compare c c = Eq.
Proof. unfold Ascii.compare. apply N.compare_refl. Qed.

Lemma ascii_compare_lt_trans (a b c : ascii) :
  Ascii.compare a b = Lt -> Ascii.compare b c = Lt -> Ascii.compare a c = Lt.
Proof.
  unfold Ascii.compare. rewrite !N.compare_lt_iff. apply N.lt_trans.
Qed.

Lemma compare_refl (s : string) : String.compare s s = Eq.
Proof.
  induction s as [|c s IH]; simpl; [reflexivity|].
  now rewrite ascii_compare_refl.
Qed.

Lemma compare_lt_trans (a b c : string) :
  String.compare a b = Lt -> String.compare b c = Lt ->
  String.compare a c = Lt.
Proof.
  revert b c. induction a as [|x a IH]; intros [|y b] [|z c]; simpl;
    try discriminate; try reflexivity.
  destruct (Ascii.compare x y) eqn:Exy; try discriminate;
    destruct (Ascii.compare y z) eqn:Eyz; try discriminate; intros Hab Hbc.
  - apply Ascii.compare_eq_iff in Exy, Eyz. subst.
    rewrite ascii_compare_refl. eauto.
  - apply Ascii.compare_eq_iff in Exy. subst. now rewrite Eyz.
  - apply Ascii.compare_eq_iff in Eyz. subst. now rewrite Exy.
  - now rewrite (ascii_compare_lt_trans _ _ _ Exy Eyz).
Qed.

Lemma compare_gt_lt (a b : string) :
  String.compare a b = Gt -> String.compare b a = Lt.
Proof.
  intros H. rewrite String.compare_antisym, H. reflexivity.
Qed.

Lemma lt_irrefl (a : string) : ~ Str.lt a a.
Proof. unfold Str.lt. now rewrite compare_refl. Qed.

Lemma lt_trans : Transitive Str.lt.
Proof. intros a b c. apply compare_lt_trans. Qed.

(** The empty string is below every other string. *)
Lemma empty_least (k : string) : k = "" \/ Str.lt "" k.
Proof. destruct k; [now left | now right]. Qed.

(** No string is below the empty string. *)
Lemma not_lt_empty (k : string) : ~ Str.lt k "".
Proof. unfold Str.lt. now destruct k. Qed.

Lemma find_append_none (c : ascii) (a b : string) :
  Str.find c (a ++ b) = None <-> Str.find c a = None /\ Str.find c b = None.
Proof.
  induction a as [|x a IH]; simpl.
  - tauto.
  - destruct (Ascii.eqb x c).
    + split; [discriminate | intros [H _]; discriminate].
    + assert (Hm : forall o : option nat, option_map S o = None <-> o = None)
        by (intros [n|]; simpl; split; congruence).
      rewrite !Hm. exact IH.
Qed.

(** Where a character is found first, it splits the string. *)
Lemma find_split (c : ascii) (s : string) (pos : nat) :
  Str.find c s = Some pos ->
  s = Str.substr s 0 pos ++ String c (Str.substr_from s (pos + 1))
  /\ Str.find c (Str.substr s 0 pos) = None
  /\ String.length (Str.substr s 0 pos) = pos.
Proof.
  unfold Str.substr, Str.substr_from. revert pos.
  induction s as [|x s IH]; simpl; intros pos H; [discriminate|].
  destruct (Ascii.eqb_spec x c) as [->|Hne].
  - injection H as <-. simpl. rewrite Nat.sub_0_r.
    repeat split.
    clear IH. f_equal. f_equal.
    induction s as [|y s IHs]; simpl; [reflexivity | now rewrite <- IHs].
  - destruct (Str.find c s) as [p|] eqn:E; [|discriminate].
    injection H as <-. simpl.
    destruct (IH p eq_refl) as (H1 & H2 & H3).
    rewrite <- H1, H2, H3.
    destruct (Ascii.eqb_spec x c); [contradiction|]. auto.
Qed.

Lemma find_here (c : ascii) (k r : string) :
  Str.find c k = None ->
  Str.find c (k ++ String c r) = Some (String.length k)
  /\ Str.substr (k ++ String c r) 0 (String.length k) = k.
Proof.
  unfold Str.substr.
  induction k as [|x k IH]; simpl; intros H.
  - rewrite Ascii.eqb_refl. now destruct r.
  - destruct (Ascii.eqb x c); [discriminate|].
    destruct (Str.find c k); [discriminate|].
    destruct (IH eq_refl) as [-> ->]. auto.
Qed.

Lemma key_of_line (k body : string) :
  Str.find "=" k = None -> key_of (k ++ "=" ++ body) = k.
Proof.
  intros H. unfold key_of. simpl.
  destruct (find_here "=" k body H) as [-> ->]. reflexivity.
Qed.

Lemma until_newline_none (s : string) :
  Str.find newline s = None -> until_newline s = (s, "").
Proof.
  induction s as [|c s IH]; simpl; [reflexivity|].
  destruct (Ascii.eqb c newline); [discriminate|].
  destruct (Str.find newline s); [discriminate|].
  intros _. now rewrite IH.
Qed.

(** What [getline] yields is the head of [lines]. *)
Lemma lines_getline (s : string) :
  match getline s with
  | Some (l, r) => lines s = l :: lines r
  | None => lines s = []
  end.
Proof.
  induction s as [|c s IH]; simpl; [reflexivity|].
  destruct (Ascii.eqb c newline); [reflexivity|].
  destruct s as [|d s]; [reflexivity|].
  change (getline (String d s)) with (Some (until_newline (String d s))) in IH.
  change (until_newline (String c (String d s)))
    with (let '(l, r) := until_newline (String d s) in (String c l, r)).
  destruct (until_newline (String d s)) as [l r].
  now rewrite IH.
Qed.

Lemma lines_no_newline (s : string) :
  Forall (fun l => Str.find newline l = None) (lines s).
Proof.
  induction s as [|c s IH]; simpl; [constructor|].
  destruct (Ascii.eqb c newline) eqn:E; [constructor; auto|].
  destruct (lines s) as [|l ls]; constructor; simpl; rewrite ?E; auto.
  - inversion IH; subst. now rewrite H1.
  - now inversion IH.
Qed.

Lemma lines_cons (l rest : string) :
  Str.find newline l = None ->
  lines (l ++ String newline rest) = l :: lines rest.
Proof.
  induction l as [|c l IH]; simpl; intros H; [reflexivity|].
  destruct (Ascii.eqb c newline); [discriminate|].
  destruct (Str.find newline l); [discriminate|].
  now rewrite (IH eq_refl).
Qed.

Lemma lines_unlines (ls : list string) :
  Forall (fun l => Str.find newline l = None) ls -> lines (unlines ls) = ls.
Proof.
  induction 1 as [|l ls Hl _ IH]; simpl; [reflexivity|].
  now rewrite lines_cons, IH.
Qed.

End StringFacts.

(** ** The table of stations *)

Module StationsFacts.
Import Stations.

Lemma keys_push_back (k k' : string) (v : double) (m : t) :
  In k (keys (push_back k' v m)) <-> k = k' \/ In k (keys m).
Proof.
  induction m as [|[k1 vs] m IH]; simpl.
  - intuition.
  - destruct (String.compare k' k1) eqn:E; simpl.
    + apply String.compare_eq_iff in E. subst. intuition.
    + intuition.
    + rewrite IH. intuition.
Qed.

Lemma push_back_ordered (k : string) (v : double) (m : t) :
  ordered m -> ordered (push_back k v m).
Proof.
  unfold ordered.
  induction m as [|[k1 vs] m IH]; simpl; intros H.
  - repeat constructor.
  - apply StronglySorted_inv in H. destruct H as [Hs Hall].
    destruct (String.compare k k1) eqn:E; simpl.
    + now constructor.
    + constructor; [now constructor|].
      constructor; [exact E|].
      eapply Forall_impl; [|exact Hall].
      intros a Ha. exact (compare_lt_trans _ _ _ E Ha).
    + constructor; [auto|].
      apply Forall_forall. intros x Hx.
      apply keys_push_back in Hx. destruct Hx as [->|Hx].
      * now apply compare_gt_lt.
      * rewrite Forall_forall in Hall. auto.
Qed.

Lemma ordered_NoDup (m : t) : ordered m -> NoDup (keys m).
Proof.
  unfold ordered. induction 1 as [|k ks _ IH Hall]; constructor; auto.
  intros Hin. rewrite Forall_forall in Hall.
  exact (lt_irrefl _ (Hall _ Hin)).
Qed.

Lemma ordered_Sorted (m : t) : ordered m -> Sorted Str.lt (keys m).
Proof. apply StronglySorted_Sorted. Qed.

Lemma lookup_absent (k : string) (m : t) :
  ~ In k (keys m) -> lookup k m = [].
Proof.
  induction m as [|[k1 vs] m IH]; simpl; intros H; [reflexivity|].
  destruct (String.eqb_spec k1 k); [tauto | auto].
Qed.

Lemma lookup_push_back (k k' : string) (v : double) (m : t) :
  ordered m ->
  lookup k (push_back k' v m)
  = (lookup k m ++ if String.eqb k' k then [v] else [])%list.
Proof.
  unfold ordered.
  induction m as [|[k1 vs] m IH]; simpl; intros H.
  - reflexivity.
  - apply StronglySorted_inv in H. destruct H as [Hs Hall].
    destruct (String.compare k' k1) eqn:E; simpl.
    + apply String.compare_eq_iff in E. subst k1.
      destruct (String.eqb k' k); [reflexivity | now rewrite app_nil_r].
    + destruct (String.eqb_spec k' k) as [->|Hne].
      * destruct (String.eqb_spec k1 k) as [->|_].
        { now rewrite compare_refl in E. }
        rewrite lookup_absent; [reflexivity|].
        intros Hin. rewrite Forall_forall in Hall.
        apply (lt_irrefl k). exact (compare_lt_trans _ _ _ E (Hall _ Hin)).
      * now rewrite app_nil_r.
    + destruct (String.eqb_spec k1 k) as [->|_].
      * destruct (String.eqb_spec k' k) as [->|_].
        { now rewrite compare_refl in E. }
        now rewrite app_nil_r.
      * auto.
Qed.

Lemma lookup_In (k : string) (vs : list double) (m : t) :
  ordered m -> In (k, vs) m -> lookup k m = vs.
Proof.
  unfold ordered.
  induction m as [|[k1 vs1] m IH]; simpl; intros H Hin; [contradiction|].
  apply StronglySorted_inv in H. destruct H as [Hs Hall].
  destruct Hin as [[= -> ->]|Hin].
  - now rewrite String.eqb_refl.
  - destruct (String.eqb_spec k1 k) as [->|_]; [|auto].
    exfalso. rewrite Forall_forall in Hall.
    apply (lt_irrefl k), Hall. now apply (in_map fst) in Hin.
Qed.

Lemma push_back_populated (k : string) (v : double) (m : t) :
  populated m -> populated (push_back k v m).
Proof.
  unfold populated.
  induction m as [|[k1 vs] m IH]; simpl; intros H.
  - repeat constructor. discriminate.
  - inversion H as [|? ? H1 H2]; subst.
    destruct (String.compare k k1).
    + constructor; [simpl; now destruct vs | exact H2].
    + constructor; [simpl; discriminate | exact H].
    + constructor; [exact H1 | now apply IH].
Qed.

Lemma retained_push_back (k : string) (v : double) (m : t) :
  retained (push_back k v m) = S (retained m).
Proof.
  induction m as [|[k1 vs] m IH]; simpl; [reflexivity|].
  destruct (String.compare k k1); simpl.
  - rewrite length_app. simpl. lia.
  - reflexivity.
  - rewrite IH. lia.
Qed.

(** *** After a sequence of records *)

Lemma pushed_ordered (recs : list record) (m : t) :
  ordered m -> ordered (pushed recs m).
Proof.
  unfold pushed. revert m.
  induction recs as [|r recs IH]; simpl; intros m H; [exact H|].
  now apply IH, push_back_ordered.
Qed.

Lemma pushed_populated (recs : list record) (m : t) :
  populated m -> populated (pushed recs m).
Proof.
  unfold pushed. revert m.
  induction recs as [|r recs IH]; simpl; intros m H; [exact H|].
  now apply IH, push_back_populated.
Qed.

Lemma pushed_keys (recs : list record) (m : t) (k : string) :
  In k (keys (pushed recs m)) <-> In k (map fst recs) \/ In k (keys m).
Proof.
  unfold pushed. revert m.
  induction recs as [|r recs IH]; simpl; intros m; [tauto|].
  rewrite IH, keys_push_back. intuition.
Qed.

Lemma pushed_lookup (recs : list record) (m : t) (k : string) :
  ordered m ->
  lookup k (pushed recs m) = (lookup k m ++ values_of k recs)%list.
Proof.
  unfold pushed. revert m.
  induction recs as [|[k1 v] recs IH]; simpl; intros m H.
  - now rewrite app_nil_r.
  - rewrite IH by now apply push_back_ordered.
    rewrite lookup_push_back by exact H.
    rewrite <- app_assoc. now destruct (String.eqb k1 k).
Qed.

Lemma pushed_retained (recs : list record) (m : t) :
  retained (pushed recs m) = (List.length recs + retained m)%nat.
Proof.
  unfold pushed. revert m.
  induction recs as [|r recs IH]; simpl; intros m; [reflexivity|].
  rewrite IH, retained_push_back. lia.
Qed.

Lemma ordered_nil : ordered [].
Proof. constructor. Qed.

Lemma populated_nil : populated [].
Proof. constructor. Qed.

End StationsFacts.

(** ** The reading loop *)

Section ReadLoop.
Import StationsFacts.

Lemma process_line_parse (line : string) (m : Stations.t) :
  process_line line m
  = match parse_line line with
    | Returned (Some r) => Returned (Stations.push_back (fst r) (snd r) m)
    | Returned None => Returned m
    | Threw e => Threw e
    end.
Proof.
  unfold process_line, parse_line.
  destruct (Str.find "=" line); [|reflexivity].
  now destruct (Stod.stod _).
Qed.

(** A loop that completes has pushed the valid records, in order. *)
Lemma read_loop_pushed (ls : list string) (m m' : Stations.t) :
  read_loop ls m = Returned m' -> m' = pushed (valid_records ls) m.
Proof.
  revert m. induction ls as [|line ls IH]; simpl; intros m H.
  - now injection H as <-.
  - rewrite process_line_parse in H. unfold valid_record.
    destruct (parse_line line) as [[r|]|e]; try discriminate; auto.
    now apply IH in H.
Qed.

(** The loop completes exactly when no line makes [std::stod] throw. *)
Lemma read_loop_returns (ls : list string) (m : Stations.t) :
  (exists m', read_loop ls m = Returned m')
  <-> Forall (fun line => forall e, parse_line line <> Threw e) ls.
Proof.
  revert m. induction ls as [|line ls IH]; simpl; intros m.
  - split; [constructor | eauto].
  - rewrite process_line_parse.
    destruct (parse_line line) as [[r|]|e] eqn:E.
    + rewrite IH. split; intros H.
      * constructor; [congruence | assumption].
      * now inversion H.
    + rewrite IH. split; intros H.
      * constructor; [congruence | assumption].
      * now inversion H.
    + split; [intros [m' H]; discriminate|].
      intros H. inversion H as [|? ? H1 _]; subst. now destruct (H1 e).
Qed.

(** The first line that throws ends the loop with its exception. *)
Lemma read_loop_throws (l1 l2 : list string) (line : string)
      (e : exception) (m : Stations.t) :
  Forall (fun l => forall e', parse_line l <> Threw e') l1 ->
  parse_line line = Threw e ->
  read_loop (l1 ++ line :: l2)%list m = Threw e.
Proof.
  intros H1 He. revert m.
  induction H1 as [|l l1 Hl _ IH]; simpl; intros m.
  - now rewrite process_line_parse, He.
  - rewrite process_line_parse.
    destruct (parse_line l) as [[r|]|e'] eqn:E; auto. now destruct (Hl e').
Qed.

(** A line without delimiter leaves no trace. *)
Lemma read_loop_skip (l1 l2 : list string) (line : string) (m : Stations.t) :
  Str.find "=" line = None ->
  read_loop (l1 ++ line :: l2)%list m = read_loop (l1 ++ l2)%list m.
Proof.
  intros Hn. revert m. induction l1 as [|l l1 IH]; simpl; intros m.
  - unfold process_line. now rewrite Hn.
  - destruct (process_line l m); auto.
Qed.

(** The key of a record has no ['='], and no newline when its line has
    none. *)
Lemma valid_record_key (line k : string) (v : double) :
  valid_record line = Some (k, v) ->
  Str.find "=" k = None
  /\ (Str.find newline line = None -> Str.find newline k = None).
Proof.
  unfold valid_record, parse_line.
  destruct (Str.find "=" line) as [pos|] eqn:E; [|discriminate].
  destruct (Stod.stod _); [|discriminate].
  intros [= <- <-]. destruct (find_split _ _ _ E) as (Hs & Hk & _).
  split; [exact Hk|]. intros Hn. rewrite Hs in Hn.
  now apply find_append_none in Hn.
Qed.

Lemma valid_records_keys (ls : list string) (k : string) :
  Forall (fun l => Str.find newline l = None) ls ->
  In k (map fst (valid_records ls)) ->
  Str.find "=" k = None /\ Str.find newline k = None.
Proof.
  induction 1 as [|l ls Hl _ IH]; simpl; [contradiction|].
  destruct (valid_record l) as [[k1 v]|] eqn:E; simpl; auto.
  intros [<-|Hin]; auto.
  destruct (valid_record_key _ _ _ E); auto.
Qed.

Lemma valid_records_app (l1 l2 : list string) :
  valid_records (l1 ++ l2)%list
  = (valid_records l1 ++ valid_records l2)%list.
Proof.
  induction l1 as [|l l1 IH]; simpl; [reflexivity|].
  destruct (valid_record l); simpl; now rewrite IH.
Qed.

(** A valid line of the input is among its valid records. *)
Lemma valid_records_In (ls : list string) (line : string) (r : record) :
  In line ls -> valid_record line = Some r -> In r (valid_records ls).
Proof.
  induction ls as [|l ls IH]; simpl; [contradiction|].
  intros [->|Hin] Hv.
  - rewrite Hv. now left.
  - destruct (valid_record l); [right|]; auto.
Qed.

End ReadLoop.

(** ** The printing loop *)

Section PrintLoop.
Import StationsFacts.

Lemma minmax_element_nonempty (temps : list double) :
  temps <> [] -> exists mn mx, minmax_element temps = Some (mn, mx).
Proof.
  destruct temps as [|x [|y rest]]; simpl; intros H.
  - contradiction.
  - eauto.
  - destruct (Double.ltb y x);
      [destruct (minmax_pairs rest y x) | destruct (minmax_pairs rest x y)];
      eauto.
Qed.

Lemma print_entry_summarize (k : string) (temps : list double) :
  print_entry k temps = option_map format_entry (summarize k temps).
Proof.
  unfold print_entry, summarize.
  now destruct (minmax_element temps) as [[mn mx]|].
Qed.

Lemma summarize_station (k : string) (temps : list double) (e : entry) :
  summarize k temps = Some e ->
  station e = k /\ count e = List.length temps.
Proof.
  unfold summarize. destruct (minmax_element temps) as [[mn mx]|];
    [|discriminate].
  now intros [= <-].
Qed.

(** On a table without empty vectors the loop prints every entry and
    [main] returns 0. *)
Lemma print_loop_populated (m : Stations.t) :
  populated m ->
  print_loop m
  = (fold_right (fun e text => format_entry e ++ text) "" (entries m),
     Exited 0)
  /\ map station (entries m) = Stations.keys m.
Proof.
  induction 1 as [|[k temps] m Hk _ [IH1 IH2]]; simpl; [auto|].
  destruct (minmax_element_nonempty temps Hk) as (mn & mx & E).
  rewrite print_entry_summarize. unfold summarize. rewrite E. simpl.
  rewrite IH1, IH2. auto.
Qed.

Lemma decimal_no_newline (n : Z) :
  Str.find newline (Fixed.decimal n) = None.
Proof.
  unfold Fixed.decimal, NilZero.string_of_uint.
  assert (H : forall d, Str.find newline (NilEmpty.string_of_uint d) = None).
  { induction d; simpl; try reflexivity; now rewrite IHd. }
  destruct (N.to_uint (Z.to_N n)); try apply H. reflexivity.
Qed.

Lemma print_no_newline (x : double) :
  Str.find newline (Fixed.print x) = None.
Proof.
  destruct x as [s|s| |s m e]; simpl.
  - now destruct s.
  - now destruct s.
  - reflexivity.
  - cbv zeta. repeat (apply find_append_none; split);
      try apply decimal_no_newline; try reflexivity.
    + now destruct s.
    + simpl. now rewrite decimal_no_newline.
Qed.

Lemma format_entry_line (e : entry) (text : string) :
  format_entry e ++ text
  = (station e ++ "=" ++ numbers e) ++ String newline text.
Proof.
  unfold format_entry, numbers, endl.
  rewrite !append_assoc. simpl. rewrite ?append_assoc. reflexivity.
Qed.

Lemma numbers_no_newline (e : entry) : Str.find newline (numbers e) = None.
Proof.
  unfold numbers.
  repeat (apply find_append_none; split);
    try apply print_no_newline; reflexivity.
Qed.

(** The keys read back from the printed text are the stations of the
    entries, in order. *)
Lemma output_keys_entries (es : list entry) :
  Forall (fun e => Str.find "=" (station e) = None
                   /\ Str.find newline (station e) = None) es ->
  output_keys (fold_right (fun e text => format_entry e ++ text) "" es)
  = map station es.
Proof.
  unfold output_keys.
  induction 1 as [|e es [He Hn] _ IH]; cbn [fold_right map];
    [reflexivity|].
  rewrite format_entry_line, lines_cons.
  - cbn [map]. now rewrite key_of_line, IH.
  - apply find_append_none. split; [exact Hn|].
    change ("=" ++ numbers e) with (String "=" (numbers e)).
    simpl. now rewrite numbers_no_newline.
Qed.

End PrintLoop.

(** ** [main] as a whole *)

Section Main.
Import StationsFacts.

Lemma aggregate_shape (fs : filesystem) (m : Stations.t) :
  aggregate fs = Some m ->
  exists content,
    open_first fs input_files = Some content
    /\ read_loop (lines content) [] = Returned m
    /\ m = pushed (valid_records (lines content)) []
    /\ ordered m /\ populated m.
Proof.
  unfold aggregate.
  destruct (open_first fs input_files) as [content|]; [|discriminate].
  destruct (read_loop (lines content) []) as [m'|] eqn:E; [|discriminate].
  intros [= ->]. exists content.
  pose proof (read_loop_pushed _ _ _ E) as ->.
  repeat split; auto.
  - apply pushed_ordered, ordered_nil.
  - apply pushed_populated, populated_nil.
Qed.

(** A run that gets to print: the report is written and 0 returned. *)
Lemma main_report (fs : filesystem) (m : Stations.t) :
  aggregate fs = Some m ->
  main fs
  = {| cout := fold_right (fun e text => format_entry e ++ text) ""
                          (report fs);
       cerr := ""; exit := Exited 0 |}.
Proof.
  intros H. unfold report. rewrite H.
  destruct (aggregate_shape _ _ H) as (content & Ho & Hr & _ & _ & Hp).
  unfold main. rewrite Ho, Hr.
  destruct (print_loop_populated _ Hp) as [-> _]. reflexivity.
Qed.

(** [main] returns 0 exactly when a file opened and no line threw. *)
Lemma main_exit_0 (fs : filesystem) :
  exit (main fs) = Exited 0 <-> exists m, aggregate fs = Some m.
Proof.
  split.
  - unfold main, aggregate.
    destruct (open_first fs input_files) as [content|]; [|discriminate].
    destruct (read_loop (lines content) []); [eauto|discriminate].
  - intros [m H]. now rewrite (main_report _ _ H).
Qed.

(** The keys of the printed lines are the keys of the table. *)
Lemma main_output_keys (fs : filesystem) (m : Stations.t) :
  aggregate fs = Some m ->
  output_keys (cout (main fs)) = Stations.keys m.
Proof.
  intros H. rewrite (main_report _ _ H). simpl.
  unfold report. rewrite H.
  destruct (aggregate_shape _ _ H) as (content & _ & _ & Hm & _ & Hp).
  destruct (print_loop_populated _ Hp) as [_ Hk].
  rewrite output_keys_entries; [exact Hk|].
  apply Forall_forall. intros e He.
  apply (in_map station) in He. rewrite Hk in He.
  rewrite Hm in He. apply pushed_keys in He. simpl in He.
  destruct He as [He|[]].
  exact (valid_records_keys _ _ (lines_no_newline content) He).
Qed.

(** The keys read back from the output of a run that returned 0 are
    the keys of the table built from the valid records. *)
Lemma output_keys_pushed (fs : filesystem) (content : string) :
  open_first fs input_files = Some content ->
  exit (main fs) = Exited 0 ->
  output_keys (cout (main fs))
  = Stations.keys (pushed (valid_records (lines content)) []).
Proof.
  intros Ho H0. apply main_exit_0 in H0. destruct H0 as [m H].
  rewrite (main_output_keys _ _ H).
  destruct (aggregate_shape _ _ H) as (c & Ho' & _ & Hm & _).
  rewrite Ho in Ho'. injection Ho' as <-. now rewrite Hm.
Qed.

End Main.

(** ** The transition system: one run, which [main] computes *)

Module MachineFacts.
Import Machine.

Lemma step_deterministic (fs : filesystem) (s s1 s2 : state) :
  step fs s s1 -> step fs s s2 -> s1 = s2.
Proof.
  intros H1 H2.
  inversion H1; subst; inversion H2; subst; try congruence.
Qed.

Lemma halted_stuck (fs : filesystem) (s s' : state) (x : status) :
  pc s = Halted x -> ~ step fs s s'.
Proof. intros H Hs. inversion Hs; subst; discriminate. Qed.

Lemma steps_trans (fs : filesystem) (s1 s2 s3 : state) :
  steps fs s1 s2 -> steps fs s2 s3 -> steps fs s1 s3.
Proof.
  induction 1 as [|? ? ? Hs _ IH]; intros H; [exact H|].
  eapply steps_cons; eauto.
Qed.

(** Two runs from the same state halt in the same state. *)
Lemma steps_deterministic (fs : filesystem) (s s1 s2 : state)
      (x1 x2 : status) :
  steps fs s s1 -> pc s1 = Halted x1 ->
  steps fs s s2 -> pc s2 = Halted x2 ->
  s1 = s2.
Proof.
  intros H1. revert s2 x2.
  induction H1 as [s|s a s1 Ha H1 IH]; intros s2 x2 Hh1 H2 Hh2.
  - destruct H2 as [|? b ? Hb _]; [reflexivity|].
    now destruct (halted_stuck _ _ _ _ Hh1 Hb).
  - destruct H2 as [s|s b s2 Hb H2].
    + now destruct (halted_stuck _ _ _ _ Hh2 Ha).
    + rewrite (step_deterministic _ _ _ _ Hb Ha) in H2. eauto.
Qed.

Lemma opening_steps (fs : filesystem) (names : list string)
      (m : Stations.t) (o e : string) :
  steps fs {| pc := Opening names; table := m; out := o; err := e |}
    match open_first fs names with
    | Some content =>
        {| pc := Reading content; table := m; out := o; err := e |}
    | None =>
        {| pc := Halted (Exited 1); table := m; out := o;
           err := e ++ "Error: Could not open file" ++ endl |}
    end.
Proof.
  induction names as [|f names IH]; simpl.
  - eapply steps_cons; [apply step_no_file | apply steps_refl].
  - destruct (fs f) as [content|] eqn:E.
    + eapply steps_cons; [apply step_open; exact E | apply steps_refl].
    + eapply steps_cons; [apply step_next_file; exact E | exact IH].
Qed.

Lemma reading_steps (fs : filesystem) (o e : string) (ls : list string) :
  forall (stream : string) (m : Stations.t),
    lines stream = ls ->
    exists m',
      steps fs {| pc := Reading stream; table := m; out := o; err := e |}
        match read_loop ls m with
        | Returned stations =>
            {| pc := Printing stations; table := stations;
               out := o; err := e |}
        | Threw x =>
            {| pc := Halted (Terminated x); table := m';
               out := o; err := e |}
        end.
Proof.
  induction ls as [|line ls IH]; intros stream m Hl;
    pose proof (lines_getline stream) as Hg; rewrite Hl in Hg.
  - destruct (getline stream) as [[l r]|] eqn:E; [discriminate|].
    exists m. simpl.
    eapply steps_cons; [apply step_eof; exact E | apply steps_refl].
  - destruct (getline stream) as [[l r]|] eqn:E; [|discriminate].
    injection Hg as -> Hr. simpl.
    destruct (process_line l m) as [m1|x] eqn:Ep.
    + destruct (IH r m1 (eq_sym Hr)) as [m' H]. exists m'.
      eapply steps_cons; [eapply step_line; eauto | exact H].
    + exists m.
      eapply steps_cons; [eapply step_throw; eauto | apply steps_refl].
Qed.

Lemma printing_steps (fs : filesystem) (m : Stations.t) (e : string)
      (todo : Stations.t) :
  forall o : string,
    steps fs {| pc := Printing todo; table := m; out := o; err := e |}
      {| pc := Halted (snd (print_loop todo)); table := m;
         out := o ++ fst (print_loop todo); err := e |}.
Proof.
  induction todo as [|[k temps] todo IH]; intros o; simpl.
  - rewrite append_nil_r.
    eapply steps_cons; [apply step_return | apply steps_refl].
  - destruct (print_entry k temps) as [l|] eqn:E.
    + specialize (IH (o ++ l)).
      destruct (print_loop todo) as [text s]. simpl in *.
      rewrite append_assoc in IH.
      eapply steps_cons; [apply step_print; exact E | exact IH].
    + simpl. rewrite append_nil_r.
      eapply steps_cons; [apply step_undefined; exact E | apply steps_refl].
Qed.

(** [main] describes a run of the transition system. *)
Lemma main_runs (fs : filesystem) : runs fs (main fs).
Proof.
  unfold runs, main, initial.
  pose proof (opening_steps fs input_files [] "" "") as Ho.
  destruct (open_first fs input_files) as [content|].
  - destruct (reading_steps fs "" "" (lines content) content [] eq_refl)
      as [m' Hr].
    destruct (read_loop (lines content) []) as [stations|x].
    + pose proof (printing_steps fs stations "" stations "") as Hp.
      destruct (print_loop stations) as [text s]. simpl in *.
      exists stations. eapply steps_trans; [exact Ho|].
      eapply steps_trans; [exact Hr | exact Hp].
    + exists m'. simpl. eapply steps_trans; [exact Ho | exact Hr].
  - exists []. exact Ho.
Qed.

(** There is no other run. *)
Lemma runs_unique (fs : filesystem) (o1 o2 : outcome) :
  runs fs o1 -> runs fs o2 -> o1 = o2.
Proof.
  intros [m1 H1] [m2 H2].
  pose proof (steps_deterministic _ _ _ _ _ _ H1 eq_refl H2 eq_refl) as E.
  destruct o1, o2. simpl in E. now injection E as -> _ -> ->.
Qed.

End MachineFacts.

(** ** The order of doubles *)

Module DoubleOrder.

Lemma compare_rank (x y : double) :
  Double.is_nan x = false -> Double.is_nan y = false ->
  SFcompare x y = Some (lex_compare (rank x) (rank y)).
Proof.
  destruct x as [sx|sx| |sx mx ex], y as [sy|sy| |sy my ey];
    simpl; try discriminate; intros _ _;
    try (destruct sx); try (destruct sy); try reflexivity.
  cbn [lex_compare]. rewrite Z.compare_opp, (Z.compare_antisym ex ey).
  destruct (ex ?= ey); reflexivity.
Qed.

Lemma lex_compare_le (a b : Z * Z * Z) :
  lex_compare a b <> Gt <-> lex_le a b.
Proof.
  destruct a as [[a1 a2] a3], b as [[b1 b2] b3]. simpl.
  destruct (Z.compare_spec a1 b1); [|split; [lia | discriminate]|
                                    split; [congruence | lia]].
  destruct (Z.compare_spec a2 b2); [|split; [lia | discriminate]|
                                    split; [congruence | lia]].
  destruct (Z.compare_spec a3 b3); split; try lia; try discriminate;
    congruence.
Qed.

Lemma lex_le_trans (a b c : Z * Z * Z) : lex_le a b -> lex_le b c -> lex_le a c.
Proof.
  destruct a as [[a1 a2] a3], b as [[b1 b2] b3], c as [[c1 c2] c3].
  simpl. lia.
Qed.

Lemma lex_le_refl (a : Z * Z * Z) : lex_le a a.
Proof. destruct a as [[a1 a2] a3]. simpl. lia. Qed.

(** [x <= y] on doubles: both are numbers and ordered. *)
Lemma leb_rank (x y : double) :
  Double.leb x y = true
  <-> Double.is_nan x = false /\ Double.is_nan y = false
      /\ lex_le (rank x) (rank y).
Proof.
  unfold Double.leb, SFleb. split.
  - intros H.
    assert (Hx : Double.is_nan x = false)
      by (destruct x; try reflexivity; discriminate).
    assert (Hy : Double.is_nan y = false)
      by (destruct x, y; try reflexivity; discriminate).
    rewrite (compare_rank x y Hx Hy) in H.
    repeat split; auto. apply lex_compare_le.
    destruct (lex_compare (rank x) (rank y)); discriminate.
  - intros (Hx & Hy & H). rewrite (compare_rank x y Hx Hy).
    apply lex_compare_le in H.
    now destruct (lex_compare (rank x) (rank y)).
Qed.

Lemma leb_refl (x : double) : Double.is_nan x = false -> Double.leb x x = true.
Proof. intros H. apply leb_rank. auto using lex_le_refl. Qed.

Lemma leb_trans (x y z : double) :
  Double.leb x y = true -> Double.leb y z = true -> Double.leb x z = true.
Proof.
  rewrite !leb_rank. intros (Hx & _ & H1) (_ & Hz & H2).
  eauto using lex_le_trans.
Qed.

Lemma lex_compare_antisym (a b : Z * Z * Z) :
  lex_compare b a = CompOpp (lex_compare a b).
Proof.
  destruct a as [[a1 a2] a3], b as [[b1 b2] b3]. simpl.
  rewrite (Z.compare_antisym a1 b1), (Z.compare_antisym a2 b2),
    (Z.compare_antisym a3 b3).
  destruct (a1 ?= b1); simpl; try reflexivity.
  destruct (a2 ?= b2); simpl; reflexivity.
Qed.

(** [operator<] on numbers: [x < y] is [not (y <= x)]. *)
Lemma ltb_leb (x y : double) :
  Double.is_nan x = false -> Double.is_nan y = false ->
  Double.ltb x y = negb (Double.leb y x).
Proof.
  intros Hx Hy. unfold Double.ltb, Double.leb, SFltb, SFleb.
  rewrite (compare_rank x y Hx Hy), (compare_rank y x Hy Hx).
  rewrite (lex_compare_antisym (rank x) (rank y)).
  now destruct (lex_compare (rank x) (rank y)).
Qed.

Lemma ltb_true_leb (x y : double) :
  Double.ltb x y = true -> Double.leb x y = true.
Proof.
  unfold Double.ltb, Double.leb, SFltb, SFleb.
  now destruct (SFcompare x y) as [[| |]|].
Qed.

Lemma ltb_false_leb (x y : double) :
  Double.is_nan x = false -> Double.is_nan y = false ->
  Double.ltb x y = false -> Double.leb y x = true.
Proof.
  intros Hx Hy H. rewrite (ltb_leb x y Hx Hy) in H.
  now destruct (Double.leb y x).
Qed.

End DoubleOrder.

(** ** [std::minmax_element] on doubles *)

Section MinMax.
Import DoubleOrder.

(** Induction over a list two elements at a time, as [minmax_pairs]
    walks it. *)
Lemma list_pair_ind (A : Type) (P : list A -> Prop) :
  P [] -> (forall x, P [x]) -> (forall x y l, P l -> P (x :: y :: l)) ->
  forall l, P l.
Proof.
  intros H0 H1 H2 l.
  assert (H : P l /\ forall x, P (x :: l)).
  { induction l as [|a l [IHa IHb]]; [auto|]. split; auto. }
  exact (proj1 H).
Qed.

(** Both results are elements of the range. *)
Lemma minmax_pairs_member (rest : list double) :
  forall mn mx,
    In (fst (minmax_pairs rest mn mx)) (mn :: rest)
    /\ In (snd (minmax_pairs rest mn mx)) (mx :: rest).
Proof.
  induction rest as [|i|i j rest IH] using list_pair_ind; intros mn mx.
  - simpl. auto.
  - simpl. destruct (Double.ltb i mn); simpl; [auto|].
    destruct (Double.ltb i mx); simpl; auto.
  - cbn [minmax_pairs].
    destruct (Double.ltb j i).
    + destruct (IH (if Double.ltb j mn then j else mn)
                   (if negb (Double.ltb i mx) then i else mx)) as [Ha Hb].
      split.
      * destruct Ha as [Ha|Ha]; [|simpl; auto].
        rewrite <- Ha. destruct (Double.ltb j mn); simpl; auto.
      * destruct Hb as [Hb|Hb]; [|simpl; auto].
        rewrite <- Hb. destruct (Double.ltb i mx); simpl; auto.
    + destruct (IH (if Double.ltb i mn then i else mn)
                   (if negb (Double.ltb j mx) then j else mx)) as [Ha Hb].
      split.
      * destruct Ha as [Ha|Ha]; [|simpl; auto].
        rewrite <- Ha. destruct (Double.ltb i mn); simpl; auto.
      * destruct Hb as [Hb|Hb]; [|simpl; auto].
        rewrite <- Hb. destruct (Double.ltb j mx); simpl; auto.
Qed.

Create HintDb dorder.

Local Hint Resolve leb_refl ltb_true_leb ltb_false_leb : dorder.

Ltac chain := eauto 6 using leb_trans with dorder.

(** On numbers, the results bracket the running minimum and maximum and
    every element walked. *)
Lemma minmax_pairs_bounds (rest : list double) :
  forall mn mx,
    number mn -> number mx -> Forall number rest ->
    Double.leb mn mx = true ->
    Double.leb (fst (minmax_pairs rest mn mx)) mn = true
    /\ Double.leb mx (snd (minmax_pairs rest mn mx)) = true
    /\ Forall (fun v => Double.leb (fst (minmax_pairs rest mn mx)) v = true
                        /\ Double.leb v (snd (minmax_pairs rest mn mx)) = true)
              rest.
Proof.
  unfold number.
  induction rest as [|i|i j rest IH] using list_pair_ind;
    intros mn mx Hmn Hmx Hrest Hle.
  - simpl. repeat split; chain.
  - inversion Hrest as [|? ? Hi _]; subst. simpl.
    destruct (Double.ltb i mn) eqn:E1; simpl.
    + repeat split; [chain | chain |]. repeat constructor; chain.
    + destruct (Double.ltb i mx) eqn:E2; simpl.
      * repeat split; [chain | chain |]. repeat constructor; chain.
      * repeat split; [chain | chain |]. repeat constructor; chain.
  - inversion Hrest as [|? ? Hi Hrest']; subst.
    inversion Hrest' as [|? ? Hj Hrest'']; subst.
    cbn [minmax_pairs].
    destruct (Double.ltb j i) eqn:Eji.
    + set (mn' := if Double.ltb j mn then j else mn).
      set (mx' := if negb (Double.ltb i mx) then i else mx).
      assert (Hn1 : Double.is_nan mn' = false)
        by (unfold mn'; now destruct (Double.ltb j mn)).
      assert (Hn2 : Double.is_nan mx' = false)
        by (unfold mx'; now destruct (Double.ltb i mx)).
      assert (H1 : Double.leb mn' mn = true)
        by (unfold mn'; destruct (Double.ltb j mn) eqn:E; chain).
      assert (H2 : Double.leb mn' j = true)
        by (unfold mn'; destruct (Double.ltb j mn) eqn:E; chain).
      assert (H3 : Double.leb i mx' = true)
        by (unfold mx'; destruct (Double.ltb i mx) eqn:E; simpl; chain).
      assert (H4 : Double.leb mx mx' = true)
        by (unfold mx'; destruct (Double.ltb i mx) eqn:E; simpl; chain).
      assert (H5 : Double.leb j i = true) by chain.
      assert (H6 : Double.leb mn' mx' = true) by chain.
      destruct (IH mn' mx' Hn1 Hn2 Hrest'' H6) as (Ha & Hb & Hall).
      repeat split; [chain | chain |].
      constructor; [split; chain|]. constructor; [split; chain|]. exact Hall.
    + set (mn' := if Double.ltb i mn then i else mn).
      set (mx' := if negb (Double.ltb j mx) then j else mx).
      assert (Hn1 : Double.is_nan mn' = false)
        by (unfold mn'; now destruct (Double.ltb i mn)).
      assert (Hn2 : Double.is_nan mx' = false)
        by (unfold mx'; now destruct (Double.ltb j mx)).
      assert (H1 : Double.leb mn' mn = true)
        by (unfold mn'; destruct (Double.ltb i mn) eqn:E; chain).
      assert (H2 : Double.leb mn' i = true)
        by (unfold mn'; destruct (Double.ltb i mn) eqn:E; chain).
      assert (H3 : Double.leb j mx' = true)
        by (unfold mx'; destruct (Double.ltb j mx) eqn:E; simpl; chain).
      assert (H4 : Double.leb mx mx' = true)
        by (unfold mx'; destruct (Double.ltb j mx) eqn:E; simpl; chain).
      assert (H5 : Double.leb i j = true) by chain.
      assert (H6 : Double.leb mn' mx' = true) by chain.
      destruct (IH mn' mx' Hn1 Hn2 Hrest'' H6) as (Ha & Hb & Hall).
      repeat split; [chain | chain |].
      constructor; [split; chain|]. constructor; [split; chain|]. exact Hall.
Qed.

(** What [std::minmax_element] returns on a vector of doubles: two of
    its elements, which bracket all of them when none is a NaN. *)
Lemma minmax_element_bounds (temps : list double) (mn mx : double) :
  minmax_element temps = Some (mn, mx) ->
  In mn temps /\ In mx temps
  /\ (Forall number temps ->
      Forall (fun v => Double.leb mn v = true /\ Double.leb v mx = true)
             temps).
Proof.
  destruct temps as [|x [|y rest]]; simpl.
  - discriminate.
  - intros [= <- <-]. repeat split; auto.
    intros H. inversion H; subst. repeat constructor; now apply leb_refl.
  - intros H.
    assert (E : exists a b,
               (a = x /\ b = y \/ a = y /\ b = x)
               /\ (Double.ltb y x = false -> a = x /\ b = y)
               /\ (Double.ltb y x = true -> a = y /\ b = x)
               /\ minmax_pairs rest a b = (mn, mx)).
    { destruct (Double.ltb y x); injection H as H;
        [exists y, x | exists x, y]; repeat split; auto; discriminate. }
    destruct E as (a & b & Hab & Hf & Ht & E).
    pose proof (minmax_pairs_member rest a b) as [Ha Hb].
    rewrite E in Ha, Hb. simpl fst in Ha. simpl snd in Hb.
    split; [|split].
    + destruct Ha as [<-|Ha]; [|auto]. destruct Hab as [[-> _]|[-> _]]; auto.
    + destruct Hb as [<-|Hb]; [|auto]. destruct Hab as [[_ ->]|[_ ->]]; auto.
    + intros Hall. inversion Hall as [|? ? Hx Hall']; subst.
      inversion Hall' as [|? ? Hy Hrest]; subst. unfold number in *.
      assert (Hle : Double.leb a b = true /\ number a /\ number b).
      { unfold number. destruct (Double.ltb y x) eqn:Eyx.
        - destruct (Ht eq_refl) as [-> ->]. repeat split; chain.
        - destruct (Hf eq_refl) as [-> ->]. repeat split; chain. }
      destruct Hle as (Hle & Hna & Hnb).
      pose proof (minmax_pairs_bounds rest a b Hna Hnb Hrest Hle)
        as (H1 & H2 & H3).
      rewrite E in H1, H2, H3. simpl fst in *. simpl snd in *.
      assert (Hxb : Double.leb mn a = true /\ Double.leb a b = true
                    /\ Double.leb b mx = true) by auto.
      destruct Hxb as (Q1 & Q2 & Q3).
      constructor; [|constructor; [|exact H3]].
      * destruct Hab as [[<- <-]|[<- <-]]; split; chain.
      * destruct Hab as [[<- <-]|[<- <-]]; split; chain.
Qed.

End MinMax.

(** ** The entries of the report *)

Section Entries.
Import StationsFacts DoubleOrder.

Lemma entries_In (m : Stations.t) (e : entry) :
  In e (entries m) ->
  exists temps, In (station e, temps) m /\ summarize (station e) temps = Some e.
Proof.
  induction m as [|[k temps] m IH]; simpl; [contradiction|].
  destruct (summarize k temps) as [e'|] eqn:E.
  - intros [->|Hin].
    + destruct (summarize_station _ _ _ E) as [<- _]. eauto.
    + destruct (IH Hin) as (t & H1 & H2). eauto.
  - intros Hin. destruct (IH Hin) as (t & H1 & H2). eauto.
Qed.

(** An entry of the report is computed from the values recorded for its
    station, in input order. *)
Lemma report_entry (fs : filesystem) (e : entry) :
  In e (report fs) ->
  exists content,
    open_first fs input_files = Some content
    /\ let temps := values_of (station e) (valid_records (lines content)) in
       temps <> []
       /\ summarize (station e) temps = Some e.
Proof.
  unfold report. destruct (aggregate fs) as [m|] eqn:H; [|contradiction].
  intros Hin.
  destruct (aggregate_shape _ _ H) as (content & Ho & _ & Hm & Hord & Hpop).
  exists content. split; [exact Ho|].
  destruct (entries_In _ _ Hin) as (temps & H1 & H2).
  assert (Ht : temps = values_of (station e) (valid_records (lines content))).
  { rewrite <- (lookup_In _ _ _ Hord H1), Hm.
    now rewrite pushed_lookup by apply ordered_nil. }
  rewrite <- Ht. split; [|exact H2].
  unfold populated in Hpop. rewrite Forall_forall in Hpop.
  exact (Hpop _ H1).
Qed.

End Entries.

(** ** Rounding: the error of a sum and of a quotient of doubles *)

Module Rounding.

(** *** Shifts and digits *)
Lemma iter_pos_nat (A : Type) (f : A -> A) (p : positive) (x : A) :
  SpecFloat.iter_pos f p x = Nat.iter (Pos.to_nat p) f x.
Proof.
  revert x. induction p as [p IH|p IH|]; intros x.
  - rewrite Pos2Nat.inj_xI. cbn [SpecFloat.iter_pos]. rewrite !IH.
    rewrite <- Nat.iter_succ_r, <- Nat.iter_add. f_equal. lia.
  - rewrite Pos2Nat.inj_xO. cbn [SpecFloat.iter_pos]. rewrite !IH, <- Nat.iter_add.
    f_equal. lia.
  - reflexivity.
Qed.

Lemma digits2_pos_bounds (m : positive) :
  2 ^ (Zpos (digits2_pos m) - 1) <= Zpos m < 2 ^ Zpos (digits2_pos m).
Proof.
  induction m as [m IH|m IH|]; simpl digits2_pos.
  - rewrite Pos2Z.inj_succ.
    replace (Z.succ (Zpos (digits2_pos m)) - 1) with (Z.succ (Zpos (digits2_pos m) - 1)) by lia.
    rewrite !Z.pow_succ_r by lia. lia.
  - rewrite Pos2Z.inj_succ.
    replace (Z.succ (Zpos (digits2_pos m)) - 1) with (Z.succ (Zpos (digits2_pos m) - 1)) by lia.
    rewrite !Z.pow_succ_r by lia. lia.
  - simpl. lia.
Qed.

Lemma shr_1_located (N D : Z) (mrs : shr_record) :
  located N D mrs -> located N (2 * D) (shr_1 mrs).
Proof.
  unfold located. destruct mrs as [m r s]. cbn [shr_m shr_r shr_s].
  intros (Hm & HR & Hl).
  destruct m as [|[p|p|]|p]; try lia; destruct r, s;
    cbn [shr_1 shr_m shr_r shr_s orb];
    rewrite ?(Pos2Z.inj_xI p), ?(Pos2Z.inj_xO p) in *; lia.
Qed.

Lemma shr_1_m (mrs : shr_record) :
  0 <= shr_m mrs -> shr_m (shr_1 mrs) = shr_m mrs / 2.
Proof.
  destruct mrs as [m r s]. cbn [shr_m]. intros Hm.
  destruct m as [|[p|p|]|p]; try lia; cbn [shr_1 shr_m].
  - reflexivity.
  - rewrite Pos2Z.inj_xI. apply Z.div_unique with 1; lia.
  - rewrite Pos2Z.inj_xO. apply Z.div_unique with 0; lia.
  - reflexivity.
Qed.

Lemma iter_located (N D : Z) (k : nat) (mrs : shr_record) :
  located N D mrs ->
  located N (D * 2 ^ Z.of_nat k) (Nat.iter k shr_1 mrs)
  /\ shr_m (Nat.iter k shr_1 mrs) = shr_m mrs / 2 ^ Z.of_nat k.
Proof.
  intros H. induction k as [|k [IH1 IH2]].
  - simpl. rewrite Z.mul_1_r, Z.div_1_r. auto.
  - rewrite Nat2Z.inj_succ, Z.pow_succ_r by lia. simpl Nat.iter. split.
    + replace (D * (2 * 2 ^ Z.of_nat k)) with (2 * (D * 2 ^ Z.of_nat k)) by ring.
      now apply shr_1_located.
    + rewrite shr_1_m by apply IH1. rewrite IH2.
      rewrite Z.div_div by lia. f_equal. ring.
Qed.

Lemma shr_located (N D : Z) (mrs : shr_record) (e n : Z) :
  located N D mrs -> 0 <= n ->
  snd (shr mrs e n) = e + n
  /\ located N (D * 2 ^ n) (fst (shr mrs e n))
  /\ shr_m (fst (shr mrs e n)) = shr_m mrs / 2 ^ n.
Proof.
  intros H Hn. destruct n as [|p|p]; [| |lia]; cbn [shr fst snd].
  - rewrite Z.add_0_r, Z.pow_0_r, Z.mul_1_r, Z.div_1_r. auto.
  - rewrite iter_pos_nat.
    destruct (iter_located N D (Pos.to_nat p) mrs H) as [H1 H2].
    rewrite positive_nat_Z in H1, H2. auto.
Qed.

Lemma loc_of_shr_record_of_loc (m : Z) (l : location) :
  loc_of_shr_record (shr_record_of_loc m l) = l.
Proof. now destruct l as [|[| |]]. Qed.

Lemma shr_m_of_loc (m : Z) (l : location) : shr_m (shr_record_of_loc m l) = m.
Proof. now destruct l as [|[| |]]. Qed.

Lemma round_nearest_even_located (N D : Z) (mrs : shr_record) :
  0 < D -> located N D mrs ->
  let m1 := round_nearest_even (shr_m mrs) (loc_of_shr_record mrs) in
  (m1 = shr_m mrs \/ m1 = shr_m mrs + 1)
  /\ 2 * Z.abs (m1 * D - N) <= D.
Proof.
  unfold located. destruct mrs as [m r s]. cbn [shr_m shr_r shr_s].
  intros HD (Hm & HR & Hl).
  destruct r, s; cbn [loc_of_shr_record round_nearest_even].
  - split; [right; reflexivity | lia].
  - destruct (Z.even m); split; auto; lia.
  - split; [left; reflexivity | lia].
  - split; [left; reflexivity | lia].
Qed.

Lemma digits2_pos_unique (p : positive) (k : Z) :
  2 ^ (k - 1) <= Zpos p < 2 ^ k -> Zpos (digits2_pos p) = k.
Proof.
  intros [H1 H2]. pose proof (digits2_pos_bounds p) as [B1 B2].
  assert (Hk : 0 < k).
  { destruct (Z.ltb_spec 0 k) as [|Hk]; [assumption|].
    destruct (Z.eq_dec k 0) as [->|Hne]; [simpl in H2; lia|].
    rewrite Z.pow_neg_r in H2 by lia. lia. }
  destruct (Z.lt_trichotomy (Zpos (digits2_pos p)) k) as [Hlt|[Heq|Hgt]];
    [|exact Heq|].
  - assert (2 ^ Zpos (digits2_pos p) <= 2 ^ (k - 1))
      by (apply Z.pow_le_mono_r; lia). lia.
  - assert (2 ^ k <= 2 ^ (Zpos (digits2_pos p) - 1))
      by (apply Z.pow_le_mono_r; lia). lia.
Qed.

Lemma fexp64_eq (e : Z) : fexp64 e = Z.max (e - 53) (-1074).
Proof. reflexivity. Qed.

Lemma shr_nonpos (mrs : shr_record) (e n : Z) : n <= 0 -> shr mrs e n = (mrs, e).
Proof. destruct n; [reflexivity | lia | reflexivity]. Qed.

Lemma located_floor (N D : Z) (mrs : shr_record) :
  0 < D -> located N D mrs -> shr_m mrs = N / D.
Proof.
  intros HD (Hm & HR & _).
  apply Z.div_unique with (N - shr_m mrs * D); lia.
Qed.

Lemma binary_round_aux_spec (s : bool) (m e : Z) (l : location) (N D : Z) :
  0 < D -> located N D (shr_record_of_loc m l) ->
  e <= fexp64 (Zdigits2 m + e) ->
  let e1 := fexp64 (Zdigits2 m + e) in
  let K := D * 2 ^ (e1 - e) in
  exists m1,
    (m1 = N / K \/ m1 = N / K + 1)
    /\ 2 * Z.abs (m1 * K - N) <= K
    /\ 0 <= N / K < 2 ^ 53
    /\ (e1 = -1074 \/ 2 ^ 52 <= N / K)
    /\ binary_round_aux 53 1024 s m e l = pack s m1 e1.
Proof.
  intros HD Hloc He e1 K.
  assert (Hm : 0 <= m).
  { destruct Hloc as (Hm & _). now rewrite shr_m_of_loc in Hm. }
  assert (Hn : 0 <= e1 - e) by (unfold e1; lia).
  assert (H2n : 0 < 2 ^ (e1 - e)) by (apply Z.pow_pos_nonneg; lia).
  assert (HK : 0 < K) by (unfold K; lia).
  unfold binary_round_aux, shr_fexp.
  fold (fexp64 (Zdigits2 m + e)). fold e1.
  destruct (shr_located N D _ e (e1 - e) Hloc Hn) as (E1 & L1 & M1).
  fold K in L1. rewrite shr_m_of_loc in M1.
  destruct (shr (shr_record_of_loc m l) e (e1 - e)) as [mrs' e'].
  cbn [fst snd] in E1, L1, M1. replace e' with e1 by lia. clear e' E1.
  pose proof (located_floor N K mrs' HK L1) as F1.
  destruct (round_nearest_even_located N K mrs' HK L1) as [R1 R2].
  set (m1 := round_nearest_even (shr_m mrs') (loc_of_shr_record mrs')) in *.
  (* how large the shifted mantissa is *)
  assert (HB : 0 <= N / K < 2 ^ 53 /\ (e1 = -1074 \/ 2 ^ 52 <= N / K)).
  { rewrite <- F1, M1. destruct m as [|p|p]; [| |lia].
    - rewrite Z.div_0_l by lia. split; [lia|]. left.
      unfold e1 in *. rewrite fexp64_eq in *. simpl Zdigits2 in *. lia.
    - pose proof (digits2_pos_bounds p) as [B1 B2].
      unfold e1 in *. rewrite fexp64_eq in *. cbn [Zdigits2] in *.
      set (d := Zpos (digits2_pos p)) in *.
      assert (Hd : 0 < d) by (unfold d; lia).
      split; [split|].
      + apply Z.div_pos; lia.
      + apply Z.div_lt_upper_bound; [lia|].
        rewrite <- Z.pow_add_r by lia.
        apply Z.lt_le_trans with (2 ^ d); [lia|].
        apply Z.pow_le_mono_r; lia.
      + destruct (Z.eq_dec (Z.max (d + e - 53) (-1074)) (-1074)) as [E|E];
          [now left | right].
        apply Z.div_le_lower_bound; [lia|].
        rewrite <- Z.pow_add_r by lia.
        apply Z.le_trans with (2 ^ (d - 1)); [|lia].
        apply Z.pow_le_mono_r; lia. }
  exists m1. rewrite <- F1 at 1 2. split; [exact R1|]. split; [exact R2|].
  split; [tauto|]. split; [tauto|].
  (* the second normalisation *)
  assert (Hm1 : 0 <= m1 <= 2 ^ 53) by lia.
  assert (He1 : -1074 <= e1) by (unfold e1; rewrite fexp64_eq; lia).
  clearbody m1 e1. clear - Hm1 He1.
  destruct m1 as [|p|p]; [| |lia].
  - cbn [Zdigits2]. rewrite shr_nonpos.
    + reflexivity.
    + unfold fexp, emin. lia.
  - destruct (Z.ltb_spec (Zpos p) (2 ^ 53)) as [Hlt|Hge].
    + pose proof (digits2_pos_bounds p) as [B1 B2].
      assert (Hd : Zpos (digits2_pos p) <= 53).
      { destruct (Z.le_gt_cases (Zpos (digits2_pos p)) 53) as [|Hgt]; [assumption|].
        assert (2 ^ 53 <= 2 ^ (Zpos (digits2_pos p) - 1))
          by (apply Z.pow_le_mono_r; lia). lia. }
      cbn [Zdigits2]. rewrite shr_nonpos by (unfold fexp, emin; lia).
      cbn [shr_record_of_loc shr_m pack].
      destruct (Z.ltb_spec (Zpos p) (2 ^ 53)); [reflexivity | lia].
    + assert (Ep : Zpos p = 2 ^ 53) by lia.
      injection Ep as ->.
      replace (fexp 53 1024 (Zdigits2 9007199254740992 + e1) - e1) with 1.
      * reflexivity.
      * unfold fexp, emin. cbn [Zdigits2 digits2_pos]. simpl Pos.succ. lia.
Qed.

(** *** Real values *)

Lemma powerRZ_2_pos (e : Z) : (0 < powerRZ 2 e)%R.
Proof. apply powerRZ_lt. lra. Qed.

Lemma powerRZ_2_add (a b : Z) : (powerRZ 2 (a + b) = powerRZ 2 a * powerRZ 2 b)%R.
Proof. apply powerRZ_add. lra. Qed.

Lemma powerRZ_2_nonneg (n : Z) : 0 <= n -> powerRZ 2 n = IZR (2 ^ n).
Proof.
  intros Hn. rewrite <- (Z2Nat.id n Hn) at 1 2.
  rewrite <- pow_powerRZ, pow_IZR. reflexivity.
Qed.

Lemma powerRZ_2_succ (e : Z) : (powerRZ 2 (e + 1) = 2 * powerRZ 2 e)%R.
Proof. rewrite powerRZ_2_add. simpl. lra. Qed.

Lemma powerRZ_2_pred (e : Z) : (powerRZ 2 (e - 1) = powerRZ 2 e / 2)%R.
Proof.
  replace e with ((e - 1) + 1) at 2 by lia. rewrite powerRZ_2_succ. lra.
Qed.

Lemma B2R_pack (s : bool) (m1 e1 : Z) :
  0 <= m1 <= 2 ^ 53 ->
  pack s m1 e1 = S754_infinity s
  \/ (Double.is_finite (pack s m1 e1) = true
      /\ B2R (pack s m1 e1) = (IZR (cond_Zopp s m1) * powerRZ 2 e1)%R).
Proof.
  intros Hm. unfold pack. destruct m1 as [|p|p]; [| |lia].
  - right. split; [reflexivity|]. destruct s; simpl; lra.
  - destruct (Z.ltb_spec (Zpos p) (2 ^ 53)).
    + destruct (e1 <=? 971); [right | left]; auto.
    + destruct (e1 + 1 <=? 971); [right | left]; auto.
      split; [reflexivity|]. assert (Ep : Zpos p = 2 ^ 53) by lia.
      cbn [B2R]. rewrite powerRZ_2_succ.
      destruct s; cbn [cond_Zopp]; rewrite ?opp_IZR, Ep;
        change (2 ^ 53) with (2 * 2 ^ 52); rewrite mult_IZR;
        change (IZR (Zpos (2 ^ 52))) with (IZR (2 ^ 52)); lra.
Qed.

Lemma pack_valid (s : bool) (m1 e1 : Z) :
  0 <= m1 <= 2 ^ 53 -> -1074 <= e1 -> (e1 = -1074 \/ 2 ^ 52 <= m1) ->
  valid64 (pack s m1 e1).
Proof.
  intros Hm He Hn. unfold valid64, pack. destruct m1 as [|p|p]; [| |lia].
  - reflexivity.
  - destruct (Z.ltb_spec (Zpos p) (2 ^ 53)).
    + destruct (Z.leb_spec e1 971); [|reflexivity].
      cbn [valid_binary]. unfold bounded, canonical_mantissa.
      apply andb_true_intro. split; [|apply Z.leb_le; simpl; lia].
      apply Z.eqb_eq. unfold fexp, emin.
      pose proof (digits2_pos_bounds p) as [B1 B2].
      assert (Hd : Zpos (digits2_pos p) <= 53).
      { destruct (Z.le_gt_cases (Zpos (digits2_pos p)) 53) as [|Hgt]; [assumption|].
        assert (2 ^ 53 <= 2 ^ (Zpos (digits2_pos p) - 1))
          by (apply Z.pow_le_mono_r; lia). lia. }
      destruct Hn as [->|Hn]; [lia|].
      assert (Zpos (digits2_pos p) = 53) by (apply digits2_pos_unique; lia).
      lia.
    + destruct (Z.leb_spec (e1 + 1) 971); [|reflexivity].
      cbn [valid_binary]. unfold bounded, canonical_mantissa.
      apply andb_true_intro. split; [|apply Z.leb_le; simpl; lia].
      apply Z.eqb_eq. unfold fexp, emin.
      change (Zpos (digits2_pos (2 ^ 52))) with 53. lia.
Qed.

(** *** Rounding an integer multiple of a power of two *)

Lemma iter_xO (m d : positive) :
  Zpos (Pos.iter xO m d) = Zpos m * 2 ^ Zpos d
  /\ digits2_pos (Pos.iter xO m d) = (digits2_pos m + d)%positive.
Proof.
  induction d as [|d [IH1 IH2]] using Pos.peano_ind.
  - simpl Pos.iter. split; [rewrite Pos2Z.inj_xO; lia|]. simpl. lia.
  - rewrite Pos.iter_succ, Pos2Z.inj_succ, Z.pow_succ_r by lia.
    split; [rewrite Pos2Z.inj_xO, IH1; ring|].
    cbn [digits2_pos]. rewrite IH2. lia.
Qed.

Lemma shl_align_spec (m : positive) (e e' : Z) :
  snd (shl_align m e e') = Z.min e e'
  /\ Zpos (fst (shl_align m e e')) = Zpos m * 2 ^ (e - Z.min e e')
  /\ Zpos (digits2_pos (fst (shl_align m e e'))) + Z.min e e'
     = Zpos (digits2_pos m) + e.
Proof.
  unfold shl_align. destruct (e' - e) as [|d|d] eqn:E; cbn [fst snd].
  - assert (e' = e) by lia. subst. rewrite Z.min_id, Z.sub_diag. simpl. lia.
  - assert (Z.min e e' = e) by lia.
    replace (Z.min e e') with e. rewrite Z.sub_diag. simpl. lia.
  - assert (Hm : Z.min e e' = e') by lia. rewrite Hm.
    destruct (iter_xO m d) as [H1 H2]. rewrite H1, H2.
    replace (e - e') with (Zpos d) by lia. split; [reflexivity|]. lia.
Qed.

Lemma located_exact (m : Z) : 0 <= m -> located m 1 (shr_record_of_loc m loc_Exact).
Proof. intros H. unfold located. simpl. lia. Qed.

Lemma binary_round_spec (s : bool) (m : positive) (e : Z) :
  let e1 := fexp64 (Zpos (digits2_pos m) + e) in
  let ez := Z.min e e1 in
  exists m1,
    binary_round 53 1024 s m e = pack s m1 e1
    /\ 0 <= m1 <= 2 ^ 53
    /\ (e1 = -1074 \/ 2 ^ 52 <= m1)
    /\ 2 * Z.abs (m1 * 2 ^ (e1 - ez) - Zpos m * 2 ^ (e - ez)) <= 2 ^ (e1 - ez)
    /\ (e1 = -1074 \/ 2 ^ 52 * 2 ^ (e1 - ez) <= Zpos m * 2 ^ (e - ez)).
Proof.
  intros e1 ez. unfold binary_round.
  fold (fexp64 (Zpos (digits2_pos m) + e)). fold e1.
  destruct (shl_align_spec m e e1) as (S1 & S2 & S3). fold ez in S1, S2, S3.
  destruct (shl_align m e e1) as [mz ez']. cbn [fst snd] in S1, S2, S3.
  subst ez'.
  assert (Hd : Zdigits2 (Zpos mz) + ez = Zpos (digits2_pos m) + e) by exact S3.
  assert (He : ez <= fexp64 (Zdigits2 (Zpos mz) + ez)).
  { rewrite Hd. fold e1. unfold ez. lia. }
  destruct (binary_round_aux_spec s (Zpos mz) ez loc_Exact (Zpos mz) 1
              Z.lt_0_1 (located_exact _ (Pos2Z.is_nonneg mz)) He)
    as (m1 & R1 & R2 & R3 & R4 & R5).
  rewrite Hd in R1, R2, R3, R4, R5. fold e1 in R1, R2, R3, R4, R5.
  rewrite Z.mul_1_l in R1, R2, R3, R4.
  assert (H2n : 0 < 2 ^ (e1 - ez)) by (apply Z.pow_pos_nonneg; unfold ez; lia).
  exists m1. split; [exact R5|]. rewrite <- S2.
  split; [lia|]. split; [lia|]. split; [exact R2|].
  destruct R4 as [R4|R4]; [now left | right].
  apply Z.le_trans with (Zpos mz / 2 ^ (e1 - ez) * 2 ^ (e1 - ez)).
  - apply Z.mul_le_mono_nonneg_r; lia.
  - rewrite Z.mul_comm. apply Z.mul_div_le. lia.
Qed.

Lemma cond_Zopp_diff (s : bool) (x y : Z) (P : R) :
  (0 < P)%R ->
  Rabs (IZR (cond_Zopp s x) * P - IZR (cond_Zopp s y) * P)
  = (IZR (Z.abs (x - y)) * P)%R.
Proof.
  intros HP.
  replace (IZR (cond_Zopp s x) * P - IZR (cond_Zopp s y) * P)%R
    with (IZR (cond_Zopp s (x - y)) * P)%R
    by (destruct s; cbn [cond_Zopp]; rewrite ?opp_IZR, ?minus_IZR; ring).
  rewrite Rabs_mult, (Rabs_pos_eq P) by lra.
  f_equal. rewrite abs_IZR. destruct s; cbn [cond_Zopp];
    rewrite ?opp_IZR, ?Rabs_Ropp; reflexivity.
Qed.

(** A scaled mantissa: [m * 2^e] over the unit [2^ez], for [ez <= e]. *)
Lemma scaled_value (m e ez : Z) :
  ez <= e ->
  (IZR m * powerRZ 2 e = IZR (m * 2 ^ (e - ez)) * powerRZ 2 ez)%R.
Proof.
  intros H. replace e with ((e - ez) + ez) at 1 by lia.
  rewrite powerRZ_2_add, powerRZ_2_nonneg, mult_IZR by lia. ring.
Qed.

Lemma cond_Zopp_mul (s : bool) (x y : Z) :
  cond_Zopp s x * y = cond_Zopp s (x * y).
Proof. destruct s; simpl; ring. Qed.

Lemma binary_round_error (s : bool) (m : positive) (e : Z) :
  -1074 <= e ->
  let r := binary_round 53 1024 s m e in
  valid64 r
  /\ (r = S754_infinity s
      \/ (Double.is_finite r = true
          /\ (Rabs (B2R r - IZR (cond_Zopp s (Zpos m)) * powerRZ 2 e)
              <= / IZR (2 ^ 53) * (IZR (Zpos m) * powerRZ 2 e))%R)).
Proof.
  intros He r.
  destruct (binary_round_spec s m e) as (m1 & E & Hm1 & Hn & Herr & Hrel).
  set (e1 := fexp64 (Zpos (digits2_pos m) + e)) in *.
  set (ez := Z.min e e1) in *.
  assert (He1 : -1074 <= e1) by (unfold e1; rewrite fexp64_eq; lia).
  unfold r. rewrite E. split; [now apply pack_valid|].
  destruct (B2R_pack s m1 e1 Hm1) as [Hinf|[Hfin Hval]]; [now left | right].
  split; [exact Hfin|]. rewrite Hval.
  rewrite (scaled_value (cond_Zopp s m1) e1 ez),
    (scaled_value (cond_Zopp s (Zpos m)) e ez),
    (scaled_value (Zpos m) e ez) by (unfold ez; lia).
  rewrite !cond_Zopp_mul.
  pose proof (powerRZ_2_pos ez) as HP.
  rewrite cond_Zopp_diff by exact HP.
  set (a := m1 * 2 ^ (e1 - ez)) in *. set (b := Zpos m * 2 ^ (e - ez)) in *.
  rewrite <- Rmult_assoc. apply Rmult_le_compat_r; [lra|].
  assert (Hz : 2 ^ 53 * Z.abs (a - b) <= b).
  { destruct Hrel as [Hs|Hr].
    - assert (ez = e1) by (unfold ez; lia).
      replace (2 ^ (e1 - ez)) with 1 in Herr
        by (replace (e1 - ez) with 0 by lia; reflexivity).
      assert (Z.abs (a - b) = 0) by lia.
      assert (0 <= b) by (unfold b; apply Z.mul_nonneg_nonneg;
                          [lia | apply Z.pow_nonneg; lia]).
      lia.
    - change (2 ^ 53) with (2 * 2 ^ 52).
      set (k := 2 ^ (e1 - ez)) in *. lia. }
  apply IZR_le in Hz. rewrite mult_IZR in Hz.
  assert (H53 : (0 < IZR (2 ^ 53))%R) by (apply IZR_lt; reflexivity).
  apply Rmult_le_reg_l with (IZR (2 ^ 53)); [exact H53|].
  rewrite <- Rmult_assoc, Rinv_r by lra. lra.
Qed.

(** *** Addition *)

Lemma valid_exponent (s : bool) (m : positive) (e : Z) :
  valid64 (S754_finite s m e) -> -1074 <= e <= 971.
Proof.
  unfold valid64. cbn [valid_binary]. unfold bounded, canonical_mantissa.
  intros H. apply andb_prop in H. destruct H as [H1 H2].
  apply Z.eqb_eq in H1. apply Z.leb_le in H2.
  unfold fexp, emin in H1. simpl in H2. lia.
Qed.

Lemma B2R_scaled (s : bool) (m : positive) (e ez : Z) :
  ez <= e ->
  B2R (S754_finite s m e)
  = (IZR (cond_Zopp s (Zpos m * 2 ^ (e - ez))) * powerRZ 2 ez)%R.
Proof.
  intros H. cbn [B2R]. rewrite (scaled_value _ e ez H), cond_Zopp_mul.
  reflexivity.
Qed.

Lemma SFadd_error (x y : spec_float) :
  valid64 x -> valid64 y -> Double.is_finite x = true -> Double.is_finite y = true ->
  let r := SFadd 53 1024 x y in
  valid64 r
  /\ (Double.is_finite r = true \/ exists s, r = S754_infinity s)
  /\ (Double.is_finite r = true ->
      (Rabs (B2R r - (B2R x + B2R y)) <= / IZR (2 ^ 53) * Rabs (B2R x + B2R y))%R).
Proof.
  intros Vx Vy Fx Fy.
  assert (Hexact : forall r : spec_float,
             B2R r = (B2R x + B2R y)%R ->
             (Rabs (B2R r - (B2R x + B2R y))
              <= / IZR (2 ^ 53) * Rabs (B2R x + B2R y))%R).
  { intros r ->. rewrite Rminus_diag, Rabs_R0.
    apply Rmult_le_pos; [|apply Rabs_pos].
    apply Rlt_le, Rinv_0_lt_compat, IZR_lt. reflexivity. }
  destruct x as [sx|sx| |sx mx ex]; try discriminate;
    destruct y as [sy|sy| |sy my ey]; try discriminate.
  - cbn [SFadd]. split; [|split].
    + now destruct sx, sy.
    + left. now destruct sx, sy.
    + intros _. apply Hexact. destruct sx, sy; simpl; lra.
  - cbn [SFadd]. split; [exact Vy|]. split; [now left|].
    intros _. apply Hexact. simpl. lra.
  - cbn [SFadd]. split; [exact Vx|]. split; [now left|].
    intros _. apply Hexact. simpl. lra.
  - pose proof (valid_exponent _ _ _ Vx) as Ex.
    pose proof (valid_exponent _ _ _ Vy) as Ey.
    cbn [SFadd]. set (ez := Z.min ex ey).
    destruct (shl_align_spec mx ex ez) as (_ & X2 & _).
    destruct (shl_align_spec my ey ez) as (_ & Y2 & _).
    replace (Z.min ex ez) with ez in X2 by (unfold ez; lia).
    replace (Z.min ey ez) with ez in Y2 by (unfold ez; lia).
    rewrite X2, Y2.
    set (M := cond_Zopp sx (Zpos mx * 2 ^ (ex - ez))
              + cond_Zopp sy (Zpos my * 2 ^ (ey - ez))).
    assert (HM : (B2R (S754_finite sx mx ex) + B2R (S754_finite sy my ey)
                  = IZR M * powerRZ 2 ez)%R).
    { rewrite (B2R_scaled sx mx ex ez), (B2R_scaled sy my ey ez)
        by (unfold ez; lia).
      unfold M. rewrite plus_IZR. ring. }
    rewrite HM. pose proof (powerRZ_2_pos ez) as HP.
    destruct M as [|p|p]; cbn [binary_normalize].
    + split; [reflexivity|]. split; [now left|]. intros _. simpl B2R.
      rewrite Rmult_0_l, Rminus_diag, Rabs_R0, Rmult_0_r. lra.
    + destruct (binary_round_error false p ez ltac:(unfold ez; lia))
        as [V [Hinf|[Hfin Herr]]].
      * split; [exact V|]. rewrite Hinf. split; [right; eauto | discriminate].
      * split; [exact V|]. split; [now left|].
        intros _. cbn [cond_Zopp] in Herr.
        rewrite (Rabs_pos_eq (IZR (Zpos p) * powerRZ 2 ez)); [exact Herr|].
        apply Rmult_le_pos; [apply IZR_le; lia | lra].
    + destruct (binary_round_error true p ez ltac:(unfold ez; lia))
        as [V [Hinf|[Hfin Herr]]].
      * split; [exact V|]. rewrite Hinf. split; [right; eauto | discriminate].
      * split; [exact V|]. split; [now left|].
        intros _. cbn [cond_Zopp] in Herr.
        change (- Zpos p) with (Zneg p) in Herr.
        replace (Rabs (IZR (Zneg p) * powerRZ 2 ez))
          with (IZR (Zpos p) * powerRZ 2 ez)%R; [exact Herr|].
        rewrite Rabs_mult, (Rabs_pos_eq (powerRZ 2 ez)) by lra.
        change (Zneg p) with (- Zpos p). rewrite opp_IZR, Rabs_Ropp.
        rewrite Rabs_pos_eq; [reflexivity | apply IZR_le; lia].
Qed.

(** *** Division *)

Lemma new_location_located (nb q k : Z) :
  0 < nb -> 0 <= q -> 0 <= k < nb ->
  located (q * nb + k) nb (shr_record_of_loc q (new_location nb k)).
Proof.
  intros Hnb Hq Hk. unfold located. rewrite shr_m_of_loc.
  replace (q * nb + k - q * nb) with k by ring.
  split; [exact Hq|]. split; [exact Hk|].
  unfold new_location. destruct (Z.even nb) eqn:Ev.
  - unfold new_location_even. destruct (Z.eqb_spec k 0) as [->|Hne].
    + reflexivity.
    + destruct (Z.compare_spec (2 * k) nb); cbn [shr_record_of_loc shr_r shr_s]; lia.
  - assert (Hodd : Z.odd nb = true) by (rewrite <- Z.negb_even, Ev; reflexivity).
    apply Z.odd_spec in Hodd. destruct Hodd as [j Hj].
    unfold new_location_odd. destruct (Z.eqb_spec k 0) as [->|Hne].
    + reflexivity.
    + destruct (Z.compare_spec (2 * k + 1) nb); cbn [shr_record_of_loc shr_r shr_s]; lia.
Qed.

Lemma Zdigits2_lower (q k : Z) : 0 <= q -> 2 ^ (k - 1) <= q -> 0 < k -> k <= Zdigits2 q.
Proof.
  intros Hq Hk Hpos. destruct q as [|p|p]; [| |lia].
  - assert (0 < 2 ^ (k - 1)) by (apply Z.pow_pos_nonneg; lia). lia.
  - cbn [Zdigits2]. pose proof (digits2_pos_bounds p) as [_ B2].
    destruct (Z.le_gt_cases k (Zpos (digits2_pos p))) as [|Hgt]; [assumption|].
    assert (2 ^ Zpos (digits2_pos p) <= 2 ^ (k - 1))
      by (apply Z.pow_le_mono_r; lia). lia.
Qed.

Lemma Zdigits2_nonneg (q : Z) : 0 <= Zdigits2 q.
Proof. destruct q; simpl; lia. Qed.

Lemma fexp64_mono (a b : Z) : a <= b -> fexp64 a <= fexp64 b.
Proof. rewrite !fexp64_eq. lia. Qed.

Lemma SFdiv_core_spec (mx my : positive) (ex ey : Z) :
  let '(q, e', l) := SFdiv_core_binary 53 1024 (Zpos mx) ex (Zpos my) ey in
  e' <= ex - ey
  /\ located (Zpos mx * 2 ^ (ex - ey - e')) (Zpos my) (shr_record_of_loc q l)
  /\ e' <= fexp64 (Zdigits2 q + e').
Proof.
  unfold SFdiv_core_binary. cbn [Zdigits2].
  set (d1 := Zpos (digits2_pos mx)). set (d2 := Zpos (digits2_pos my)).
  fold (fexp64 (d1 + ex - (d2 + ey))).
  set (e' := Z.min (fexp64 (d1 + ex - (d2 + ey))) (ex - ey)).
  set (s := ex - ey - e').
  assert (Hs : 0 <= s) by (unfold s, e'; lia).
  set (m' := match s with
             | 0 => Zpos mx
             | Zpos _ => Z.shiftl (Zpos mx) s
             | Zneg _ => 0
             end).
  assert (Hm' : m' = Zpos mx * 2 ^ s).
  { unfold m'. destruct s as [|p|p]; [simpl; lia | | lia].
    apply Z.shiftl_mul_pow2. lia. }
  assert (H2s : 0 < 2 ^ s) by (apply Z.pow_pos_nonneg; lia).
  pose proof (Z.div_eucl_eq m' (Zpos my) ltac:(lia)) as Hdiv.
  pose proof (Z.mod_pos_bound m' (Zpos my) ltac:(lia)) as Hmod.
  unfold Z.modulo in Hmod.
  destruct (Z.div_eucl m' (Zpos my)) as [q r] eqn:Eqr.
  assert (Hq : 0 <= q).
  { assert (q = m' / Zpos my) by (unfold Z.div; now rewrite Eqr).
    subst q. apply Z.div_pos; lia. }
  split; [unfold e'; lia|]. split.
  - fold s. rewrite <- Hm', Hdiv. rewrite (Z.mul_comm (Zpos my) q).
    apply new_location_located; lia.
  - apply Z.le_trans with (fexp64 (d1 + ex - (d2 + ey))); [unfold e'; lia|].
    apply fexp64_mono.
    destruct (Z.le_gt_cases (d1 + s - d2) 0) as [Hle|Hgt].
    + pose proof (Zdigits2_nonneg q). unfold s in Hle. lia.
    + assert (Hd : d1 + s - d2 <= Zdigits2 q); [|unfold s in Hd; lia].
      apply Zdigits2_lower; [exact Hq | | lia].
      pose proof (digits2_pos_bounds mx) as [B1 _].
      pose proof (digits2_pos_bounds my) as [_ B2].
      fold d1 in B1. fold d2 in B2.
      (* 2^(d1+s-d2-1) * my <= 2^(d1-1+s) <= m' *)
      assert (Hq' : q = m' / Zpos my) by (unfold Z.div; now rewrite Eqr).
      rewrite Hq'. apply Z.div_le_lower_bound; [lia|].
      apply Z.le_trans with (2 ^ d2 * 2 ^ (d1 + s - d2 - 1)).
      * apply Z.mul_le_mono_nonneg_r; [apply Z.pow_nonneg|]; lia.
      * rewrite <- Z.pow_add_r by lia. rewrite Hm'.
        replace (d2 + (d1 + s - d2 - 1)) with ((d1 - 1) + s) by lia.
        rewrite Z.pow_add_r by lia.
        apply Z.mul_le_mono_nonneg_r; lia.
Qed.

Lemma IZR_cond_Zopp (s : bool) (x : Z) :
  IZR (cond_Zopp s x) = ((if s then -1 else 1) * IZR x)%R.
Proof. destruct s; cbn [cond_Zopp]; rewrite ?opp_IZR; ring. Qed.

Lemma SFdiv_error (x : spec_float) (my : positive) (ey : Z) :
  Double.is_finite x = true ->
  let y := S754_finite false my ey in
  let r := SFdiv 53 1024 x y in
  valid64 r
  /\ (Double.is_finite r = true ->
      (Rabs (B2R r - B2R x / B2R y)
       <= Rmax (/ IZR (2 ^ 53) * Rabs (B2R x / B2R y)) (powerRZ 2 (-1075)))%R).
Proof.
  intros Fx y r.
  assert (H53 : (0 < / IZR (2 ^ 53))%R)
    by (apply Rinv_0_lt_compat, IZR_lt; reflexivity).
  destruct x as [sx|sx| |sx mx ex]; try discriminate.
  { unfold r, y. cbn [SFdiv]. split; [reflexivity|]. intros _.
    cbn [B2R]. unfold Rdiv. rewrite Rmult_0_l, Rminus_diag, Rabs_R0.
    apply Rle_trans with (2 := Rmax_r _ _). apply Rlt_le, powerRZ_2_pos. }
  unfold r, y. cbn [SFdiv]. rewrite xorb_false_r.
  pose proof (SFdiv_core_spec mx my ex ey) as Hcore.
  destruct (SFdiv_core_binary 53 1024 (Zpos mx) ex (Zpos my) ey)
    as [[q e'] l].
  destruct Hcore as (H1 & H2 & H3).
  set (s := ex - ey - e') in *. set (N := Zpos mx * 2 ^ s) in *.
  destruct (binary_round_aux_spec sx q e' l N (Zpos my)
              ltac:(lia) H2 H3) as (m1 & R1 & R2 & R3 & R4 & R5).
  set (e1 := fexp64 (Zdigits2 q + e')) in *.
  set (n := e1 - e') in *. set (K := Zpos my * 2 ^ n) in *.
  assert (Hn : 0 <= n) by (unfold n; lia).
  assert (Hs : 0 <= s) by (unfold s; lia).
  assert (He1 : -1074 <= e1) by (unfold e1; rewrite fexp64_eq; lia).
  assert (Hm1 : 0 <= m1 <= 2 ^ 53) by lia.
  rewrite R5. split; [apply pack_valid; [exact Hm1 | exact He1 | lia]|].
  destruct (B2R_pack sx m1 e1 Hm1) as [Hinf|[_ Hval]];
    [rewrite Hinf; discriminate|].
  intros _. rewrite Hval. clear Hval R5.
  (* everything over the unit [P = 2^e'] *)
  set (P := powerRZ 2 e'). set (T := IZR (2 ^ n)).
  assert (HP : (0 < P)%R) by apply powerRZ_2_pos.
  assert (HT : (0 < T)%R) by (apply IZR_lt, Z.pow_pos_nonneg; lia).
  assert (HD : (0 < IZR (Zpos my))%R) by (apply IZR_lt; lia).
  assert (E1 : powerRZ 2 e1 = (T * P)%R).
  { replace e1 with (n + e') by (unfold n; lia).
    rewrite powerRZ_2_add, powerRZ_2_nonneg by lia. reflexivity. }
  assert (Ev : (B2R (S754_finite sx mx ex) / B2R (S754_finite false my ey)
                = (if sx then -1 else 1) * IZR N * P / IZR (Zpos my))%R).
  { cbn [B2R cond_Zopp]. rewrite IZR_cond_Zopp.
    replace ex with (s + e' + ey) at 1 by (unfold s; lia).
    rewrite !powerRZ_2_add, powerRZ_2_nonneg by lia.
    unfold N. rewrite mult_IZR. fold P.
    pose proof (powerRZ_2_pos ey). field. split; lra. }
  rewrite Ev, E1, IZR_cond_Zopp.
  assert (EK : IZR K = (IZR (Zpos my) * T)%R)
    by (unfold K, T; now rewrite mult_IZR).
  replace ((if sx then -1 else 1) * IZR m1 * (T * P)
           - (if sx then -1 else 1) * IZR N * P / IZR (Zpos my))%R
    with ((if sx then -1 else 1) * (IZR (m1 * K - N) * (P / IZR (Zpos my))))%R
    by (rewrite minus_IZR, mult_IZR, EK; field; lra).
  assert (Hsgn : forall z : R, Rabs ((if sx then -1 else 1) * z) = Rabs z).
  { intros z. destruct sx.
    - replace (-1 * z)%R with (- z)%R by ring. apply Rabs_Ropp.
    - now rewrite Rmult_1_l. }
  rewrite Hsgn.
  replace ((if sx then -1 else 1) * IZR N * P / IZR (Zpos my))%R
    with ((if sx then -1 else 1) * (IZR N * P / IZR (Zpos my)))%R
    by (field; lra).
  rewrite Hsgn.
  assert (HPD : (0 < P / IZR (Zpos my))%R) by (apply Rdiv_lt_0_compat; lra).
  rewrite Rabs_mult, (Rabs_pos_eq (P / IZR (Zpos my))) by lra.
  rewrite <- abs_IZR.
  assert (HN : 0 <= N) by (unfold N; apply Z.mul_nonneg_nonneg;
                           [lia | apply Z.pow_nonneg; lia]).
  rewrite (Rabs_pos_eq (IZR N * P / IZR (Zpos my))).
  2:{ apply Rmult_le_pos; [|apply Rlt_le, Rinv_0_lt_compat; lra].
      apply Rmult_le_pos; [apply IZR_le; lia | lra]. }
  (* the error is at most half of [2^e1] *)
  assert (Hhalf : (IZR (Z.abs (m1 * K - N)) * (P / IZR (Zpos my))
                   <= T * P / 2)%R).
  { apply IZR_le in R2. rewrite mult_IZR, EK in R2.
    replace (T * P / 2)%R with (IZR (Zpos my) * T / 2 * (P / IZR (Zpos my)))%R
      by (field; lra).
    apply Rmult_le_compat_r; lra. }
  destruct R4 as [Hsub|Hnorm].
  - apply Rle_trans with (2 := Rmax_r _ _).
    apply Rle_trans with (1 := Hhalf).
    replace (-1075) with (e1 - 1) by lia.
    rewrite powerRZ_2_pred, E1. lra.
  - apply Rle_trans with (2 := Rmax_l _ _).
    apply Rle_trans with (1 := Hhalf).
    assert (HKN : 2 ^ 52 * K <= N).
    { apply Z.le_trans with (N / K * K).
      - apply Z.mul_le_mono_nonneg_r; [unfold K|]; lia.
      - rewrite Z.mul_comm. apply Z.mul_div_le. unfold K. lia. }
    apply IZR_le in HKN. rewrite mult_IZR, EK in HKN.
    change (2 ^ 53) with (2 * 2 ^ 52). rewrite mult_IZR.
    assert (H52 : (0 < IZR (2 ^ 52))%R) by (apply IZR_lt; reflexivity).
    apply Rmult_le_reg_l with (2 * IZR (2 ^ 52))%R; [lra|].
    rewrite <- Rmult_assoc, Rinv_r, Rmult_1_l by lra.
    replace (2 * IZR (2 ^ 52) * (T * P / 2))%R
      with (IZR (2 ^ 52) * (IZR (Zpos my) * T) * (P / IZR (Zpos my)))%R
      by (field; lra).
    replace (IZR N * P / IZR (Zpos my))%R
      with (IZR N * (P / IZR (Zpos my)))%R by (field; lra).
    apply Rmult_le_compat_r; lra.
Qed.

(** *** The order of doubles and the order of reals *)

Lemma valid_mantissa (s : bool) (m : positive) (e : Z) :
  valid64 (S754_finite s m e) ->
  Zpos m < 2 ^ 53 /\ (-1074 < e -> 2 ^ 52 <= Zpos m).
Proof.
  unfold valid64. cbn [valid_binary]. unfold bounded, canonical_mantissa.
  intros H. apply andb_prop in H. destruct H as [H1 _].
  apply Z.eqb_eq in H1. unfold fexp, emin in H1.
  pose proof (digits2_pos_bounds m) as [B1 B2].
  set (d := Zpos (digits2_pos m)) in *.
  split.
  - apply Z.lt_le_trans with (2 ^ d); [lia|].
    apply Z.pow_le_mono_r; lia.
  - intros He. replace 52 with (d - 1) by lia. exact B1.
Qed.

(** Of two valid doubles, the one with the smaller exponent has the
    smaller magnitude. *)
Lemma magnitude_lt (s1 s2 : bool) (m1 m2 : positive) (e1 e2 : Z) :
  valid64 (S754_finite s1 m1 e1) -> valid64 (S754_finite s2 m2 e2) ->
  e1 < e2 ->
  (IZR (Zpos m1) * powerRZ 2 e1 < IZR (Zpos m2) * powerRZ 2 e2)%R.
Proof.
  intros V1 V2 He.
  destruct (valid_mantissa _ _ _ V1) as [H1 _].
  destruct (valid_mantissa _ _ _ V2) as [_ H2].
  pose proof (valid_exponent _ _ _ V1) as E1.
  specialize (H2 ltac:(lia)).
  rewrite (scaled_value (Zpos m2) e2 e1) by lia.
  apply Rmult_lt_compat_r; [apply powerRZ_2_pos|]. apply IZR_lt.
  apply Z.lt_le_trans with (2 ^ 52 * 2 ^ 1); [simpl; lia|].
  apply Z.mul_le_mono_nonneg; try lia.
  apply Z.pow_le_mono_r; lia.
Qed.

Lemma SFleb_B2R (x y : spec_float) :
  valid64 x -> valid64 y -> Double.is_finite x = true -> Double.is_finite y = true ->
  SFleb x y = true -> (B2R x <= B2R y)%R.
Proof.
  intros Vx Vy Fx Fy.
  destruct x as [sx|sx| |sx mx ex]; try discriminate;
    destruct y as [sy|sy| |sy my ey]; try discriminate;
    unfold SFleb; cbn [SFcompare B2R].
  - intros _. lra.
  - destruct sy; [discriminate|]. intros _. cbn [cond_Zopp].
    apply Rmult_le_pos; [apply IZR_le; lia | apply Rlt_le, powerRZ_2_pos].
  - destruct sx; [|discriminate]. intros _. cbn [cond_Zopp].
    pose proof (powerRZ_2_pos ex). rewrite opp_IZR.
    assert (0 < IZR (Zpos mx))%R by (apply IZR_lt; lia).
    apply Rlt_le. rewrite <- Ropp_mult_distr_l.
    apply Ropp_lt_gt_0_contravar. now apply Rmult_lt_0_compat.
  - pose proof (powerRZ_2_pos ex) as Px. pose proof (powerRZ_2_pos ey) as Py.
    assert (Hx : (0 < IZR (Zpos mx) * powerRZ 2 ex)%R)
      by (apply Rmult_lt_0_compat; [apply IZR_lt; lia | exact Px]).
    assert (Hy : (0 < IZR (Zpos my) * powerRZ 2 ey)%R)
      by (apply Rmult_lt_0_compat; [apply IZR_lt; lia | exact Py]).
    destruct sx, sy; cbn [cond_Zopp]; rewrite ?opp_IZR.
    + destruct (Z.compare_spec ex ey) as [->|Hlt|Hgt]; intros H.
      * change (PosDef.Pos.compare_cont Eq mx my) with (Pos.compare mx my) in H.
        destruct (Pos.compare_spec mx my) as [->|Hm|Hm];
          try discriminate; [lra|].
        apply Pos2Z.pos_lt_pos in Hm. apply IZR_lt in Hm.
        assert (IZR (Zpos my) * powerRZ 2 ey < IZR (Zpos mx) * powerRZ 2 ey)%R
          by (apply Rmult_lt_compat_r; assumption).
        lra.
      * discriminate.
      * pose proof (magnitude_lt _ _ _ _ _ _ Vy Vx Hgt). lra.
    + intros _. lra.
    + discriminate.
    + destruct (Z.compare_spec ex ey) as [->|Hlt|Hgt]; intros H.
      * change (PosDef.Pos.compare_cont Eq mx my) with (Pos.compare mx my) in H.
        destruct (Pos.compare_spec mx my) as [->|Hm|Hm];
          try discriminate; [lra|].
        apply Pos2Z.pos_lt_pos in Hm. apply IZR_lt in Hm.
        assert (IZR (Zpos mx) * powerRZ 2 ey < IZR (Zpos my) * powerRZ 2 ey)%R
          by (apply Rmult_lt_compat_r; assumption).
        lra.
      * pose proof (magnitude_lt _ _ _ _ _ _ Vx Vy Hlt). lra.
      * discriminate.
Qed.

(** *** Conversion of a size *)

Lemma of_size_exact (n : nat) :
  (0 < n)%nat -> Z.of_nat n < 2 ^ 53 ->
  exists my ey,
    Double.of_size n = S754_finite false my ey
    /\ B2R (S754_finite false my ey) = INR n.
Proof.
  intros Hn Hlt. unfold Double.of_size, Double.prec, Double.emax.
  destruct (Z.of_nat n) as [|p|p] eqn:En; [lia | | lia].
  cbn [binary_normalize].
  destruct (binary_round_spec false p 0) as (m1 & E & Hm1 & _ & Herr & _).
  pose proof (digits2_pos_bounds p) as [B1 B2].
  set (d := Zpos (digits2_pos p)) in *.
  assert (Hd : 0 < d <= 53).
  { split; [unfold d; lia|].
    destruct (Z.le_gt_cases d 53) as [|Hgt]; [assumption|].
    assert (2 ^ 53 <= 2 ^ (d - 1)) by (apply Z.pow_le_mono_r; lia). lia. }
  assert (He1 : fexp64 (d + 0) = d - 53) by (rewrite fexp64_eq; lia).
  rewrite He1 in E, Herr.
  replace (Z.min 0 (d - 53)) with (d - 53) in Herr by lia.
  rewrite Z.sub_diag in Herr. change (2 ^ 0) with 1 in Herr.
  assert (Em : m1 = Zpos p * 2 ^ (0 - (d - 53))) by lia.
  assert (Hval : (IZR m1 * powerRZ 2 (d - 53) = INR n)%R).
  { rewrite Em, <- (scaled_value (Zpos p) 0 (d - 53)) by lia.
    rewrite INR_IZR_INZ, En. simpl. lra. }
  assert (Hpos : 0 < m1).
  { rewrite Em. apply Z.mul_pos_pos; [lia | apply Z.pow_pos_nonneg; lia]. }
  rewrite E. destruct (B2R_pack false m1 (d - 53) Hm1) as [Hinf|[Hfin Hv]].
  - exfalso. revert Hinf. unfold pack. destruct m1 as [|q|q]; try discriminate.
    destruct (Z.ltb (Zpos q) (2 ^ 53)).
    + destruct (Z.leb_spec (d - 53) 971); [discriminate | lia].
    + destruct (Z.leb_spec (d - 53 + 1) 971); [discriminate | lia].
  - cbn [cond_Zopp] in Hv. rewrite Hval in Hv. revert Hfin Hv.
    unfold pack. destruct m1 as [|q|q]; [lia | | lia].
    destruct (Z.ltb (Zpos q) (2 ^ 53)).
    + destruct (d - 53 <=? 971); [eauto | discriminate].
    + destruct (d - 53 + 1 <=? 971); [eauto | discriminate].
Qed.

(** *** The sum and the mean *)

Lemma fold_add_infinity (l : list double) (s : bool) :
  Forall (fun t => Double.is_finite t = true) l ->
  fold_left (SFadd 53 1024) l (S754_infinity s) = S754_infinity s.
Proof.
  induction 1 as [|t l Ht _ IH]; [reflexivity|].
  cbn [fold_left]. destruct t; try discriminate; exact IH.
Qed.

Section Sum.

Variables (lo hi : R) (n : nat).

Let u : R := (/ IZR (2 ^ 53))%R.
Let A : R := Rmax (Rabs lo) (Rabs hi).
Let B : R := (2 * INR n * u * A)%R.

Hypothesis Hn : Z.of_nat n <= 2 ^ 52.

Lemma u_pos : (0 < u)%R.
Proof. apply Rinv_0_lt_compat, IZR_lt. reflexivity. Qed.

Lemma A_nonneg : (0 <= A)%R.
Proof. unfold A. eapply Rle_trans; [apply Rabs_pos | apply Rmax_l]. Qed.

Lemma nu_half (k : nat) : (k <= n)%nat -> (INR k * u <= / 2)%R.
Proof.
  intros Hk. unfold u.
  assert (H : (INR k <= IZR (2 ^ 52))%R).
  { rewrite INR_IZR_INZ. apply IZR_le. lia. }
  assert (H53 : IZR (2 ^ 53) = (2 * IZR (2 ^ 52))%R).
  { change (2 ^ 53) with (2 * 2 ^ 52). now rewrite mult_IZR. }
  assert (H52 : (0 < IZR (2 ^ 52))%R) by (apply IZR_lt; reflexivity).
  rewrite H53. apply Rmult_le_reg_r with (2 * IZR (2 ^ 52))%R; [lra|].
  rewrite Rmult_assoc, Rinv_l by lra. lra.
Qed.

Lemma B_nonneg : (0 <= B)%R.
Proof.
  unfold B. pose proof u_pos. pose proof A_nonneg. pose proof (pos_INR n).
  apply Rmult_le_pos; [|assumption].
  apply Rmult_le_pos; [|lra]. lra.
Qed.

Lemma within_abs (t : double) : within lo hi t -> (Rabs (B2R t) <= A)%R.
Proof.
  intros (_ & _ & H1 & H2). unfold A.
  apply Rabs_le. split.
  - apply Rle_trans with (- Rabs lo)%R.
    + apply Ropp_le_contravar, Rmax_l.
    + pose proof (Rle_abs (- lo)) as H. rewrite Rabs_Ropp in H. lra.
  - apply Rle_trans with (Rabs hi); [|apply Rmax_r].
    pose proof (Rle_abs hi). lra.
Qed.

(** The running sum stays within [k * B] of the exact sum of its [k]
    terms, as long as it is finite. *)
Lemma accumulate_error (l : list double) :
  forall (acc : double) (a : R) (k : nat),
    Forall (within lo hi) l ->
    valid64 acc -> Double.is_finite acc = true ->
    (k + List.length l <= n)%nat ->
    (Rabs a <= INR k * A)%R ->
    (Rabs (B2R acc - a) <= INR k * B)%R ->
    Double.is_finite (fold_left (SFadd 53 1024) l acc) = true ->
    (Rabs (B2R (fold_left (SFadd 53 1024) l acc) - (a + Rsum l))
     <= INR (k + List.length l) * B)%R.
Proof.
  induction l as [|x l IH]; intros acc a k Hl Vacc Facc Hk Ha He Hfin.
  - cbn [fold_left Rsum fold_right List.length].
    rewrite Nat.add_0_r, Rplus_0_r. exact He.
  - inversion Hl as [|? ? Hx Hl']; subst.
    cbn [fold_left] in Hfin |- *. cbn [List.length] in Hk.
    destruct Hx as (Vx & Fx & Hxb).
    destruct (SFadd_error acc x Vacc Vx Facc Fx) as (V' & F' & E').
    destruct F' as [F'|[s Hinf]].
    2:{ rewrite Hinf, fold_add_infinity in Hfin; [discriminate|].
        eapply Forall_impl; [|exact Hl']. now intros t (_ & Ft & _). }
    specialize (E' F').
    set (acc' := SFadd 53 1024 acc x) in *.
    assert (Hxa : (Rabs (B2R x) <= A)%R) by (apply within_abs; repeat split; tauto).
    pose proof u_pos as Hu. pose proof A_nonneg as HA. pose proof B_nonneg as HB.
    pose proof (nu_half k ltac:(lia)) as Hku.
    pose proof (nu_half n (le_n n)) as Hnu.
    pose proof (pos_INR k) as Hk0.
    assert (Hkn : (INR k + 1 <= INR n)%R).
    { rewrite <- S_INR. apply le_INR. lia. }
    assert (Ha' : (Rabs (a + B2R x) <= INR (S k) * A)%R).
    { rewrite S_INR. eapply Rle_trans; [apply Rabs_triang|]. lra. }
    assert (Hsum : (Rabs (B2R acc + B2R x) <= INR (S k) * A + INR k * B)%R).
    { replace (B2R acc + B2R x)%R with ((a + B2R x) + (B2R acc - a))%R by ring.
      eapply Rle_trans; [apply Rabs_triang|]. lra. }
    assert (He' : (Rabs (B2R acc' - (a + B2R x)) <= INR (S k) * B)%R).
    { replace (B2R acc' - (a + B2R x))%R
        with ((B2R acc' - (B2R acc + B2R x)) + (B2R acc - a))%R by ring.
      eapply Rle_trans; [apply Rabs_triang|].
      fold u in E'.
      assert (H1 : (u * Rabs (B2R acc + B2R x)
                    <= u * (INR (S k) * A + INR k * B))%R)
        by (apply Rmult_le_compat_l; lra).
      rewrite S_INR in *.
      assert (H2 : (u * ((INR k + 1) * A) <= B / 2)%R).
      { unfold B. replace (2 * INR n * u * A / 2)%R with (u * (INR n * A))%R
          by field.
        apply Rmult_le_compat_l; [lra|]. apply Rmult_le_compat_r; lra. }
      assert (H3 : (u * (INR k * B) <= B / 2)%R).
      { replace (u * (INR k * B))%R with ((INR k * u) * B)%R by ring.
        replace (B / 2)%R with (/ 2 * B)%R by field.
        apply Rmult_le_compat_r; lra. }
      lra. }
    specialize (IH acc' (a + B2R x)%R (S k) Hl' V' F' ltac:(lia) Ha' He' Hfin).
    cbn [Rsum fold_right List.length].
    replace (a + (B2R x + fold_right (fun x0 s => (B2R x0 + s)%R) 0%R l))%R
      with ((a + B2R x) + Rsum l)%R by (unfold Rsum; ring).
    replace (k + S (List.length l))%nat with (S k + List.length l)%nat by lia.
    exact IH.
Qed.

Lemma Rsum_bounds (l : list double) :
  Forall (within lo hi) l ->
  (INR (List.length l) * lo <= Rsum l <= INR (List.length l) * hi)%R.
Proof.
  induction 1 as [|t l (_ & _ & Ht) _ IH].
  - simpl. lra.
  - cbn [Rsum fold_right]. fold (Rsum l).
    change (List.length (t :: l)) with (S (List.length l)).
    rewrite S_INR. lra.
Qed.

End Sum.

Lemma mean_error (temps : list double) (lo hi : R) :
  temps <> [] ->
  Forall (within lo hi) temps ->
  Z.of_nat (List.length temps) <= 2 ^ 52 ->
  Double.is_finite (mean temps) = true ->
  let tol := tolerance (List.length temps) (Rmax (Rabs lo) (Rabs hi)) in
  (lo - tol <= B2R (mean temps) <= hi + tol)%R.
Proof.
  intros Hne Hall Hn Hfin. unfold tolerance.
  set (n := List.length temps) in *.
  set (A := Rmax (Rabs lo) (Rabs hi)).
  set (u := (/ IZR (2 ^ 53))%R).
  set (eta := powerRZ 2 (-1075)).
  assert (Hn0 : (0 < n)%nat) by (unfold n; destruct temps; [contradiction | simpl; lia]).
  destruct (of_size_exact n Hn0 ltac:(lia)) as (my & ey & Ey & Vy).
  unfold mean, Double.div, Double.prec, Double.emax in *.
  fold n in Hfin |- *. rewrite Ey in *.
  set (sum := accumulate temps) in *.
  assert (Fsum : Double.is_finite sum = true).
  { destruct sum; try reflexivity; discriminate. }
  destruct (SFdiv_error sum my ey Fsum) as [_ Hdiv].
  specialize (Hdiv Hfin). rewrite Vy in Hdiv. fold u eta in Hdiv.
  assert (Hacc : (Rabs (B2R sum - (0 + Rsum temps))
                  <= INR (0 + n) * (2 * INR n * u * A))%R).
  { unfold sum, accumulate, n.
    apply (accumulate_error lo hi (List.length temps) Hn temps
             (S754_zero false) 0%R 0%nat Hall).
    - reflexivity.
    - reflexivity.
    - lia.
    - rewrite Rabs_R0. simpl. lra.
    - simpl. rewrite Rminus_diag, Rabs_R0. lra.
    - exact Fsum. }
  rewrite Rplus_0_l in Hacc. simpl plus in Hacc.
  pose proof (Rsum_bounds lo hi temps Hall) as Hb. fold n in Hb.
  pose proof (u_pos) as Hu. fold u in Hu.
  pose proof (A_nonneg lo hi) as HA. fold A in HA.
  pose proof (nu_half n Hn n (le_n n)) as Hnu. fold u in Hnu.
  assert (HN : (1 <= INR n)%R) by (change 1%R with (INR 1); apply le_INR; lia).
  assert (Heta : (0 < eta)%R) by apply powerRZ_2_pos.
  set (N := INR n) in *. set (S := Rsum temps) in *. set (s := B2R sum) in *.
  set (m := B2R (SFdiv 53 1024 sum (S754_finite false my ey))) in *.
  set (B := (2 * N * u * A)%R) in *.
  assert (HB : (0 <= B)%R).
  { unfold B. apply Rmult_le_pos; [|lra]. apply Rmult_le_pos; lra. }
  assert (Hmu : (lo <= S / N <= hi)%R).
  { split.
    - apply Rmult_le_reg_r with N; [lra|]. unfold Rdiv.
      rewrite Rmult_assoc, Rinv_l by lra. lra.
    - apply Rmult_le_reg_r with N; [lra|]. unfold Rdiv.
      rewrite Rmult_assoc, Rinv_l by lra. lra. }
  assert (HSA : (Rabs (S / N) <= A)%R).
  { unfold A. apply Rabs_le. split.
    - apply Rle_trans with (- Rabs lo)%R.
      + apply Ropp_le_contravar, Rmax_l.
      + pose proof (Rle_abs (- lo)) as H. rewrite Rabs_Ropp in H. lra.
    - apply Rle_trans with (Rabs hi); [|apply Rmax_r].
      pose proof (Rle_abs hi). lra. }
  (* the sum over [N] is within [B] of the exact mean *)
  assert (H1 : (Rabs (s / N - S / N) <= B)%R).
  { replace (s / N - S / N)%R with ((s - S) * / N)%R by (field; lra).
    rewrite Rabs_mult, (Rabs_pos_eq (/ N)).
    - apply Rmult_le_reg_r with N; [lra|].
      rewrite Rmult_assoc, Rinv_l by lra. lra.
    - apply Rlt_le, Rinv_0_lt_compat. lra. }
  assert (H2 : (Rabs (s / N) <= A + B)%R).
  { replace (s / N)%R with (S / N + (s / N - S / N))%R by ring.
    eapply Rle_trans; [apply Rabs_triang|]. lra. }
  assert (H3 : (Rabs (m - s / N) <= u * (A + B) + eta)%R).
  { eapply Rle_trans; [exact Hdiv|]. apply Rmax_lub.
    - assert (u * Rabs (s / N) <= u * (A + B))%R
        by (apply Rmult_le_compat_l; lra). lra.
    - assert (0 <= u * (A + B))%R by (apply Rmult_le_pos; lra). lra. }
  assert (H4 : (Rabs (m - S / N) <= B + u * (A + B) + eta)%R).
  { replace (m - S / N)%R with ((m - s / N) + (s / N - S / N))%R by ring.
    eapply Rle_trans; [apply Rabs_triang|]. lra. }
  assert (H5 : (B + u * (A + B) <= INR (Datatypes.S n) * / IZR (2 ^ 52) * A)%R).
  { rewrite S_INR. fold N.
    assert (E52 : (/ IZR (2 ^ 52) = 2 * u)%R).
    { unfold u. change (2 ^ 53) with (2 * 2 ^ 52). rewrite mult_IZR.
      assert (0 < IZR (2 ^ 52))%R by (apply IZR_lt; reflexivity).
      field. lra. }
    rewrite E52.
    assert (HuB : (u * B <= u * A)%R).
    { unfold B. replace (u * (2 * N * u * A))%R with (u * ((2 * (N * u)) * A))%R
        by ring.
      apply Rmult_le_compat_l; [lra|].
      replace A with (1 * A)%R at 2 by ring.
      apply Rmult_le_compat_r; lra. }
    unfold B in *. lra. }
  pose proof (Rle_abs (m - S / N)) as P1.
  pose proof (Rle_abs (- (m - S / N))) as P2. rewrite Rabs_Ropp in P2.
  lra.
Qed.

End Rounding.

(** ** The values of the table are valid doubles *)

Section ValidValues.

(** What [std::stod] returns is a double: a NaN, an infinity, a zero, or
    a mantissa and an exponent of the format. *)
Lemma stod_valid (str : string) (x : double) :
  Stod.stod str = Returned x -> valid64 x.
Proof.
  unfold Stod.stod. destruct (Stod.strtod str) as [l|]; [|discriminate].
  assert (H : valid64 (fst (Stod.convert l))).
  { destruct l as [|neg|neg [|m] radix e]; try reflexivity.
    cbn [Stod.convert]. destruct (Stod.ratio_of m radix e) as [n d].
    cbn [fst]. unfold Double.round_ratio, Double.prec, Double.emax.
    exact (proj1 (Rounding.SFdiv_error (S754_finite neg n 0) d 0 eq_refl)). }
  destruct (Stod.convert l) as [y erange]. cbn [fst] in H.
  destruct erange; [discriminate|]. now intros [= <-].
Qed.

Lemma valid_record_valid (line k : string) (v : double) :
  valid_record line = Some (k, v) -> valid64 v.
Proof.
  unfold valid_record, parse_line.
  destruct (Str.find "=" line) as [pos|]; [|discriminate].
  destruct (Stod.stod _) as [x|] eqn:E; [|discriminate].
  intros [= _ <-]. exact (stod_valid _ _ E).
Qed.

Lemma values_of_valid (k : string) (ls : list string) :
  Forall valid64 (values_of k (valid_records ls)).
Proof.
  induction ls as [|line ls IH]; simpl; [constructor|].
  destruct (valid_record line) as [[k' v]|] eqn:E; [|exact IH].
  simpl. destruct (String.eqb k' k); [|exact IH].
  constructor; [exact (valid_record_valid _ _ _ E) | exact IH].
Qed.

Lemma recorded_valid (fs : filesystem) (k : string) :
  Forall valid64 (recorded fs k).
Proof.
  unfold recorded. destruct (open_first fs input_files); [|constructor].
  apply values_of_valid.
Qed.

(** An entry of the report summarizes the values recorded for its
    station. *)
Lemma report_recorded (fs : filesystem) (e : entry) :
  In e (report fs) ->
  recorded fs (station e) <> []
  /\ summarize (station e) (recorded fs (station e)) = Some e.
Proof.
  intros Hin. destruct (report_entry fs e Hin) as (content & Ho & H).
  unfold recorded. rewrite Ho. exact H.
Qed.

(** Between its minimum and its maximum, each value of a vector of
    finite doubles, as a real number. *)
Lemma minmax_element_within (temps : list double) (mn mx : double) :
  minmax_element temps = Some (mn, mx) ->
  Forall valid64 temps ->
  Forall (fun v => Double.is_finite v = true) temps ->
  Forall (within (B2R mn) (B2R mx)) temps.
Proof.
  intros E Hv Hf.
  destruct (minmax_element_bounds _ _ _ E) as (H1 & H2 & H3).
  assert (Hn : Forall number temps).
  { eapply Forall_impl; [|exact Hf]. intros v. unfold number. now destruct v. }
  specialize (H3 Hn). rewrite Forall_forall in *.
  intros v Hin. destruct (H3 v Hin) as [La Lb].
  repeat split; auto.
  - apply Rounding.SFleb_B2R; auto.
  - apply Rounding.SFleb_B2R; auto.
Qed.

End ValidValues.

(** * The claims *)

Section Claims.
Import StationsFacts DoubleOrder.

(** ** C1: scenario A *)

(** C1, as stated, fails: the delimiter is the fixed character ['='],
    so none of the lines [A;10.0], [B;20.0], [A;5.0] has a delimiter;
    all three are skipped and nothing is printed. *)
Lemma C1_semicolon_lines_print_nothing :
  main (single_file measurements scenario_A_semicolon)
  = {| cout := ""; cerr := ""; exit := Exited 0 |}
  /\ cout (main (single_file measurements scenario_A_semicolon))
     <> scenario_A_report.
Proof. split; [reflexivity | discriminate]. Qed.

(** C1, amended: for the input made of the three lines [A=10.0],
    [B=20.0], [A=5.0] the program prints exactly the line
    [A=5.0/7.5/10.0] followed by the line [B=20.0/20.0/20.0], and
    returns 0. *)
Theorem C1_scenario_A_with_equals (fs : filesystem) :
  open_first fs input_files = Some scenario_A_equals ->
  main fs = {| cout := scenario_A_report; cerr := ""; exit := Exited 0 |}.
Proof. intros H. unfold main. rewrite H. reflexivity. Qed.

Lemma C1_scenario_A_with_equals_witness :
  main (single_file measurements scenario_A_equals)
  = {| cout := scenario_A_report; cerr := ""; exit := Exited 0 |}.
Proof.
  apply (C1_scenario_A_with_equals (single_file measurements scenario_A_equals)).
  reflexivity.
Defined.

(** ** C2: a value that does not convert *)

(** Whatever precedes it, the first line whose value makes [std::stod]
    throw ends the run: nothing is printed, whatever follows. *)
Lemma main_terminates_on_throw (fs : filesystem) (content : string)
      (l1 l2 : list string) (line : string) (e : exception) :
  open_first fs input_files = Some content ->
  lines content = (l1 ++ line :: l2)%list ->
  Forall (fun l => forall e', parse_line l <> Threw e') l1 ->
  parse_line line = Threw e ->
  main fs = {| cout := ""; cerr := ""; exit := Terminated e |}.
Proof.
  intros Ho Hl H1 He. unfold main. rewrite Ho, Hl.
  now rewrite (read_loop_throws l1 l2 line e [] H1 He).
Qed.

(** C2, on the code: with the lines [A=1.0] and [B=abc] the exception
    [std::invalid_argument] of [std::stod] is not caught; the run is
    terminated and prints nothing, where the same input without the
    malformed line prints [A=1.0/1.0/1.0]. *)
Theorem C2_unparseable_value_terminates :
  main (single_file measurements (unlines ["A=1.0"; "B=abc"]))
  = {| cout := ""; cerr := ""; exit := Terminated invalid_argument |}
  /\ main (single_file measurements (unlines ["A=1.0"]))
     = {| cout := unlines ["A=1.0/1.0/1.0"]; cerr := "";
          exit := Exited 0 |}.
Proof. split; reflexivity. Qed.

(** ** C3: what the table retains *)

(** C3, as stated, fails: three records of one station leave three
    doubles in the table, for one distinct key. *)
Lemma C3_three_values_one_key :
  exists m,
    aggregate (single_file measurements (unlines ["A=1.0"; "A=2.0"; "A=3.0"]))
    = Some m
    /\ Stations.retained m = 3%nat
    /\ List.length (Stations.keys m) = 1%nat
    /\ ~ (Stations.retained m <= List.length (Stations.keys m))%nat.
Proof.
  eexists. split; [reflexivity|]. simpl. repeat split. lia.
Qed.

(** C3, amended: the table retains every parsed value.  When the
    reading loop completes, the vector of each key holds all the values
    of the key's valid records, in input order; the number of doubles
    held by the table is the number of valid records read, while the
    number of its entries is the number of distinct keys. *)
Theorem C3_every_value_is_retained (fs : filesystem) (m : Stations.t) :
  aggregate fs = Some m ->
  exists content,
    open_first fs input_files = Some content
    /\ (forall k, lookup k m = values_of k (valid_records (lines content)))
    /\ Stations.retained m = List.length (valid_records (lines content))
    /\ List.length (Stations.keys m)
       = List.length
           (nodup string_dec (map fst (valid_records (lines content)))).
Proof.
  intros H.
  destruct (aggregate_shape _ _ H) as (content & Ho & _ & Hm & Hord & _).
  exists content. split; [exact Ho|]. split; [|split].
  - intros k. rewrite Hm. now rewrite pushed_lookup by apply ordered_nil.
  - rewrite Hm, pushed_retained. simpl. lia.
  - apply Permutation_length, NoDup_Permutation.
    + now apply ordered_NoDup.
    + apply NoDup_nodup.
    + intros k. rewrite nodup_In, Hm, pushed_keys. simpl. tauto.
Qed.

Lemma C3_every_value_is_retained_witness :
  exists content,
    open_first (single_file measurements (unlines ["A=1.0"; "A=2.0"]))
               input_files = Some content
    /\ (forall k,
          lookup k [("A", [S754_finite false 4503599627370496 (-52);
                           S754_finite false 4503599627370496 (-51)])]
          = values_of k (valid_records (lines content)))
    /\ 2%nat = List.length (valid_records (lines content))
    /\ 1%nat
       = List.length
           (nodup string_dec (map fst (valid_records (lines content)))).
Proof.
  exact (C3_every_value_is_retained
           (single_file measurements (unlines ["A=1.0"; "A=2.0"]))
           _ eq_refl).
Defined.

(** ** C4: the entries of the report *)




(** ** C5: the keys of the output *)

(** C5, on the code: with the lines [A=1.0] and [B=abc] the record of
    [A] is valid, but the exception that [std::stod] throws on [abc]
    ends the run before the printing loop, so that the output has no
    key at all where the claim wants the key [A].  This is the defect
    of C2; without the line [B=abc] the key is printed. *)
Theorem C5_valid_key_is_not_printed :
  let content := unlines ["A=1.0"; "B=abc"] in
  let fs := single_file measurements content in
  main fs = {| cout := ""; cerr := ""; exit := Terminated invalid_argument |}
  /\ In "A" (map fst (valid_records (lines content)))
  /\ output_keys (cout (main fs)) = []
  /\ output_keys (cout (main (single_file measurements (unlines ["A=1.0"]))))
     = ["A"].
Proof.
  cbv zeta. split; [reflexivity|]. split; [vm_compute; now left|].
  split; reflexivity.
Qed.

(** ** C6: no input file *)

(** C6: when none of the candidate files can be opened, [main] returns
    1, has written its message to [std::cerr] and nothing to
    [std::cout]. *)
Theorem C6_no_input_available (fs : filesystem) :
  (forall f, In f input_files -> fs f = None) ->
  main fs
  = {| cout := ""; cerr := "Error: Could not open file" ++ endl;
       exit := Exited 1 |}
  /\ exit (main fs) <> Exited 0
  /\ lines (cout (main fs)) = [].
Proof.
  intros H. unfold main, input_files in *. simpl.
  rewrite !H by (simpl; tauto). simpl. repeat split. discriminate.
Qed.

Lemma C6_no_input_available_witness :
  main (fun _ => None)
  = {| cout := ""; cerr := "Error: Could not open file" ++ endl;
       exit := Exited 1 |}
  /\ exit (main (fun _ => None)) <> Exited 0
  /\ lines (cout (main (fun _ => None))) = [].
Proof.
  apply (C6_no_input_available (fun _ => None)). reflexivity.
Defined.

(** ** C7: a line without delimiter *)

(** C7: a line without ['='] is skipped without a message, and the run
    is the one of the input without that line: same output, same exit
    status. *)
Theorem C7_line_without_delimiter_is_skipped
        (fs fs' : filesystem) (content content' : string)
        (l1 l2 : list string) (line : string) :
  open_first fs input_files = Some content ->
  open_first fs' input_files = Some content' ->
  lines content = (l1 ++ line :: l2)%list ->
  lines content' = (l1 ++ l2)%list ->
  Str.find "=" line = None ->
  main fs = main fs' /\ cerr (main fs) = "".
Proof.
  intros Ho Ho' Hl Hl' Hn. unfold main.
  rewrite Ho, Ho', Hl, Hl', (read_loop_skip l1 l2 line [] Hn).
  split; [reflexivity|].
  destruct (read_loop (l1 ++ l2) []) as [m|e]; [|reflexivity].
  now destruct (print_loop m).
Qed.

Lemma C7_line_without_delimiter_is_skipped_witness :
  main (single_file measurements (unlines ["A=1.0"; "garbage"; "B=2.0"]))
  = main (single_file measurements (unlines ["A=1.0"; "B=2.0"]))
  /\ cerr (main (single_file measurements
                             (unlines ["A=1.0"; "garbage"; "B=2.0"]))) = "".
Proof.
  apply (C7_line_without_delimiter_is_skipped
           (single_file measurements (unlines ["A=1.0"; "garbage"; "B=2.0"]))
           (single_file measurements (unlines ["A=1.0"; "B=2.0"]))
           (unlines ["A=1.0"; "garbage"; "B=2.0"])
           (unlines ["A=1.0"; "B=2.0"])
           ["A=1.0"] ["B=2.0"] "garbage");
    reflexivity.
Defined.

(** ** C8: determinism *)

(** C8: two runs on the same files write the same text to [std::cout]
    and end with the same exit status. *)
Theorem C8_runs_are_deterministic (fs : filesystem) (o1 o2 : outcome) :
  Machine.runs fs o1 -> Machine.runs fs o2 ->
  cout o1 = cout o2 /\ exit o1 = exit o2.
Proof.
  intros H1 H2. now rewrite (MachineFacts.runs_unique fs o1 o2 H1 H2).
Qed.

(** One transition of a concrete run, its side conditions computed. *)
Ltac run_step :=
  eapply Machine.steps_cons;
  [ first [ apply Machine.step_next_file; reflexivity
          | apply Machine.step_open; reflexivity
          | eapply Machine.step_line; reflexivity
          | apply Machine.step_eof; reflexivity
          | eapply Machine.step_print; reflexivity
          | apply Machine.step_return ] | ].

Lemma C8_runs_are_deterministic_witness :
  let fs := single_file measurements (unlines ["A=1.0"]) in
  let o := {| cout := unlines ["A=1.0/1.0/1.0"]; cerr := "";
              exit := Exited 0 |} in
  cout (main fs) = cout o /\ exit (main fs) = exit o.
Proof.
  intros fs o.
  apply (C8_runs_are_deterministic fs (main fs) o);
    exists [("A", [S754_finite false 4503599627370496 (-52)])];
    unfold Machine.initial, input_files;
    do 6 run_step; apply Machine.steps_refl.
Defined.

(** ** C9: characters after the number *)

(** C9: the line [A=1.5abc] is accepted: [std::stod] converts the
    prefix [1.5] and ignores the rest, the value 1.5 is recorded for
    [A] and reported. *)
Theorem C9_numeric_prefix_is_accepted :
  Stod.stod "1.5abc" = Returned one_and_a_half
  /\ Stod.stod "1.5" = Returned one_and_a_half
  /\ process_line "A=1.5abc" [] = Returned [("A", [one_and_a_half])]
  /\ main (single_file measurements (unlines ["A=1.5abc"]))
     = {| cout := unlines ["A=1.5/1.5/1.5"]; cerr := "";
          exit := Exited 0 |}.
Proof. repeat split; reflexivity. Qed.

(** ** C10: the empty key *)

(** C10, on the code: the line [=5.0] is a valid record whose key is
    the empty string, but with the lines [=5.0] and [B=abc] the
    exception that [std::stod] throws on [abc] ends the run before the
    printing loop: no line is printed for the empty key, where the
    claim wants it first.  This is the defect of C2; without the line
    [B=abc] the line of the empty key is printed. *)
Theorem C10_empty_key_is_not_printed :
  let content := unlines ["=5.0"; "B=abc"] in
  let fs := single_file measurements content in
  valid_record "=5.0" = Some ("", S754_finite false 5629499534213120 (-50))
  /\ In "=5.0" (lines content)
  /\ main fs = {| cout := ""; cerr := ""; exit := Terminated invalid_argument |}
  /\ output_keys (cout (main fs)) = []
  /\ output_keys (cout (main (single_file measurements (unlines ["=5.0"]))))
     = [""].
Proof.
  cbv zeta. split; [reflexivity|]. split; [vm_compute; now left|].
  repeat split; reflexivity.
Qed.

End Claims.

(** * Further properties of the program *)

(** ** Which file is read *)

Section Candidates.

Lemma open_first_priority (fs : filesystem) (l1 l2 : list string)
      (f c : string) :
  Forall (fun g => fs g = None) l1 -> fs f = Some c ->
  open_first fs (l1 ++ f :: l2)%list = Some c.
Proof.
  intros H Hf. induction H as [|g l1 Hg _ IH]; simpl.
  - now rewrite Hf.
  - now rewrite Hg.
Qed.

(** X1: The file read is the first candidate, in the order of
    [input_files], that opens: the run is the one of a file system that
    holds this file alone, whatever the later candidates and any other
    file contain. *)
Theorem first_openable_candidate_is_read
        (fs : filesystem) (l1 l2 : list string) (f c : string) :
  input_files = (l1 ++ f :: l2)%list ->
  Forall (fun g => fs g = None) l1 ->
  fs f = Some c ->
  open_first fs input_files = Some c
  /\ main fs = main (single_file f c).
Proof.
  intros Hs Hl Hf.
  assert (H1 : open_first fs input_files = Some c)
    by (rewrite Hs; now apply open_first_priority).
  assert (H2 : open_first (single_file f c) input_files = Some c).
  { rewrite Hs. apply open_first_priority.
    - eapply Forall_impl; [|exact Hl]. intros g Hg. unfold single_file.
      destruct (String.eqb_spec g f) as [->|_]; [congruence | reflexivity].
    - unfold single_file. now rewrite String.eqb_refl. }
  split; [exact H1|]. unfold main. now rewrite H1, H2.
Qed.

Lemma first_openable_candidate_is_read_witness :
  let fs := fun g => if String.eqb g "data/measurements_1m.txt" then None
                     else Some (unlines ["A=1.0"]) in
  open_first fs input_files = Some (unlines ["A=1.0"])
  /\ main fs = main (single_file "data/measurements.txt" (unlines ["A=1.0"])).
Proof.
  intros fs.
  apply (first_openable_candidate_is_read fs
           ["data/measurements_1m.txt"] ["data/test_measurements.txt"]
           "data/measurements.txt" (unlines ["A=1.0"])).
  - reflexivity.
  - repeat constructor.
  - reflexivity.
Defined.

End Candidates.

(** ** How a run ends *)

Section Endings.
Import StationsFacts.

Lemma read_loop_invariant (ls : list string) (m m' : Stations.t) (k : string) :
  read_loop ls m = Returned m' -> ordered m -> populated m ->
  ordered m' /\ populated m'
  /\ lookup k m' = (lookup k m ++ values_of k (valid_records ls))%list.
Proof.
  intros H Ho Hp. rewrite (read_loop_pushed _ _ _ H).
  split; [now apply pushed_ordered|]. split; [now apply pushed_populated|].
  now apply pushed_lookup.
Qed.

(** X2: [main] ends in one of three ways: it returns 0 and has written
    nothing to [std::cerr]; or it returns 1, with its message on
    [std::cerr] and nothing on [std::cout]; or an exception of
    [std::stod] terminates it before anything was written.  In
    particular no report is ever written in part, and the printing loop
    never meets an empty vector. *)
Theorem main_endings (fs : filesystem) :
  (exit (main fs) = Exited 0 /\ cerr (main fs) = "")
  \/ main fs = {| cout := ""; cerr := "Error: Could not open file" ++ endl;
                 exit := Exited 1 |}
  \/ exists e, main fs = {| cout := ""; cerr := ""; exit := Terminated e |}.
Proof.
  unfold main. destruct (open_first fs input_files) as [content|]; [|auto].
  destruct (read_loop (lines content) []) as [m|e] eqn:E; [|eauto].
  left.
  destruct (read_loop_invariant _ _ _ "" E ordered_nil populated_nil)
    as (_ & Hp & _).
  destruct (print_loop_populated m Hp) as [-> _]. auto.
Qed.

(** X3: [main] returns 0 exactly when a candidate file opens and, on every
    line that has a ['='], [std::stod] converts what follows it. *)
Theorem main_returns_0_iff (fs : filesystem) :
  exit (main fs) = Exited 0
  <-> exists content,
        open_first fs input_files = Some content
        /\ Forall (fun line =>
                     forall pos, Str.find "=" line = Some pos ->
                     exists x,
                       Stod.stod (Str.substr_from line (pos + 1)) = Returned x)
                  (lines content).
Proof.
  assert (Hp : forall line,
             (forall e, parse_line line <> Threw e)
             <-> (forall pos, Str.find "=" line = Some pos ->
                  exists x,
                    Stod.stod (Str.substr_from line (pos + 1)) = Returned x)).
  { intros line. unfold parse_line.
    destruct (Str.find "=" line) as [p|].
    - destruct (Stod.stod (Str.substr_from line (p + 1))) as [x|e] eqn:E.
      + split; [intros _ pos [= <-]; eauto | intros _ e; discriminate].
      + split; [intros H; now destruct (H e)|].
        intros H. destruct (H p eq_refl) as [x Hx]. congruence.
    - split; [intros _ pos; discriminate | intros _ e; discriminate]. }
  rewrite main_exit_0. split.
  - intros [m H].
    destruct (aggregate_shape _ _ H) as (content & Ho & Hr & _).
    exists content. split; [exact Ho|].
    assert (Hret : exists m', read_loop (lines content) [] = Returned m')
      by eauto.
    apply read_loop_returns in Hret.
    eapply Forall_impl; [|exact Hret]. intros line. apply Hp.
  - intros (content & Ho & Hall).
    assert (Hret : exists m', read_loop (lines content) [] = Returned m').
    { apply read_loop_returns.
      eapply Forall_impl; [|exact Hall]. intros line. apply Hp. }
    destruct Hret as [m' Hm']. exists m'.
    unfold aggregate. now rewrite Ho, Hm'.
Qed.

(** X4: The first line with a ['='] whose value [std::stod] rejects ends the
    run with the exception thrown, whatever the lines after it hold:
    they are never read, and nothing is printed for the lines before. *)
Theorem first_rejected_value_ends_the_run
        (fs : filesystem) (content : string) (l1 l2 : list string)
        (line : string) (pos : nat) (e : exception) :
  open_first fs input_files = Some content ->
  lines content = (l1 ++ line :: l2)%list ->
  Forall (fun l => forall e', parse_line l <> Threw e') l1 ->
  Str.find "=" line = Some pos ->
  Stod.stod (Str.substr_from line (pos + 1)) = Threw e ->
  main fs = {| cout := ""; cerr := ""; exit := Terminated e |}.
Proof.
  intros Ho Hl H1 Hf He. unfold main. rewrite Ho, Hl.
  rewrite (read_loop_throws l1 l2 line e [] H1); [reflexivity|].
  unfold parse_line. now rewrite Hf, He.
Qed.

Lemma first_rejected_value_ends_the_run_witness :
  main (single_file measurements (unlines ["A=1.0"; "B=1e999"; "C=x"]))
  = {| cout := ""; cerr := ""; exit := Terminated out_of_range |}.
Proof.
  apply (first_rejected_value_ends_the_run
           (single_file measurements (unlines ["A=1.0"; "B=1e999"; "C=x"]))
           (unlines ["A=1.0"; "B=1e999"; "C=x"])
           ["A=1.0"] ["C=x"] "B=1e999" 1%nat out_of_range).
  - reflexivity.
  - reflexivity.
  - repeat constructor. intros e'. vm_compute. discriminate.
  - reflexivity.
  - vm_compute. reflexivity.
Defined.

End Endings.

(** ** The reading loop *)

Section Reading.
Import StationsFacts.

Lemma append_inv_head (a b c : string) : a ++ b = a ++ c -> b = c.
Proof.
  induction a as [|x a IH]; simpl; intros H; [exact H|].
  injection H as H. now apply IH.
Qed.

Lemma substr_from_here (c : ascii) (k r : string) :
  Str.find c k = None ->
  Str.substr_from (k ++ String c r) (String.length k + 1) = r.
Proof.
  intros Hk. destruct (find_here c k r Hk) as [Hf Hs].
  destruct (find_split c _ _ Hf) as (Heq & _ & _).
  rewrite Hs in Heq. apply append_inv_head in Heq. now injection Heq as <-.
Qed.

(** X5: A line is split at its first ['=']: the station is the text before
    it, unchanged, and [std::stod] is given all the text after it, later
    ['='] included. *)
Theorem line_is_split_at_first_delimiter
        (k v : string) (m : Stations.t) :
  Str.find "=" k = None ->
  process_line (k ++ "=" ++ v) m
  = match Stod.stod v with
    | Returned x => Returned (Stations.push_back k x m)
    | Threw e => Threw e
    end.
Proof.
  intros Hk. unfold process_line. change ("=" ++ v) with (String "=" v).
  destruct (find_here "=" k v Hk) as [-> ->].
  now rewrite (substr_from_here _ _ _ Hk).
Qed.

Lemma line_is_split_at_first_delimiter_witness :
  process_line ("a b" ++ "=" ++ "2=3") []
  = match Stod.stod "2=3" with
    | Returned x => Returned (Stations.push_back "a b" x [])
    | Threw e => Threw e
    end.
Proof.
  apply (line_is_split_at_first_delimiter "a b" "2=3" []). reflexivity.
Defined.

Lemma lines_single (l : string) :
  Str.find newline l = None -> l <> "" -> lines l = [l].
Proof.
  induction l as [|c l IH]; [congruence|]. intros H _. simpl in *.
  destruct (Ascii.eqb c newline); [discriminate|].
  destruct l as [|c' l']; [reflexivity|].
  rewrite IH; [reflexivity| |discriminate].
  destruct (Str.find newline (String c' l')); [discriminate | reflexivity].
Qed.

Lemma lines_unlines_rest (ls : list string) (rest : string) :
  Forall (fun l => Str.find newline l = None) ls ->
  lines (unlines ls ++ rest) = (ls ++ lines rest)%list.
Proof.
  induction 1 as [|l ls Hl _ IH]; [reflexivity|].
  change (unlines (l :: ls)) with (l ++ endl ++ unlines ls).
  rewrite append_assoc. change (endl ++ unlines ls) with
    (String newline (unlines ls)).
  change (String newline (unlines ls) ++ rest)
    with (String newline (unlines ls ++ rest)).
  rewrite lines_cons by exact Hl. now rewrite IH.
Qed.

Lemma main_lines (fs fs' : filesystem) (c c' : string) :
  open_first fs input_files = Some c ->
  open_first fs' input_files = Some c' ->
  lines c = lines c' -> main fs = main fs'.
Proof. intros H H' Hl. unfold main. now rewrite H, H', Hl. Qed.

(** X6: A last line that no newline ends is read like any other line: the
    run is the one of the same file with the newline added. *)
Theorem unterminated_last_line_is_read
        (fs fs' : filesystem) (ls : list string) (l : string) :
  Forall (fun l => Str.find newline l = None) ls ->
  Str.find newline l = None -> l <> "" ->
  open_first fs input_files = Some (unlines ls ++ l) ->
  open_first fs' input_files = Some (unlines (ls ++ [l])) ->
  lines (unlines ls ++ l) = (ls ++ [l])%list /\ main fs = main fs'.
Proof.
  intros Hls Hl Hne Ho Ho'.
  assert (H : lines (unlines ls ++ l) = (ls ++ [l])%list).
  { rewrite lines_unlines_rest by exact Hls. now rewrite lines_single. }
  split; [exact H|]. apply (main_lines _ _ _ _ Ho Ho').
  rewrite H. symmetry. apply lines_unlines.
  apply Forall_app. split; [exact Hls | now constructor].
Qed.

Lemma unterminated_last_line_is_read_witness :
  lines (unlines ["A=1.0"] ++ "B=2.0") = (["A=1.0"] ++ ["B=2.0"])%list
  /\ main (single_file measurements (unlines ["A=1.0"] ++ "B=2.0"))
     = main (single_file measurements (unlines (["A=1.0"] ++ ["B=2.0"]))).
Proof.
  apply (unterminated_last_line_is_read
           (single_file measurements (unlines ["A=1.0"] ++ "B=2.0"))
           (single_file measurements (unlines (["A=1.0"] ++ ["B=2.0"])))
           ["A=1.0"] "B=2.0").
  - repeat constructor.
  - reflexivity.
  - discriminate.
  - reflexivity.
  - reflexivity.
Defined.

Lemma lines_nil (s : string) : lines s = [] <-> s = "".
Proof.
  split; [|now intros ->]. destruct s as [|c s]; [reflexivity|]. simpl.
  destruct (Ascii.eqb c newline); [discriminate|].
  destruct (lines s); discriminate.
Qed.

Lemma valid_records_nil (ls : list string) :
  Forall (fun line => forall e, parse_line line <> Threw e) ls ->
  valid_records ls = [] <-> Forall (fun l => Str.find "=" l = None) ls.
Proof.
  induction 1 as [|line ls Hl _ IH]; simpl.
  - split; [constructor | reflexivity].
  - unfold valid_record. unfold parse_line in *.
    destruct (Str.find "=" line) as [p|] eqn:E.
    + destruct (Stod.stod (Str.substr_from line (p + 1))) as [x|e].
      * split; [discriminate | intros H; inversion H; congruence].
      * now destruct (Hl e).
    + rewrite IH. split; [now constructor | now inversion 1].
Qed.

(** X7: A run that returns 0 prints nothing exactly when no line of the file
    has a ['=']: an empty file, or one of comments only. *)
Theorem report_is_empty_iff (fs : filesystem) (content : string) :
  open_first fs input_files = Some content ->
  exit (main fs) = Exited 0 ->
  cout (main fs) = ""
  <-> Forall (fun l => Str.find "=" l = None) (lines content).
Proof.
  intros Ho Hx.
  assert (Hret : Forall (fun line => forall e, parse_line line <> Threw e)
                        (lines content)).
  { apply (read_loop_returns _ []).
    destruct (proj1 (main_exit_0 fs) Hx) as [m Hm].
    destruct (aggregate_shape _ _ Hm) as (c & Hc & Hr & _).
    rewrite Ho in Hc. injection Hc as <-. eauto. }
  rewrite <- (valid_records_nil _ Hret), <- lines_nil.
  pose proof (output_keys_pushed fs content Ho Hx) as Hk.
  unfold output_keys in Hk.
  split; intros H.
  - rewrite H in Hk. simpl in Hk.
    destruct (valid_records (lines content)) as [|r recs]; [reflexivity|].
    exfalso.
    assert (Hin : In (fst r) (Stations.keys (pushed (r :: recs) [])))
      by (apply pushed_keys; left; now left).
    now rewrite <- Hk in Hin.
  - rewrite H in Hk. simpl in Hk.
    destruct (lines (cout (main fs))); [reflexivity | discriminate].
Qed.

Lemma report_is_empty_iff_witness :
  cout (main (single_file measurements (unlines ["# stations"; ""; "A;1.0"])))
  = ""
  <-> Forall (fun l => Str.find "=" l = None)
             (lines (unlines ["# stations"; ""; "A;1.0"])).
Proof.
  apply (report_is_empty_iff
           (single_file measurements (unlines ["# stations"; ""; "A;1.0"]))).
  - reflexivity.
  - reflexivity.
Defined.

(** X8: [stations[station].push_back (temp)] adds [temp] at the end of the
    vector of [station], creating it when it is missing, and changes
    the vector of no other station; the keys stay in ascending order. *)
Theorem push_back_lookup (k k' : string) (v : double) (m : Stations.t) :
  ordered m ->
  lookup k (Stations.push_back k v m) = (lookup k m ++ [v])%list
  /\ (k' <> k -> lookup k' (Stations.push_back k v m) = lookup k' m)
  /\ ordered (Stations.push_back k v m).
Proof.
  intros Ho. split; [|split].
  - rewrite lookup_push_back by exact Ho. now rewrite String.eqb_refl.
  - intros Hne. rewrite lookup_push_back by exact Ho.
    destruct (String.eqb_spec k k') as [->|_]; [congruence|].
    apply app_nil_r.
  - now apply push_back_ordered.
Qed.

Lemma push_back_lookup_witness :
  lookup "b" (Stations.push_back "b" one_and_a_half
                [("a", [Double.zero]); ("c", [Double.zero])])
  = (lookup "b" [("a", [Double.zero]); ("c", [Double.zero])]
       ++ [one_and_a_half])%list
  /\ ("c" <> "b" ->
      lookup "c" (Stations.push_back "b" one_and_a_half
                    [("a", [Double.zero]); ("c", [Double.zero])])
      = lookup "c" [("a", [Double.zero]); ("c", [Double.zero])])
  /\ ordered (Stations.push_back "b" one_and_a_half
                [("a", [Double.zero]); ("c", [Double.zero])]).
Proof.
  apply (push_back_lookup "b" "c" one_and_a_half
           [("a", [Double.zero]); ("c", [Double.zero])]).
  repeat constructor.
Defined.

Lemma table_ext (m1 : Stations.t) :
  forall m2 : Stations.t,
    ordered m1 -> ordered m2 -> populated m1 -> populated m2 ->
    (forall k, lookup k m1 = lookup k m2) -> m1 = m2.
Proof.
  assert (Habs : forall k vs (m : Stations.t) k',
             ordered ((k, vs) :: m) -> (k' = k \/ Str.lt k' k) ->
             lookup k' m = []).
  { intros k vs m k' Ho Hk. apply lookup_absent. intros Hin.
    unfold ordered in Ho. simpl in Ho. apply StronglySorted_inv in Ho.
    destruct Ho as [_ Hall]. rewrite Forall_forall in Hall.
    destruct Hk as [->|Hlt].
    - exact (lt_irrefl _ (Hall _ Hin)).
    - exact (lt_irrefl _ (lt_trans _ _ _ Hlt (Hall _ Hin))). }
  assert (Htail : forall k vs (m : Stations.t),
             ordered ((k, vs) :: m) -> ordered m).
  { intros k vs m Ho. unfold ordered in *. simpl in Ho.
    now apply StronglySorted_inv in Ho. }
  induction m1 as [|[k1 v1] m1 IH]; intros [|[k2 v2] m2] Ho1 Ho2 Hp1 Hp2 H.
  - reflexivity.
  - exfalso. specialize (H k2). simpl in H. rewrite String.eqb_refl in H.
    inversion Hp2 as [|? ? Hne _]. now apply Hne.
  - exfalso. specialize (H k1). simpl in H. rewrite String.eqb_refl in H.
    inversion Hp1 as [|? ? Hne _]. now apply Hne.
  - inversion Hp1 as [|? ? Hn1 Hp1']. inversion Hp2 as [|? ? Hn2 Hp2'].
    subst. simpl in Hn1, Hn2.
    destruct (String.compare k1 k2) eqn:C.
    + apply String.compare_eq_iff in C. subst k2.
      pose proof (H k1) as Hv. simpl in Hv. rewrite String.eqb_refl in Hv.
      subst v2. f_equal. apply IH; eauto.
      intros k. destruct (String.eqb_spec k1 k) as [<-|Hne].
      * rewrite (Habs _ _ _ k1 Ho1), (Habs _ _ _ k1 Ho2); auto.
      * specialize (H k). simpl in H.
        destruct (String.eqb_spec k1 k); [contradiction | exact H].
    + exfalso. specialize (H k1). simpl in H. rewrite String.eqb_refl in H.
      destruct (String.eqb_spec k2 k1) as [->|_].
      * rewrite compare_refl in C. discriminate.
      * rewrite (Habs _ _ _ k1 Ho2) in H; [now apply Hn1 | now right].
    + exfalso. apply compare_gt_lt in C.
      specialize (H k2). simpl in H. rewrite String.eqb_refl in H.
      destruct (String.eqb_spec k1 k2) as [->|_].
      * rewrite compare_refl in C. discriminate.
      * rewrite (Habs _ _ _ k2 Ho1) in H; [now apply Hn2 | now right].
Qed.

End Reading.

(** ** The printing loop *)

Section Printing.
Import StationsFacts.

Lemma lines_formatted (es : list entry) :
  Forall (fun e => Str.find newline (station e) = None) es ->
  lines (fold_right (fun e text => format_entry e ++ text) "" es)
  = map (fun e => station e ++ "=" ++ numbers e) es.
Proof.
  induction 1 as [|e es He _ IH]; [reflexivity|].
  cbn [fold_right map]. rewrite format_entry_line, lines_cons, IH;
    [reflexivity|].
  apply find_append_none. split; [exact He|].
  apply (find_append_none newline "=" (numbers e)).
  split; [reflexivity | apply numbers_no_newline].
Qed.

Lemma report_stations (fs : filesystem) (e : entry) :
  In e (report fs) ->
  Str.find "=" (station e) = None /\ Str.find newline (station e) = None.
Proof.
  intros Hin. destruct (report_entry fs e Hin) as (content & _ & Hne & _).
  apply (valid_records_keys (lines content)); [apply lines_no_newline|].
  remember (valid_records (lines content)) as recs eqn:E. clear E.
  induction recs as [|[k v] recs IH]; [now destruct Hne|].
  cbn [values_of map fst] in *.
  destruct (String.eqb_spec k (station e)) as [->|_]; [now left|].
  right. exact (IH Hne).
Qed.

(** X10: What [main] prints is one line for each station of the table, in
    the order of its keys: the key, ['='], the minimum, ['/'], the
    mean, ['/'] and the maximum; a run that does not return 0 prints
    no line. *)
Theorem output_is_one_line_per_station (fs : filesystem) :
  lines (cout (main fs))
  = map (fun e => station e ++ "=" ++ Fixed.print (min_temp e) ++ "/"
                    ++ Fixed.print (mean_temp e) ++ "/"
                    ++ Fixed.print (max_temp e))
        (report fs).
Proof.
  destruct (aggregate fs) as [m|] eqn:Hm.
  - rewrite (main_report fs m Hm). cbn [cout].
    apply lines_formatted. apply Forall_forall. intros e He.
    exact (proj2 (report_stations fs e He)).
  - unfold report. rewrite Hm. revert Hm. unfold aggregate, main.
    destruct (open_first fs input_files) as [content|]; [|reflexivity].
    destruct (read_loop (lines content) []); [discriminate | reflexivity].
Qed.

End Printing.

(** ** Special values *)

Section SpecialValues.
Import Rounding.

Lemma fold_add_nan (l : list double) :
  fold_left Double.add l S754_nan = S754_nan.
Proof. induction l as [|x l IH]; [reflexivity | exact IH]. Qed.

Lemma accumulate_nan (l : list double) :
  In S754_nan l -> forall acc, fold_left Double.add l acc = S754_nan.
Proof.
  induction l as [|x l IH]; [contradiction|]. intros [->|Hin] acc.
  - cbn [fold_left].
    replace (Double.add acc S754_nan) with (S754_nan : double)
      by (now destruct acc).
    apply fold_add_nan.
  - cbn [fold_left]. now apply IH.
Qed.

(** X11: nothing filters a NaN out: a station that has a NaN among its
    values has a NaN mean, whatever its other values are, and this mean
    compares neither above the minimum nor below the maximum.  (Whether
    it is written [nan] or [-nan] depends on the sign of the NaN.) *)
Theorem nan_value_gives_nan_mean (fs : filesystem) (e : entry) :
  In e (report fs) ->
  Exists (fun v => Double.is_nan v = true) (recorded fs (station e)) ->
  Double.is_nan (mean_temp e) = true
  /\ Double.leb (min_temp e) (mean_temp e) = false
  /\ Double.leb (mean_temp e) (max_temp e) = false.
Proof.
  intros He Hnan. destruct (report_recorded fs e He) as [_ Hs].
  assert (Hin : In S754_nan (recorded fs (station e))).
  { apply Exists_exists in Hnan. destruct Hnan as (v & Hv & Hn).
    destruct v; try discriminate Hn. exact Hv. }
  unfold summarize in Hs.
  destruct (minmax_element (recorded fs (station e))) as [[mn mx]|];
    [|discriminate].
  injection Hs as <-. cbn [mean_temp min_temp max_temp].
  unfold mean, accumulate. rewrite (accumulate_nan _ Hin).
  split; [reflexivity|]. split; [now destruct mn | reflexivity].
Qed.

Lemma nan_value_gives_nan_mean_witness :
  let e := {| station := "A"; count := 2; min_temp := S754_nan;
              mean_temp := S754_nan; max_temp := one_and_a_half |} in
  Double.is_nan (mean_temp e) = true
  /\ Double.leb (min_temp e) (mean_temp e) = false
  /\ Double.leb (mean_temp e) (max_temp e) = false.
Proof.
  intros e.
  apply (nan_value_gives_nan_mean
           (single_file measurements (unlines ["A=nan"; "A=1.5"])) e).
  - vm_compute. left. reflexivity.
  - vm_compute. left. reflexivity.
Defined.

Lemma SFdiv_core_exponent (mx my : positive) (ex ey : Z) :
  snd (fst (SFdiv_core_binary 53 1024 (Zpos mx) ex (Zpos my) ey))
  = Z.min (fexp64 (Zdigits2 (Zpos mx) + ex - (Zdigits2 (Zpos my) + ey)))
          (ex - ey).
Proof.
  unfold SFdiv_core_binary. cbv zeta.
  match goal with |- context [Z.div_eucl ?a ?b] =>
    destruct (Z.div_eucl a b) end.
  reflexivity.
Qed.

(** Dividing a double by the double 1 gives it back. *)
Lemma div_by_one (s : bool) (mx : positive) (ex : Z) :
  valid64 (S754_finite s mx ex) ->
  Double.div (S754_finite s mx ex) (Double.of_size 1) = S754_finite s mx ex.
Proof.
  intros Hv.
  replace (Double.of_size 1) with (S754_finite false 4503599627370496 (-52))
    by (vm_compute; reflexivity).
  unfold Double.div, Double.prec, Double.emax. cbn [SFdiv].
  rewrite xorb_false_r.
  pose proof (valid_exponent _ _ _ Hv) as Hex.
  pose proof (valid_mantissa _ _ _ Hv) as [Hm1 Hm2].
  pose proof (digits2_pos_bounds mx) as [B1 B2].
  set (d := Zpos (digits2_pos mx)) in *.
  assert (Hd : 0 < d <= 53).
  { split; [unfold d; lia|].
    destruct (Z.le_gt_cases d 53) as [|Hgt]; [assumption|].
    assert (2 ^ 53 <= 2 ^ (d - 1)) by (apply Z.pow_le_mono_r; lia). lia. }
  assert (Hd53 : -1074 < ex -> d = 53).
  { intros H. specialize (Hm2 H).
    destruct (Z.eq_dec d 53) as [|Hne]; [assumption|].
    assert (2 ^ d <= 2 ^ 52) by (apply Z.pow_le_mono_r; lia). lia. }
  pose proof (SFdiv_core_spec mx 4503599627370496 ex (-52)) as Hcore.
  pose proof (SFdiv_core_exponent mx 4503599627370496 ex (-52)) as Hexp.
  destruct (SFdiv_core_binary 53 1024 (Zpos mx) ex (Zpos 4503599627370496)
                              (-52)) as [[q e'] l].
  cbn [fst snd] in Hexp. destruct Hcore as (H1 & H2 & H3).
  change (Zdigits2 (Zpos mx)) with d in Hexp.
  change (Zdigits2 (Zpos 4503599627370496)) with 53 in Hexp.
  rewrite fexp64_eq in Hexp.
  assert (He' : (e' = ex /\ ex = -1074) \/ (e' = ex - 1 /\ -1074 < ex)).
  { destruct (Z.eq_dec ex (-1074)) as [->|Hne]; [left; lia|].
    right. assert (d = 53) by (apply Hd53; lia). lia. }
  set (t := ex - e') in *.
  assert (Ht : t = 0 \/ t = 1) by (unfold t; lia).
  assert (Es : ex - -52 - e' = t + 52) by (unfold t; lia).
  rewrite Es in H2.
  assert (EN : Zpos mx * 2 ^ (t + 52) = (Zpos mx * 2 ^ t) * 4503599627370496).
  { rewrite Z.pow_add_r by lia. change (2 ^ 52) with 4503599627370496. ring. }
  rewrite EN in H2.
  assert (Hq : q = Zpos mx * 2 ^ t).
  { pose proof (located_floor _ 4503599627370496 _ eq_refl H2) as Hf.
    rewrite shr_m_of_loc in Hf. rewrite Hf. apply Z.div_mul. lia. }
  assert (Hdq : Zdigits2 q = d + t).
  { destruct q as [|p|p]; [destruct Ht as [E|E]; rewrite E in Hq; lia
                          | | destruct Ht as [E|E]; rewrite E in Hq; lia].
    cbn [Zdigits2]. apply digits2_pos_unique. rewrite Hq.
    destruct Ht as [E|E]; rewrite E.
    - change (2 ^ 0) with 1. rewrite Z.add_0_r. lia.
    - change (2 ^ 1) with 2.
      replace (d + 1 - 1) with (Z.succ (d - 1)) by lia.
      replace (d + 1) with (Z.succ d) by lia.
      rewrite !Z.pow_succ_r by lia. lia. }
  destruct (binary_round_aux_spec s q e' l _ (Zpos 4503599627370496)
              ltac:(lia) H2 H3) as (m1 & _ & R2 & _ & _ & R5).
  rewrite R5. rewrite Hdq in R2 |- *.
  assert (Ee1 : fexp64 (d + t + e') = ex).
  { rewrite fexp64_eq. unfold t. destruct He' as [[? ?]|[? ?]].
    - lia.
    - assert (d = 53) by (apply Hd53; lia). lia. }
  rewrite Ee1 in R2 |- *. fold t in R2.
  assert (Em1 : m1 = Zpos mx).
  { destruct Ht as [E|E]; rewrite E in R2.
    - change (2 ^ 0) with 1 in R2. lia.
    - change (2 ^ 1) with 2 in R2. lia. }
  rewrite Em1. unfold pack.
  destruct (Z.ltb_spec (Zpos mx) (2 ^ 53)); [|lia].
  destruct (Z.leb_spec ex 971); [reflexivity | lia].
Qed.

Lemma mean_single (x : double) :
  valid64 x -> x <> S754_zero true -> mean [x] = x.
Proof.
  intros Hv Hz. unfold mean, accumulate. cbn [fold_left List.length].
  destruct x as [[]|[]| |s mx ex].
  - congruence.
  - vm_compute. reflexivity.
  - vm_compute. reflexivity.
  - vm_compute. reflexivity.
  - vm_compute. reflexivity.
  - change (Double.add Double.zero (S754_finite s mx ex))
      with (S754_finite s mx ex).
    now apply div_by_one.
Qed.

(** X12: A station with a single value has this value as its minimum, its
    mean and its maximum: the sum [0.0 + x] and the division by [1.0]
    are exact.  The negative zero is the one exception: [0.0 + -0.0] is
    the positive zero, so the mean of a single [-0.0] prints as [0.0]
    between two [-0.0]. *)
Theorem single_value_is_min_mean_max
        (fs : filesystem) (e : entry) (x : double) :
  In e (report fs) ->
  recorded fs (station e) = [x] ->
  x <> S754_zero true ->
  min_temp e = x /\ mean_temp e = x /\ max_temp e = x.
Proof.
  intros He Hx Hz. destruct (report_recorded fs e He) as [_ Hs].
  pose proof (recorded_valid fs (station e)) as Hv.
  rewrite Hx in Hs, Hv. inversion Hv as [|? ? Hvx _]. subst.
  cbn [summarize minmax_element] in Hs. injection Hs as <-.
  cbn [min_temp mean_temp max_temp]. split; [reflexivity|].
  split; [|reflexivity]. now apply mean_single.
Qed.

Lemma single_value_is_min_mean_max_witness :
  let e := {| station := "A"; count := 1; min_temp := one_and_a_half;
              mean_temp := one_and_a_half; max_temp := one_and_a_half |} in
  min_temp e = one_and_a_half /\ mean_temp e = one_and_a_half
  /\ max_temp e = one_and_a_half.
Proof.
  intros e.
  apply (single_value_is_min_mean_max
           (single_file measurements (unlines ["A=1.5"; "B=2"])) e
           one_and_a_half).
  - vm_compute. left. reflexivity.
  - vm_compute. reflexivity.
  - discriminate.
Defined.

(** The exception of the negative zero. *)
Lemma mean_of_negative_zero :
  mean [S754_zero true] = S754_zero false
  /\ cout (main (single_file measurements (unlines ["A=-0.0"])))
     = unlines ["A=-0.0/0.0/-0.0"].
Proof. split; vm_compute; reflexivity. Qed.

End SpecialValues.

(** ** Values written with one decimal *)

Module OneDecimal.
Import Rounding.

Section AnyFormat.

Variable emx : Z.

Lemma fexp_mono (a b : Z) : a <= b -> fexp 53 emx a <= fexp 53 emx b.
Proof. unfold fexp. lia. Qed.

Lemma round_aux_shape (s : bool) (m e : Z) (l : location) (N D : Z) :
  0 < D -> located N D (shr_record_of_loc m l) ->
  e <= fexp 53 emx (Zdigits2 m + e) ->
  let e1 := fexp 53 emx (Zdigits2 m + e) in
  let K := D * 2 ^ (e1 - e) in
  exists m1,
    2 * Z.abs (m1 * K - N) <= K
    /\ 0 <= m1 <= 2 ^ 53
    /\ (e1 = 3 - emx - 53 \/ 2 ^ 52 * K <= N)
    /\ N < 2 ^ 53 * K
    /\ binary_round_aux 53 emx s m e l = pack_in emx s m1 e1.
Proof.
  intros HD Hloc He e1 K.
  assert (Hm : 0 <= m).
  { destruct Hloc as (Hm & _). now rewrite shr_m_of_loc in Hm. }
  assert (Hn : 0 <= e1 - e) by (unfold e1; lia).
  assert (H2n : 0 < 2 ^ (e1 - e)) by (apply Z.pow_pos_nonneg; lia).
  assert (HK : 0 < K) by (unfold K; lia).
  unfold binary_round_aux, shr_fexp. fold e1.
  destruct (shr_located N D _ e (e1 - e) Hloc Hn) as (E1 & L1 & M1).
  fold K in L1. rewrite shr_m_of_loc in M1.
  destruct (shr (shr_record_of_loc m l) e (e1 - e)) as [mrs' e'].
  cbn [fst snd] in E1, L1, M1. replace e' with e1 by lia. clear e' E1.
  pose proof (located_floor N K mrs' HK L1) as F1.
  destruct (round_nearest_even_located N K mrs' HK L1) as [R1 R2].
  set (m1 := round_nearest_even (shr_m mrs') (loc_of_shr_record mrs')) in *.
  assert (HB : 0 <= N / K < 2 ^ 53
               /\ (e1 = 3 - emx - 53 \/ 2 ^ 52 <= N / K)).
  { rewrite <- F1, M1. destruct m as [|p|p]; [| |lia].
    - rewrite Z.div_0_l by lia. split; [lia|]. left.
      unfold e1 in *. unfold fexp, emin in *. simpl Zdigits2 in *. lia.
    - pose proof (digits2_pos_bounds p) as [B1 B2].
      unfold e1 in *. unfold fexp, emin in *. cbn [Zdigits2] in *.
      set (d := Zpos (digits2_pos p)) in *.
      assert (Hd : 0 < d) by (unfold d; lia).
      split; [split|].
      + apply Z.div_pos; lia.
      + apply Z.div_lt_upper_bound; [lia|].
        rewrite <- Z.pow_add_r by lia.
        apply Z.lt_le_trans with (2 ^ d); [lia|].
        apply Z.pow_le_mono_r; lia.
      + destruct (Z.eq_dec (Z.max (d + e - 53) (3 - emx - 53))
                           (3 - emx - 53)) as [E|E];
          [now left | right].
        apply Z.div_le_lower_bound; [lia|].
        rewrite <- Z.pow_add_r by lia.
        apply Z.le_trans with (2 ^ (d - 1)); [|lia].
        apply Z.pow_le_mono_r; lia. }
  destruct HB as [[HB1 HB2] HB3].
  pose proof (Z.mul_div_le N K HK) as Hlow.
  pose proof (Z.mul_succ_div_gt N K HK) as Hup.
  assert (Hm1 : 0 <= m1 <= 2 ^ 53) by lia.
  exists m1. split; [exact R2|]. split; [exact Hm1|].
  split; [destruct HB3 as [->|HB3]; [now left | right; nia]|].
  split; [nia|].
  assert (He1 : 3 - emx - 53 <= e1) by (unfold e1, fexp, emin; lia).
  clearbody m1 e1. clear - Hm1 He1.
  destruct m1 as [|p|p]; [| |lia].
  - cbn [Zdigits2]. rewrite shr_nonpos.
    + reflexivity.
    + unfold fexp, emin. lia.
  - destruct (Z.ltb_spec (Zpos p) (2 ^ 53)) as [Hlt|Hge].
    + pose proof (digits2_pos_bounds p) as [B1 B2].
      assert (Hd : Zpos (digits2_pos p) <= 53).
      { destruct (Z.le_gt_cases (Zpos (digits2_pos p)) 53) as [|Hgt];
          [assumption|].
        assert (2 ^ 53 <= 2 ^ (Zpos (digits2_pos p) - 1))
          by (apply Z.pow_le_mono_r; lia). lia. }
      cbn [Zdigits2]. rewrite shr_nonpos by (unfold fexp, emin; lia).
      cbn [shr_record_of_loc shr_m pack_in].
      destruct (Z.ltb_spec (Zpos p) (2 ^ 53)); [reflexivity | lia].
    + assert (Ep : Zpos p = 2 ^ 53) by lia.
      injection Ep as ->.
      replace (fexp 53 emx (Zdigits2 9007199254740992 + e1) - e1) with 1.
      * reflexivity.
      * unfold fexp, emin. cbn [Zdigits2 digits2_pos]. simpl Pos.succ. lia.
Qed.

Lemma SFdiv_core_shape (mx my : positive) (ex ey : Z) :
  let '(q, e', l) := SFdiv_core_binary 53 emx (Zpos mx) ex (Zpos my) ey in
  e' <= ex - ey
  /\ located (Zpos mx * 2 ^ (ex - ey - e')) (Zpos my) (shr_record_of_loc q l)
  /\ e' <= fexp 53 emx (Zdigits2 q + e').
Proof.
  unfold SFdiv_core_binary. cbn [Zdigits2].
  set (d1 := Zpos (digits2_pos mx)). set (d2 := Zpos (digits2_pos my)).
  set (e' := Z.min (fexp 53 emx (d1 + ex - (d2 + ey))) (ex - ey)).
  set (s := ex - ey - e').
  assert (Hs : 0 <= s) by (unfold s, e'; lia).
  set (m' := match s with
             | 0 => Zpos mx
             | Zpos _ => Z.shiftl (Zpos mx) s
             | Zneg _ => 0
             end).
  assert (Hm' : m' = Zpos mx * 2 ^ s).
  { unfold m'. destruct s as [|p|p]; [simpl; lia | | lia].
    apply Z.shiftl_mul_pow2. lia. }
  assert (H2s : 0 < 2 ^ s) by (apply Z.pow_pos_nonneg; lia).
  pose proof (Z.div_eucl_eq m' (Zpos my) ltac:(lia)) as Hdiv.
  pose proof (Z.mod_pos_bound m' (Zpos my) ltac:(lia)) as Hmod.
  unfold Z.modulo in Hmod.
  destruct (Z.div_eucl m' (Zpos my)) as [q r] eqn:Eqr.
  assert (Hq : 0 <= q).
  { assert (q = m' / Zpos my) by (unfold Z.div; now rewrite Eqr).
    subst q. apply Z.div_pos; lia. }
  split; [unfold e'; lia|]. split.
  - fold s. rewrite <- Hm', Hdiv. rewrite (Z.mul_comm (Zpos my) q).
    apply new_location_located; lia.
  - apply Z.le_trans with (fexp 53 emx (d1 + ex - (d2 + ey)));
      [unfold e'; lia|].
    apply fexp_mono.
    destruct (Z.le_gt_cases (d1 + s - d2) 0) as [Hle|Hgt].
    + pose proof (Zdigits2_nonneg q). unfold s in Hle. lia.
    + assert (Hd : d1 + s - d2 <= Zdigits2 q); [|unfold s in Hd; lia].
      apply Zdigits2_lower; [exact Hq | | lia].
      pose proof (digits2_pos_bounds mx) as [B1 _].
      pose proof (digits2_pos_bounds my) as [_ B2].
      fold d1 in B1. fold d2 in B2.
      assert (Hq' : q = m' / Zpos my) by (unfold Z.div; now rewrite Eqr).
      rewrite Hq'. apply Z.div_le_lower_bound; [lia|].
      apply Z.le_trans with (2 ^ d2 * 2 ^ (d1 + s - d2 - 1)).
      * apply Z.mul_le_mono_nonneg_r; [apply Z.pow_nonneg|]; lia.
      * rewrite <- Z.pow_add_r by lia. rewrite Hm'.
        replace (d2 + (d1 + s - d2 - 1)) with ((d1 - 1) + s) by lia.
        rewrite Z.pow_add_r by lia.
        apply Z.mul_le_mono_nonneg_r; lia.
Qed.

(** The quotient of two positive integers, rounded: a mantissa [m1] at
    the exponent [n - s], half a unit of which bounds the error. *)
Lemma round_ratio_shape (neg : bool) (a b : positive) :
  exists m1 s n,
    0 <= s /\ 0 <= n
    /\ Double.round_ratio emx neg a b = pack_in emx neg m1 (n - s)
    /\ 0 <= m1 <= 2 ^ 53
    /\ 2 * Z.abs (m1 * (Zpos b * 2 ^ n) - Zpos a * 2 ^ s) <= Zpos b * 2 ^ n
    /\ (n - s = 3 - emx - 53 \/ 2 ^ 52 * (Zpos b * 2 ^ n) <= Zpos a * 2 ^ s)
    /\ Zpos a * 2 ^ s < 2 ^ 53 * (Zpos b * 2 ^ n).
Proof.
  unfold Double.round_ratio, Double.prec. cbn [SFdiv]. rewrite xorb_false_r.
  pose proof (SFdiv_core_shape a b 0 0) as Hcore.
  destruct (SFdiv_core_binary 53 emx (Zpos a) 0 (Zpos b) 0) as [[q e'] l].
  destruct Hcore as (H1 & H2 & H3).
  destruct (round_aux_shape neg q e' l _ (Zpos b) ltac:(lia) H2 H3)
    as (m1 & R1 & R2 & R3 & R4 & R5).
  set (e1 := fexp 53 emx (Zdigits2 q + e')) in *.
  exists m1, (0 - 0 - e'), (e1 - e').
  split; [lia|]. split; [lia|].
  replace (e1 - e' - (0 - 0 - e')) with e1 by lia.
  repeat split; try assumption; lia.
Qed.

End AnyFormat.

Lemma pow2_split (a b : Z) : 0 <= b <= a -> 2 ^ a = 2 ^ (a - b) * 2 ^ b.
Proof. intros H. rewrite <- Z.pow_add_r by lia. f_equal. lia. Qed.

Lemma pow2_pos (a : Z) : 0 <= a -> 0 < 2 ^ a.
Proof. intros H. apply Z.pow_pos_nonneg; lia. Qed.

(** The double nearest to [m / 10], for [m] below [2^52]: a normal
    number whose distance to [m / 10] is less than half a tenth of a
    unit of its last place. *)
Lemma round_tenth_shape (emx : Z) (neg : bool) (m : positive) :
  1024 <= emx -> Zpos m < 2 ^ 52 ->
  exists p e,
    Double.round_ratio emx neg m 10 = S754_finite neg p e
    /\ -57 < e < 0
    /\ 2 * Z.abs (10 * Zpos p - Zpos m * 2 ^ (- e)) < 2 ^ (- e).
Proof.
  intros Hemx Hm.
  destruct (round_ratio_shape emx neg m 10)
    as (m1 & s & n & Hs & Hn & E & Hm1 & Herr & Hnorm & Hup).
  pose proof (pow2_pos s Hs) as Ps. pose proof (pow2_pos n Hn) as Pn.
  change (2 ^ 52) with 4503599627370496 in Hm, Hnorm.
  change (2 ^ 53) with 9007199254740992 in Hup.
  (* the exponent is above -57 *)
  assert (Hlow : s - n < 57).
  { destruct (Z.lt_ge_cases (s - n) 57) as [|Hge]; [assumption|exfalso].
    rewrite (pow2_split s n) in Hup by lia.
    assert (HA : 2 ^ 57 <= 2 ^ (s - n)) by (apply Z.pow_le_mono_r; lia).
    change (2 ^ 57) with 144115188075855872 in HA.
    assert (H1 : Zpos m * 2 ^ (s - n) < 9007199254740992 * 10).
    { apply Z.mul_lt_mono_pos_r with (p := 2 ^ n); [exact Pn|].
      rewrite <- !Z.mul_assoc. exact Hup. }
    assert (H2 : 1 * 2 ^ (s - n) <= Zpos m * 2 ^ (s - n))
      by (apply Z.mul_le_mono_nonneg_r; lia).
    lia. }
  destruct Hnorm as [Hsub|Hnorm]; [lia|].
  (* and at most -4 *)
  assert (Hhigh : 4 <= s - n).
  { destruct (Z.le_gt_cases 4 (s - n)) as [|Hlt]; [assumption|exfalso].
    destruct (Z.le_gt_cases n s) as [Hle|Hgt].
    - rewrite (pow2_split s n) in Hnorm by lia.
      assert (HA : 2 ^ (s - n) <= 2 ^ 3) by (apply Z.pow_le_mono_r; lia).
      change (2 ^ 3) with 8 in HA.
      assert (H1 : 4503599627370496 * 10 <= Zpos m * 2 ^ (s - n)).
      { apply Z.mul_le_mono_pos_r with (p := 2 ^ n); [exact Pn|].
        rewrite <- !Z.mul_assoc. exact Hnorm. }
      assert (H2 : Zpos m * 2 ^ (s - n) <= Zpos m * 8)
        by (apply Z.mul_le_mono_nonneg_l; lia).
      lia.
    - assert (HA : 2 ^ s <= 2 ^ n) by (apply Z.pow_le_mono_r; lia).
      assert (H1 : Zpos m * 2 ^ s <= Zpos m * 2 ^ n)
        by (apply Z.mul_le_mono_nonneg_l; lia).
      assert (H2 : Zpos m * 2 ^ n < 4503599627370496 * 2 ^ n)
        by (apply Z.mul_lt_mono_pos_r; lia).
      lia. }
  set (k := s - n) in *.
  assert (Pk : 16 <= 2 ^ k).
  { change 16 with (2 ^ 4). apply Z.pow_le_mono_r; lia. }
  rewrite (pow2_split s n) in Herr by lia. fold k in Herr.
  assert (Herr' : 2 * Z.abs (10 * m1 - Zpos m * 2 ^ k) <= 10).
  { replace (m1 * (10 * 2 ^ n) - Zpos m * (2 ^ k * 2 ^ n))
      with ((10 * m1 - Zpos m * 2 ^ k) * 2 ^ n) in Herr by ring.
    rewrite Z.abs_mul, (Z.abs_eq (2 ^ n)) in Herr by lia.
    apply Z.mul_le_mono_pos_r with (p := 2 ^ n); [exact Pn|].
    rewrite <- Z.mul_assoc. exact Herr. }
  assert (HmA : 1 * 2 ^ k <= Zpos m * 2 ^ k)
    by (apply Z.mul_le_mono_nonneg_r; lia).
  assert (Hpos : 0 < m1) by lia.
  replace (n - s) with (- k) in E by (unfold k; lia).
  rewrite E. unfold pack_in. destruct m1 as [|p|p]; [lia | | lia].
  destruct (Z.ltb_spec (Zpos p) (2 ^ 53)) as [Hlt|Hge].
  - destruct (Z.leb_spec (- k) (emx - 53)); [|lia].
    exists p, (- k). split; [reflexivity|]. split; [lia|].
    rewrite Z.opp_involutive. lia.
  - destruct (Z.leb_spec (- k + 1) (emx - 53)); [|lia].
    exists (2 ^ 52)%positive, (- k + 1). split; [reflexivity|].
    split; [lia|].
    replace (- (- k + 1)) with (k - 1) by lia.
    assert (Ep : Zpos p = 9007199254740992)
      by (change (2 ^ 53) with 9007199254740992 in *; lia).
    rewrite Ep in Herr'.
    assert (Ek : 2 ^ k = 2 * 2 ^ (k - 1)).
    { replace k with (Z.succ (k - 1)) at 1 by lia.
      rewrite Z.pow_succ_r by lia. reflexivity. }
    assert (8 <= 2 ^ (k - 1)).
    { change 8 with (2 ^ 3). apply Z.pow_le_mono_r; lia. }
    change (Zpos (2 ^ 52)) with 4503599627370496.
    rewrite Ek in Herr'. lia.
Qed.

Lemma round_half_even_near (a d m : Z) :
  0 < d -> 2 * Z.abs (a - m * d) < d -> Fixed.round_half_even a d = m.
Proof.
  intros Hd H. unfold Fixed.round_half_even.
  pose proof (Z.div_mod a d ltac:(lia)) as E.
  pose proof (Z.mod_pos_bound a d Hd) as B.
  set (q := a / d) in *. set (r := a mod d) in *.
  assert (Hq : q = m \/ q = m - 1) by nia.
  destruct (Z.compare_spec (2 * r) d) as [C|C|C]; nia.
Qed.

(** *** Reading the digits back *)

Lemma scan_uint (d : Decimal.uint) :
  forall (rest : string) (acc : N) (cnt : nat),
    Stod.scan Stod.digit_val 10 (NilEmpty.string_of_uint d ++ rest) acc cnt
    = Stod.scan Stod.digit_val 10 rest (uint_value d acc)
                (Decimal.nb_digits d + cnt).
Proof.
  induction d; intros rest acc cnt;
    [reflexivity | simpl; rewrite IHd; f_equal; lia ..].
Qed.

Lemma of_uint_acc_value (d : Decimal.uint) :
  forall p : positive,
    N.pos (Pos.of_uint_acc d p) = uint_value d (N.pos p).
Proof.
  induction d; intros p; cbn [Pos.of_uint_acc uint_value];
    [reflexivity | rewrite IHd; f_equal; lia ..].
Qed.

Lemma of_uint_value (d : Decimal.uint) : Pos.of_uint d = uint_value d 0.
Proof.
  induction d; cbn [Pos.of_uint uint_value];
    [reflexivity | exact IHd | apply of_uint_acc_value ..].
Qed.

Lemma uint_value_to_uint (n : N) : uint_value (N.to_uint n) 0 = n.
Proof. rewrite <- of_uint_value. apply DecimalN.Unsigned.of_to. Qed.

Lemma decimal_digits (n : Z) :
  Fixed.decimal n = NilEmpty.string_of_uint (N.to_uint (Z.to_N n))
  /\ N.to_uint (Z.to_N n) <> Decimal.Nil.
Proof.
  assert (H : N.to_uint (Z.to_N n) <> Decimal.Nil).
  { destruct (Z.to_N n); [discriminate|].
    apply DecimalPos.Unsigned.to_uint_nonnil. }
  split; [|exact H]. unfold Fixed.decimal.
  destruct (N.to_uint (Z.to_N n)); [now destruct H | reflexivity ..].
Qed.

Lemma one_digit (b : Z) (acc : N) :
  0 <= b < 10 ->
  Decimal.nb_digits (N.to_uint (Z.to_N b)) = 1%nat
  /\ uint_value (N.to_uint (Z.to_N b)) acc = (acc * 10 + Z.to_N b)%N.
Proof.
  intros H.
  assert (E : b = 0 \/ b = 1 \/ b = 2 \/ b = 3 \/ b = 4 \/ b = 5 \/ b = 6
              \/ b = 7 \/ b = 8 \/ b = 9) by lia.
  repeat (destruct E as [->|E]; [split; reflexivity|]).
  subst. split; reflexivity.
Qed.

Lemma first_digit (d : Decimal.uint) :
  d <> Decimal.Nil ->
  exists c r v,
    NilEmpty.string_of_uint d = String c r /\ Stod.digit_val c = Some v.
Proof.
  destruct d; intros H;
    [congruence | cbn [NilEmpty.string_of_uint]; do 3 eexists;
                  split; reflexivity ..].
Qed.

Lemma hex_body_digits (d : Decimal.uint) (t : string) :
  d <> Decimal.Nil ->
  Stod.hex_body (NilEmpty.string_of_uint d ++ "." ++ t) = None.
Proof.
  destruct d as [|d|d|d|d|d|d|d|d|d|d]; [congruence | | reflexivity ..].
  intros _. destruct d; reflexivity.
Qed.

(** A text that starts with a decimal digit and is no hexadecimal
    number is read as a decimal number. *)
Lemma strtod_decimal (neg : bool) (c : ascii) (r : string) (v : N) :
  Stod.digit_val c = Some v ->
  Stod.hex_body (String c r) = None ->
  Stod.strtod (Fixed.sign neg ++ String c r)
  = match Stod.scan_mantissa Stod.digit_val 10 (String c r) with
    | Some (m, f, r') =>
        Some (Stod.LNum neg m 10 (Stod.scan_exponent "e" r' - Z.of_nat f))
    | None => None
    end.
Proof.
  intros Hc Hhex.
  destruct c as [[] [] [] [] [] [] [] []]; try discriminate Hc;
    destruct neg; unfold Stod.strtod;
    cbn [Fixed.sign append Stod.skip_space]; cbv beta iota;
    (rewrite Hhex || idtac); cbn -[Stod.scan_mantissa Stod.hex_body];
    rewrite ?Hhex; reflexivity.
Qed.

Lemma scan_mantissa_one_decimal (da db : Decimal.uint) :
  Decimal.nb_digits db = 1%nat ->
  Stod.scan_mantissa Stod.digit_val 10
    (NilEmpty.string_of_uint da ++ "." ++ NilEmpty.string_of_uint db)
  = Some (uint_value db (uint_value da 0), 1%nat, "").
Proof.
  intros Hb. unfold Stod.scan_mantissa. rewrite scan_uint.
  change ("." ++ NilEmpty.string_of_uint db)
    with (String "." (NilEmpty.string_of_uint db)).
  cbn [Stod.scan]. change (Stod.digit_val ".") with (@None N). cbv beta iota.
  rewrite <- (append_nil_r (NilEmpty.string_of_uint db)), scan_uint.
  cbn [Stod.scan]. rewrite Hb. change (1 + 0)%nat with 1%nat.
  rewrite Nat.add_1_r. reflexivity.
Qed.

Lemma strtod_one_decimal (neg : bool) (n : Z) :
  0 <= n ->
  Stod.strtod (one_decimal neg n) = Some (Stod.LNum neg (Z.to_N n) 10 (-1)).
Proof.
  intros Hn. unfold one_decimal.
  pose proof (Z.mod_pos_bound n 10 eq_refl) as Hb.
  pose proof (Z.div_pos n 10 Hn eq_refl) as Ha.
  destruct (decimal_digits (n / 10)) as [-> Hnil].
  destruct (decimal_digits (n mod 10)) as [-> _].
  set (da := N.to_uint (Z.to_N (n / 10))) in *.
  set (db := N.to_uint (Z.to_N (n mod 10))) in *.
  destruct (one_digit (n mod 10) (uint_value da 0) Hb) as [H1 H2].
  fold db in H1, H2.
  pose proof (hex_body_digits da (NilEmpty.string_of_uint db) Hnil) as Hhex.
  pose proof (scan_mantissa_one_decimal da db H1) as Hscan.
  destruct (first_digit da Hnil) as (c & r & v & Ec & Hc).
  rewrite Ec in Hhex, Hscan |- *.
  change (String c r ++ "." ++ NilEmpty.string_of_uint db)
    with (String c (r ++ "." ++ NilEmpty.string_of_uint db)) in *.
  rewrite (strtod_decimal neg c _ v Hc Hhex), Hscan.
  cbn [Stod.scan_exponent]. do 2 f_equal.
  rewrite H2. unfold da. rewrite uint_value_to_uint.
  apply N2Z.inj. rewrite N2Z.inj_add, N2Z.inj_mul, !Z2N.id by lia.
  pose proof (Z.div_mod n 10 ltac:(lia)). simpl Z.of_N. lia.
Qed.

Lemma not_tiny (neg : bool) (p : positive) (e : Z) :
  -1074 < e ->
  SFltb (SFabs (S754_finite neg p e)) Double.min_normal = false.
Proof.
  intros He. unfold SFltb, SFabs, Double.min_normal. cbn [SFcompare].
  destruct (Z.compare_spec e (-1074)); [lia | lia | reflexivity].
Qed.

(** What [std::stod] makes of a text with one decimal, below [2^52]
    tenths, and what is printed for it. *)
Lemma stod_one_decimal (neg : bool) (n : Z) :
  0 <= n < 2 ^ 52 ->
  exists x,
    Stod.stod (one_decimal neg n) = Returned x
    /\ Fixed.print x = one_decimal neg n.
Proof.
  intros [Hn Hlt]. unfold Stod.stod.
  rewrite (strtod_one_decimal neg n Hn).
  destruct n as [|m|m]; [| |lia].
  - exists (S754_zero neg). split; [reflexivity|]. now destruct neg.
  - cbn [Z.to_N Stod.convert].
    change (Stod.ratio_of m 10 (-1)) with (m, 10%positive).
    destruct (round_tenth_shape Double.emax neg m ltac:(unfold Double.emax; lia) Hlt)
      as (p & e & -> & He & Herr).
    destruct (round_tenth_shape Stod.wide_emax neg m
                ltac:(unfold Stod.wide_emax; lia) Hlt)
      as (pw & ew & -> & Hew & _).
    rewrite not_tiny by lia. cbn [Double.is_infinite orb andb].
    exists (S754_finite neg p e). split; [reflexivity|].
    unfold Fixed.print, one_decimal, Fixed.tenths.
    destruct (Z.leb_spec 0 e); [lia|].
    rewrite (round_half_even_near (10 * Zpos p) (2 ^ (- e)) (Zpos m));
      [reflexivity | apply pow2_pos; lia | exact Herr].
Qed.

End OneDecimal.

(** ** From the input text to the printed text *)

Section RoundTrip.
Import StationsFacts.



Lemma parse_line_split (line : string) :
  parse_line line
  = match split_line line with
    | Some (k, text) =>
        match Stod.stod text with
        | Returned v => Returned (Some (k, v))
        | Threw e => Threw e
        end
    | None => Returned None
    end.
Proof.
  unfold parse_line, split_line. now destruct (Str.find "=" line).
Qed.

(** Each value of the table was read from a line of its station. *)
Lemma values_of_source (k : string) (v : double) (ls : list string) :
  In v (values_of k (valid_records ls)) ->
  exists line text,
    In line ls /\ split_line line = Some (k, text)
    /\ Stod.stod text = Returned v.
Proof.
  induction ls as [|line ls IH]; [contradiction|]. cbn [valid_records].
  assert (Htail : In v (values_of k (valid_records ls)) ->
                  exists line0 text,
                    In line0 (line :: ls) /\ split_line line0 = Some (k, text)
                    /\ Stod.stod text = Returned v).
  { intros H. destruct (IH H) as (l & t & Hl & Hs & Hv).
    exists l, t. split; [now right | now split]. }
  unfold valid_record. rewrite parse_line_split.
  destruct (split_line line) as [[k' text]|] eqn:Es; [|exact Htail].
  destruct (Stod.stod text) as [x|e] eqn:Ex; [|exact Htail].
  cbn [values_of]. destruct (String.eqb_spec k' k) as [->|_]; [|exact Htail].
  intros [<-|H]; [|exact (Htail H)].
  exists line, text. split; [now left | now split].
Qed.



End RoundTrip.

(** ** Lines and parts of a file *)

Section Parts.
Import StationsFacts.

(** X15: [std::getline] loses no character: the lines it yields, each
    followed by a newline, give the file back, up to the newline that
    the last line of the file may lack. *)
Theorem lines_give_the_file_back (s : string) :
  unlines (lines s) = s \/ unlines (lines s) = s ++ endl.
Proof.
  induction s as [|c s IH]; [now left|]. cbn [lines].
  destruct (Ascii.eqb_spec c newline) as [->|Hc].
  - change (unlines ("" :: lines s)) with (String newline (unlines (lines s))).
    destruct IH as [->| ->]; [now left | now right].
  - destruct (lines s) as [|l ls] eqn:El.
    + apply lines_nil in El. subst s. now right.
    + change (unlines (String c l :: ls))
        with (String c (unlines (l :: ls))).
      destruct IH as [->| ->]; [now left | now right].
Qed.

Lemma values_of_app (k : string) (r1 r2 : list record) :
  values_of k (r1 ++ r2)%list = (values_of k r1 ++ values_of k r2)%list.
Proof.
  induction r1 as [|[k' v] r1 IH]; [reflexivity|]. cbn [app values_of].
  destruct (String.eqb k' k); [cbn [app]; now rewrite IH | exact IH].
Qed.

(** X16: Reading the lines of two files one after the other gives each
    station the values of the first file followed by those of the
    second, provided both can be read to their end. *)
Theorem reading_two_parts (l1 l2 : list string) (m1 m2 : Stations.t) :
  read_loop l1 [] = Returned m1 ->
  read_loop l2 [] = Returned m2 ->
  exists m,
    read_loop (l1 ++ l2)%list [] = Returned m
    /\ forall k, lookup k m = (lookup k m1 ++ lookup k m2)%list.
Proof.
  intros H1 H2.
  assert (Hret : exists m, read_loop (l1 ++ l2)%list [] = Returned m).
  { apply read_loop_returns. apply Forall_app. split.
    - apply (read_loop_returns l1 []). eauto.
    - apply (read_loop_returns l2 []). eauto. }
  destruct Hret as [m Hm]. exists m. split; [exact Hm|]. intros k.
  rewrite (read_loop_pushed _ _ _ Hm), (read_loop_pushed _ _ _ H1),
    (read_loop_pushed _ _ _ H2).
  rewrite !pushed_lookup by apply ordered_nil. cbn [lookup app].
  rewrite valid_records_app. apply values_of_app.
Qed.

Lemma reading_two_parts_witness :
  exists m,
    read_loop (["A=1.5"; "B=1.5"] ++ ["x"; "A=1.5"])%list [] = Returned m
    /\ forall k,
         lookup k m
         = (lookup k [("A", [one_and_a_half]); ("B", [one_and_a_half])]
              ++ lookup k [("A", [one_and_a_half])])%list.
Proof.
  apply (reading_two_parts ["A=1.5"; "B=1.5"] ["x"; "A=1.5"]).
  - vm_compute. reflexivity.
  - vm_compute. reflexivity.
Defined.

End Parts.

(** ** Stations whose lines are interleaved *)

Section Interleaving.
Import StationsFacts.

Lemma texts_convert (ls : list string) :
  Forall (fun line => forall e, parse_line line <> Threw e) ls
  <-> forall k,
        Forall (fun t => exists x, Stod.stod t = Returned x) (texts_of k ls).
Proof.
  split.
  - induction 1 as [|line ls Hl _ IH]; intros k; [constructor|].
    cbn [texts_of]. rewrite parse_line_split in Hl.
    destruct (split_line line) as [[k' t]|]; [|apply IH].
    destruct (String.eqb k' k); [|apply IH].
    constructor; [|apply IH].
    destruct (Stod.stod t) as [x|e]; [eauto | now destruct (Hl e)].
  - induction ls as [|line ls IH]; intros H; constructor.
    + intros e. rewrite parse_line_split.
      destruct (split_line line) as [[k' t]|] eqn:Es; [|discriminate].
      specialize (H k'). cbn [texts_of] in H.
      rewrite Es, String.eqb_refl in H.
      inversion H as [|? ? [x Hx] _]. rewrite Hx. discriminate.
    + apply IH. intros k. specialize (H k). cbn [texts_of] in H.
      destruct (split_line line) as [[k' t]|]; [|exact H].
      destruct (String.eqb k' k); [now inversion H | exact H].
Qed.

Lemma values_of_texts (k : string) (ls : list string) :
  Forall (fun line => forall e, parse_line line <> Threw e) ls ->
  Forall2 (fun t v => Stod.stod t = Returned v)
          (texts_of k ls) (values_of k (valid_records ls)).
Proof.
  induction 1 as [|line ls Hl _ IH]; [constructor|].
  cbn [texts_of valid_records]. unfold valid_record.
  rewrite parse_line_split in Hl |- *.
  destruct (split_line line) as [[k' t]|]; [|exact IH].
  destruct (Stod.stod t) as [x|e] eqn:Ex; [|now destruct (Hl e)].
  cbn [values_of]. destruct (String.eqb k' k); [|exact IH].
  now constructor.
Qed.

Lemma converted_once (ts : list string) :
  forall vs vs' : list double,
    Forall2 (fun t v => Stod.stod t = Returned v) ts vs ->
    Forall2 (fun t v => Stod.stod t = Returned v) ts vs' ->
    vs = vs'.
Proof.
  induction ts as [|t ts IH]; intros vs vs' H H';
    inversion H; inversion H'; subst; [reflexivity|].
  f_equal; [congruence | now apply IH].
Qed.

(** X9: the run depends on the file only through the value texts of
    each station, in their order: two files that give every station
    the same texts in the same order, however the lines of different
    stations are interleaved or mixed with lines without ['='], either
    both return 0 with the same output, or are both terminated by an
    exception of [std::stod] (not always the same one) with nothing
    printed. *)
Theorem report_depends_on_texts_per_station
        (fs fs' : filesystem) (content content' : string) :
  open_first fs input_files = Some content ->
  open_first fs' input_files = Some content' ->
  (forall k, texts_of k (lines content) = texts_of k (lines content')) ->
  (main fs = main fs' /\ exit (main fs) = Exited 0)
  \/ (exists e e',
         main fs = {| cout := ""; cerr := ""; exit := Terminated e |}
         /\ main fs' = {| cout := ""; cerr := ""; exit := Terminated e' |}).
Proof.
  intros Ho Ho' Ht.
  assert (Hmove : forall l l' : list string,
             (forall k, texts_of k l = texts_of k l') ->
             (exists m, read_loop l [] = Returned m) ->
             exists m', read_loop l' [] = Returned m').
  { intros l l' Hk Hr. apply read_loop_returns, texts_convert.
    intros k. rewrite <- Hk. revert k.
    now apply texts_convert, (read_loop_returns l []). }
  unfold main. rewrite Ho, Ho'.
  destruct (read_loop (lines content) []) as [m|e] eqn:E;
    destruct (read_loop (lines content') []) as [m'|e'] eqn:E'.
  - left.
    destruct (read_loop_invariant _ _ _ "" E ordered_nil populated_nil)
      as (Hord & Hpop & _).
    destruct (read_loop_invariant _ _ _ "" E' ordered_nil populated_nil)
      as (Hord' & Hpop' & _).
    assert (Heq : m = m').
    { apply table_ext; auto. intros k.
      destruct (read_loop_invariant _ _ _ k E ordered_nil populated_nil)
        as (_ & _ & ->).
      destruct (read_loop_invariant _ _ _ k E' ordered_nil populated_nil)
        as (_ & _ & ->).
      cbn [lookup app].
      apply (converted_once (texts_of k (lines content))).
      - apply values_of_texts, (read_loop_returns _ []). eauto.
      - rewrite Ht. apply values_of_texts, (read_loop_returns _ []). eauto. }
    subst m'. destruct (print_loop_populated m Hpop) as [-> _].
    split; reflexivity.
  - exfalso. destruct (Hmove _ _ Ht) as [m' Hm']; [eauto|]. congruence.
  - exfalso.
    destruct (Hmove (lines content') (lines content)) as [m0 Hm0];
      [intros k; symmetry; apply Ht | eauto | congruence].
  - right. eauto.
Qed.

Lemma report_depends_on_texts_per_station_witness :
  let fs := single_file measurements
                        (unlines ["A=1.0"; "B=2.0"; "x"; "A=3.0"]) in
  let fs' := single_file measurements (unlines ["B=2.0"; "A=1.0"; "A=3.0"]) in
  (main fs = main fs' /\ exit (main fs) = Exited 0)
  \/ (exists e e',
         main fs = {| cout := ""; cerr := ""; exit := Terminated e |}
         /\ main fs' = {| cout := ""; cerr := ""; exit := Terminated e' |}).
Proof.
  intros fs fs'.
  apply (report_depends_on_texts_per_station
           fs fs' (unlines ["A=1.0"; "B=2.0"; "x"; "A=3.0"])
           (unlines ["B=2.0"; "A=1.0"; "A=3.0"])).
  - reflexivity.
  - reflexivity.
  - intros k. vm_compute.
    destruct k as [|[[] [] [] [] [] [] [] []] [|]]; reflexivity.
Defined.

End Interleaving.

(** ** The keys of a run that returns 0 *)

Section Keys.
Import StationsFacts.

Lemma find_none_chars (c : ascii) (s : string) :
  Str.find c s = None <-> ~ In c (list_ascii_of_string s).
Proof.
  induction s as [|a s IH]; cbn [Str.find list_ascii_of_string In].
  - tauto.
  - destruct (Ascii.eqb_spec a c) as [->|Hne].
    + split; [discriminate | intros H; destruct H; now left].
    + destruct (Str.find c s); cbn [option_map].
      * split; [discriminate|]. intros H. exfalso.
        assert (Hs : ~ In c (list_ascii_of_string s)) by tauto.
        apply IH in Hs. discriminate.
      * split; [|reflexivity]. intros _ [Ha|Hin]; [contradiction|].
        now apply (proj1 IH).
Qed.

(** A valid record is a line made of a key without ['='], a ['='] and
    a text that [std::stod] converts. *)
Lemma valid_record_shape (line k : string) (x : double) :
  valid_record line = Some (k, x)
  <-> exists v,
        line = k ++ "=" ++ v
        /\ ~ In "="%char (list_ascii_of_string k)
        /\ Stod.stod v = Returned x.
Proof.
  unfold valid_record, parse_line. split.
  - destruct (Str.find "=" line) as [pos|] eqn:Ef; [|discriminate].
    destruct (Stod.stod (Str.substr_from line (pos + 1))) as [y|e] eqn:Ey;
      [|discriminate].
    intros [= <- <-]. destruct (find_split _ _ _ Ef) as (Hl & Hk & _).
    exists (Str.substr_from line (pos + 1)).
    split; [exact Hl|]. split; [now apply find_none_chars | exact Ey].
  - intros (v & -> & Hk & Hv). apply find_none_chars in Hk.
    change ("=" ++ v) with (String "=" v).
    destruct (find_here "=" k v Hk) as [-> ->].
    now rewrite (substr_from_here _ _ _ Hk), Hv.
Qed.

Lemma valid_records_source (ls : list string) (r : record) :
  In r (valid_records ls) ->
  exists line, In line ls /\ valid_record line = Some r.
Proof.
  induction ls as [|line ls IH]; [contradiction|]. cbn [valid_records].
  destruct (valid_record line) as [r'|] eqn:E.
  - intros [<-|H]; [exists line; split; [now left | exact E]|].
    destruct (IH H) as (l & Hl & Hr). exists l. split; [now right | exact Hr].
  - intros H. destruct (IH H) as (l & Hl & Hr).
    exists l. split; [now right | exact Hr].
Qed.

(** X17: in a run that returns 0, the keys of the output lines are
    strictly ascending in the byte-wise order of [std::string], so each
    appears once, and they are exactly the keys of the valid records of
    the input: the texts [k] without ['='] for which the file has a
    line [k=v] whose [v] is converted by [std::stod]. *)
Theorem keys_of_a_run_that_returns_0 (fs : filesystem) (content : string) :
  open_first fs input_files = Some content ->
  exit (main fs) = Exited 0 ->
  StronglySorted Str.lt (output_keys (cout (main fs)))
  /\ NoDup (output_keys (cout (main fs)))
  /\ (forall k,
        In k (output_keys (cout (main fs)))
        <-> In k (map fst (valid_records (lines content))))
  /\ (forall k,
        In k (output_keys (cout (main fs)))
        <-> exists v x,
              In (k ++ "=" ++ v) (lines content)
              /\ ~ In "="%char (list_ascii_of_string k)
              /\ Stod.stod v = Returned x).
Proof.
  intros Ho H0. rewrite (output_keys_pushed fs content Ho H0).
  pose proof (pushed_ordered (valid_records (lines content)) [] ordered_nil)
    as Hord.
  assert (Hk : forall k,
             In k (Stations.keys (pushed (valid_records (lines content)) []))
             <-> In k (map fst (valid_records (lines content)))).
  { intros k. rewrite pushed_keys. simpl. tauto. }
  split; [exact Hord|]. split; [now apply ordered_NoDup|].
  split; [exact Hk|]. intros k. rewrite Hk, in_map_iff. split.
  - intros ([k' x] & <- & Hin).
    destruct (valid_records_source _ _ Hin) as (line & Hl & Hr).
    apply valid_record_shape in Hr. destruct Hr as (v & -> & Hne & Hv).
    exists v, x. now repeat split.
  - intros (v & x & Hl & Hne & Hv). exists (k, x). split; [reflexivity|].
    apply (valid_records_In _ (k ++ "=" ++ v)); [exact Hl|].
    apply valid_record_shape. exists v. now repeat split.
Qed.

Lemma keys_of_a_run_that_returns_0_witness :
  let content := unlines ["b=1.0"; "a=2.0"; "skipped"; "b=3.0"] in
  let fs := single_file measurements content in
  StronglySorted Str.lt (output_keys (cout (main fs)))
  /\ NoDup (output_keys (cout (main fs)))
  /\ (forall k,
        In k (output_keys (cout (main fs)))
        <-> In k (map fst (valid_records (lines content))))
  /\ (forall k,
        In k (output_keys (cout (main fs)))
        <-> exists v x,
              In (k ++ "=" ++ v) (lines content)
              /\ ~ In "="%char (list_ascii_of_string k)
              /\ Stod.stod v = Returned x).
Proof.
  intros content fs.
  apply (keys_of_a_run_that_returns_0 fs content); reflexivity.
Defined.

(** X18: a line that starts with ['='] and goes on with a number is a
    valid record whose key is the empty string; in a run that returns
    0 the first output line is the one of the empty key. *)
Theorem empty_key_comes_first
        (fs : filesystem) (content value : string) (x : double) :
  open_first fs input_files = Some content ->
  In (String "=" value) (lines content) ->
  Stod.stod value = Returned x ->
  exit (main fs) = Exited 0 ->
  valid_record (String "=" value) = Some ("", x)
  /\ exists ks, output_keys (cout (main fs)) = "" :: ks.
Proof.
  intros Ho Hin Hx H0.
  assert (Hv : valid_record (String "=" value) = Some ("", x)).
  { apply valid_record_shape. exists value.
    split; [reflexivity|]. split; [intros []|exact Hx]. }
  split; [exact Hv|].
  rewrite (output_keys_pushed fs content Ho H0).
  pose proof (pushed_ordered (valid_records (lines content)) [] ordered_nil)
    as Hs. unfold ordered in Hs.
  assert (He : In "" (Stations.keys
                        (pushed (valid_records (lines content)) []))).
  { apply pushed_keys. left. apply (in_map fst) with (x := ("", x)).
    exact (valid_records_In _ _ _ Hin Hv). }
  destruct (Stations.keys (pushed (valid_records (lines content)) []))
    as [|k ks]; [contradiction|].
  destruct He as [->|He]; [eauto|].
  apply StronglySorted_inv in Hs. destruct Hs as [_ Hall].
  rewrite Forall_forall in Hall.
  now destruct (not_lt_empty k (Hall _ He)).
Qed.

Lemma empty_key_comes_first_witness :
  let fs := single_file measurements (unlines ["B=1.0"; "=5.0"]) in
  valid_record "=5.0" = Some ("", S754_finite false 5629499534213120 (-50))
  /\ exists ks, output_keys (cout (main fs)) = "" :: ks.
Proof.
  intros fs.
  apply (empty_key_comes_first fs (unlines ["B=1.0"; "=5.0"]) "5.0");
    try reflexivity.
  simpl. auto.
Defined.

End Keys.
